(** * Yahoo Finance MCP server: the normalizer, the renderer, the historical
      range resolver, the symbol search and the symbols argument.

    A shallow embedding of [src/src/stock_mcp/server.py], with the parts of
    pandas ([reset_index], [to_dict], [isna]), of [json] ([dumps] with
    [indent=2], [loads]), of [str] ([split], [strip], [upper]) and of
    [datetime] ([today], [strftime]) that the code calls, and of the steps
    of [src/deploy.py] that run shell commands.

    Conventions of the embedding.
    - A Python [str] is a [string]; a character stands for the code point of
      the same number, so the text covered lies below U+0100 and the
      surrogate escapes of [json] do not arise.  The symbols argument, which
      is put in upper case, is a [pytext]: Latin-1 and the two capitals outside
      Latin-1 that [str.upper] gives for characters of Latin-1.
    - A label (a dict key, a column label, an index name or an index value)
      is a [str], an [int], a [Timestamp], a [date] or a tuple of labels.
      Labels that are a [float], a [bool] or [None] are not covered.
    - A Python [int] is a [Z]; the limit that CPython 3.11 puts on the number
      of digits of an [int] turned into text is not modelled.  A finite
      [float] is carried by its [repr], the shortest decimal text that
      CPython prints for it and reads back to the same float; not-a-number
      and the infinities are separate constructors.
    - A [dict] is an association list in insertion order.
    - A [DataFrame] has a flat index of columns; its cells, and the values of
      a [Series], are plain Python data.
    - Code that can raise returns a [result]; [try]/[except Exception] is
      [try_except]. *)

From Stdlib Require Import String Ascii List ZArith Lia Bool Arith.
From Stdlib Require Import Decimal DecimalString DecimalZ DecimalPos DecimalFacts.
Import ListNotations.

#[local] Set Warnings "-register-all".
#[local] Set Warnings "-automation".

Local Open Scope list_scope.
Local Open Scope string_scope.

(* ===================================================================== *)
(** ** Python strings *)
(* ===================================================================== *)

Definition code (c : ascii) : nat := nat_of_ascii c.

(** [str.isspace] on one character, for the code points below U+0100. *)
Definition is_space (c : ascii) : bool :=
  let n := code c in
  (((9 <=? n) && (n <=? 13)) || ((28 <=? n) && (n <=? 32))
   || (n =? 133) || (n =? 160))%nat.

(** [s.lstrip()] *)
Fixpoint lstrip (s : string) : string :=
  match s with
  | EmptyString => EmptyString
  | String c r => if is_space c then lstrip r else s
  end.

(** [s.rstrip()]: the text up to its last character that is not a space. *)
Fixpoint rstrip (s : string) : string :=
  match s with
  | EmptyString => EmptyString
  | String c r =>
      match rstrip r with
      | EmptyString => if is_space c then EmptyString else String c EmptyString
      | r' => String c r'
      end
  end.

(** [s.strip()] *)
Definition strip (s : string) : string := rstrip (lstrip s).

(** [sep.join(l)] *)
Fixpoint join (sep : string) (l : list string) : string :=
  match l with
  | [] => EmptyString
  | [x] => x
  | x :: r => x ++ sep ++ join sep r
  end.

Fixpoint string_forallb (p : ascii -> bool) (s : string) : bool :=
  match s with
  | EmptyString => true
  | String c r => p c && string_forallb p r
  end.

(** [' ' * n] *)
Fixpoint spaces (n : nat) : string :=
  match n with
  | O => EmptyString
  | S k => String " " (spaces k)
  end.

(** [int.__repr__] *)
Definition str_of_Z (z : Z) : string := NilZero.string_of_int (Z.to_int z).

(* ===================================================================== *)
(** ** The text of a symbols argument *)
(* ===================================================================== *)

(** The characters of a symbols argument.  [str.upper] takes two characters
    of Latin-1 out of Latin-1: the micro sign U+00B5 to the Greek capital mu
    U+039C, and the y with diaeresis U+00FF to its capital U+0178.  The
    alphabet is Latin-1 with these two capitals; [split], [strip] and [upper]
    do not leave it. *)
Inductive pychar : Type :=
| Latin1 (c : ascii)
| CapitalMu
| CapitalYDiaeresis.

(** A text over these characters. *)
Abbreviation pytext := (list pychar).

(** The character of the code point [n], below U+0100. *)
Definition latin1 (n : nat) : pychar := Latin1 (ascii_of_nat n).

(** A text of Latin-1, from a literal. *)
Definition text_of_string (s : string) : pytext :=
  map Latin1 (list_ascii_of_string s).

Definition char_eqb (a b : pychar) : bool :=
  match a, b with
  | Latin1 x, Latin1 y => Ascii.eqb x y
  | CapitalMu, CapitalMu => true
  | CapitalYDiaeresis, CapitalYDiaeresis => true
  | _, _ => false
  end.

(** [c.isspace()]: neither capital outside Latin-1 is a space. *)
Definition isspace (c : pychar) : bool :=
  match c with
  | Latin1 a => is_space a
  | _ => false
  end.

(** The letters of Latin-1 whose capital is one character of Latin-1, each
    with its capital (the simple upper case mapping of the Unicode database,
    below U+0100). *)
Definition capitals : list (ascii * ascii) :=
  [("a", "A"); ("b", "B"); ("c", "C"); ("d", "D"); ("e", "E"); ("f", "F");
   ("g", "G"); ("h", "H"); ("i", "I"); ("j", "J"); ("k", "K"); ("l", "L");
   ("m", "M"); ("n", "N"); ("o", "O"); ("p", "P"); ("q", "Q"); ("r", "R");
   ("s", "S"); ("t", "T"); ("u", "U"); ("v", "V"); ("w", "W"); ("x", "X");
   ("y", "Y"); ("z", "Z"); ("224", "192"); ("225", "193"); ("226", "194");
   ("227", "195"); ("228", "196"); ("229", "197"); ("230", "198");
   ("231", "199"); ("232", "200"); ("233", "201"); ("234", "202");
   ("235", "203"); ("236", "204"); ("237", "205"); ("238", "206");
   ("239", "207"); ("240", "208"); ("241", "209"); ("242", "210");
   ("243", "211"); ("244", "212"); ("245", "213"); ("246", "214");
   ("248", "216"); ("249", "217"); ("250", "218"); ("251", "219");
   ("252", "220"); ("253", "221"); ("254", "222")]%char.

Fixpoint capital_of (a : ascii) (table : list (ascii * ascii)) : option ascii :=
  match table with
  | [] => None
  | (small, capital) :: r =>
      if Ascii.eqb a small then Some capital else capital_of a r
  end.

(** The capital of such a letter; every other character is given back. *)
Definition upper_latin1 (a : ascii) : ascii :=
  match capital_of a capitals with
  | Some capital => capital
  | None => a
  end.

(** [c.upper()] for one character: the sharp s becomes two letters, the
    micro sign and the y with diaeresis get their capitals outside
    Latin-1. *)
Definition upper_char (c : pychar) : pytext :=
  match c with
  | Latin1 "181" => [CapitalMu]
  | Latin1 "223" => [Latin1 "S"; Latin1 "S"]
  | Latin1 "255" => [CapitalYDiaeresis]
  | Latin1 a => [Latin1 (upper_latin1 a)]
  | CapitalMu => [CapitalMu]
  | CapitalYDiaeresis => [CapitalYDiaeresis]
  end%char.

(** [s.upper()] *)
Definition text_upper (s : pytext) : pytext := flat_map upper_char s.

(** [s.lstrip()] *)
Fixpoint text_lstrip (s : pytext) : pytext :=
  match s with
  | [] => []
  | c :: r => if isspace c then text_lstrip r else s
  end.

(** [s.rstrip()]: the text up to its last character that is not a space. *)
Fixpoint text_rstrip (s : pytext) : pytext :=
  match s with
  | [] => []
  | c :: r =>
      match text_rstrip r with
      | [] => if isspace c then [] else [c]
      | r' => c :: r'
      end
  end.

(** [s.strip()] *)
Definition text_strip (s : pytext) : pytext := text_rstrip (text_lstrip s).

(** [s.split(sep)] for a separator of one character: never an empty list,
    the empty text gives one empty token. *)
Fixpoint text_split (sep : pychar) (s : pytext) : list pytext :=
  match s with
  | [] => [[]]
  | c :: r =>
      if char_eqb c sep then [] :: text_split sep r
      else match text_split sep r with
           | tok :: toks => (c :: tok) :: toks
           | [] => [[c]]
           end
  end.

(** [sep.join(l)] *)
Fixpoint text_join (sep : pytext) (l : list pytext) : pytext :=
  match l with
  | [] => []
  | [x] => x
  | x :: r => (x ++ sep ++ text_join sep r)%list
  end.

(** Case analysis on a character. *)
Ltac each_char c :=
  destruct c as [[[|] [|] [|] [|] [|] [|] [|] [|]]| |].

(** The symbols argument of every tool:
    [[s.strip().upper() for s in symbols.split(',')]]. *)
Definition ticker_list (symbols : pytext) : list pytext :=
  map (fun s => text_upper (text_strip s)) (text_split (Latin1 ",") symbols).

(* ===================================================================== *)
(** ** Exceptions *)
(* ===================================================================== *)

Inductive exn : Type :=
| ValueError (msg : string)
| TypeError (msg : string).

(** [str(e)] *)
Definition exn_str (e : exn) : string :=
  match e with
  | ValueError m => m
  | TypeError m => m
  end.

Inductive result (A : Type) : Type :=
| Return (a : A)
| Raise (e : exn).

Arguments Return {A} a.
Arguments Raise {A} e.

Definition bind {A B : Type} (m : result A) (f : A -> result B) : result B :=
  match m with
  | Return a => f a
  | Raise e => Raise e
  end.

Notation "x <- m ;; k" := (bind m (fun x => k))
  (at level 61, m at next level, right associativity).

(** [try: body  except Exception as e: handler(e)] *)
Definition try_except {A : Type} (body : result A) (handler : exn -> A) : A :=
  match body with
  | Return a => a
  | Raise e => handler e
  end.

(** A comprehension whose element expression can raise: left to right, the
    first exception ends it. *)
Fixpoint mapM {A B : Type} (f : A -> result B) (l : list A) : result (list B) :=
  match l with
  | [] => Return []
  | x :: r => y <- f x ;; ys <- mapM f r ;; Return (y :: ys)
  end.

(* ===================================================================== *)
(** ** Values *)
(* ===================================================================== *)

(** The classes of the labels that are objects: a pandas [Timestamp] and a
    [datetime.date], the dates of an index. *)
Inductive label_class : Type :=
| Timestamp
| Date.

(** [type(k).__name__] *)
Definition label_class_name (c : label_class) : string :=
  match c with
  | Timestamp => "Timestamp"
  | Date => "date"
  end.

(** A hashable label: a dict key, a column label, an index name or an index
    value.  It is a [str], an [int], an object of one of the classes above,
    known by its [str()], or a tuple of labels (a key of a series under a
    [MultiIndex]), known by its [str()] and its elements.  No label is a
    [float], a [bool] or [None]. *)
Inductive pykey : Type :=
| KStr (s : string)
| KInt (z : Z)
| KObj (cls : label_class) (text : string)
| KTuple (text : string) (items : list pykey).

Definition label_class_eqb (a b : label_class) : bool :=
  match a, b with
  | Timestamp, Timestamp => true
  | Date, Date => true
  | _, _ => false
  end.

(** [a == b] on labels: labels of different classes are different; two
    objects of a class are the same when their text is the same, two tuples
    when their elements are. *)
Fixpoint key_eqb (a b : pykey) : bool :=
  match a, b with
  | KStr s, KStr t => String.eqb s t
  | KInt x, KInt y => Z.eqb x y
  | KObj c s, KObj d t => label_class_eqb c d && String.eqb s t
  | KTuple s xs, KTuple t ys =>
      String.eqb s t
      && (fix all_eqb (xs ys : list pykey) : bool :=
            match xs, ys with
            | [], [] => true
            | x :: xr, y :: yr => key_eqb x y && all_eqb xr yr
            | _, _ => false
            end) xs ys
  | _, _ => false
  end.

(** [str(k)], as an f-string formats a label. *)
Definition key_str (k : pykey) : string :=
  match k with
  | KStr s => s
  | KInt z => str_of_Z z
  | KObj _ t => t
  | KTuple t _ => t
  end.

(** [bool(k)] *)
Definition key_truthy (k : pykey) : bool :=
  match k with
  | KStr s => negb (String.eqb s EmptyString)
  | KInt z => negb (Z.eqb z 0)
  | KObj _ _ => true
  | KTuple _ items => negb (length items =? 0)%nat
  end.

Inductive pyfloat : Type :=
| FNaN
| FInf (negative : bool)
| FFinite (repr : string).

(** The values that are no container.  [SNaT] is [pandas.NaT]; [SObj] is any
    other object (a date, a Timestamp), known by its class name and its
    [str()]. *)
Inductive scalar : Type :=
| SNone
| SBool (b : bool)
| SInt (z : Z)
| SFloat (f : pyfloat)
| SStr (s : string)
| SNaT
| SObj (cls : string) (text : string).

(** Plain Python data: what a table cell holds and what the normalizer
    returns. *)
Inductive pyval : Type :=
| PScalar (s : scalar)
| PList (l : list pyval)
| PTuple (l : list pyval)
| PDict (d : list (pykey * pyval)).

Coercion PScalar : scalar >-> pyval.

(** A label as the value of a cell: what a column made of index values
    holds. *)
Fixpoint val_of_key (k : pykey) : pyval :=
  match k with
  | KStr s => PScalar (SStr s)
  | KInt z => PScalar (SInt z)
  | KObj c t => PScalar (SObj (label_class_name c) t)
  | KTuple _ items => PTuple (map val_of_key items)
  end.

(** *** dict *)

Section Dict.
Context {V : Type}.

(** [d.get(k)] *)
Fixpoint dict_get (d : list (pykey * V)) (k : pykey) : option V :=
  match d with
  | [] => None
  | (k', v) :: r => if key_eqb k' k then Some v else dict_get r k
  end.

(** [k in d] *)
Definition dict_mem (d : list (pykey * V)) (k : pykey) : bool :=
  match dict_get d k with Some _ => true | None => false end.

(** [d[k] = v]: a key already there keeps its place. *)
Fixpoint dict_set (d : list (pykey * V)) (k : pykey) (v : V)
  : list (pykey * V) :=
  match d with
  | [] => [(k, v)]
  | (k', v') :: r =>
      if key_eqb k' k then (k', v) :: r else (k', v') :: dict_set r k v
  end.

(** [dict(pairs)]: the pairs inserted from left to right. *)
Definition dict_of_items (items : list (pykey * V)) : list (pykey * V) :=
  fold_left (fun d kv => dict_set d (fst kv) (snd kv)) items [].

Definition dict_keys (d : list (pykey * V)) : list pykey := map fst d.
End Dict.

(** [k in l] for a list of labels *)
Definition key_in (k : pykey) (l : list pykey) : bool := existsb (key_eqb k) l.

(* ===================================================================== *)
(** ** pandas tables *)
(* ===================================================================== *)

(** The index of a table: a [RangeIndex] (positions, not stored), a one-level
    index with its values, or a [MultiIndex] given level by level (a name and
    one value per row). *)
Inductive Index : Type :=
| RangeIndex (start step : Z) (name : option pykey)
| PlainIndex (name : option pykey) (values : list pykey)
| MultiIndex (levels : list (option pykey * list pykey)).

(** A [DataFrame]: the labels of its columns, and its rows in order, one
    cell per column. *)
Record DataFrame : Type := mkFrame {
  df_index : Index;
  df_columns : list pykey;
  df_rows : list (list pyval)
}.

(** What the tools hand to the normalizer: tables and series, possibly inside
    dicts, lists and tuples, or a scalar.  A [Series] is its (index value,
    value) pairs in order. *)
Inductive data : Type :=
| DFrame (df : DataFrame)
| DSeries (items : list (pykey * pyval))
| DDict (d : list (pykey * data))
| DList (l : list data)
| DTuple (l : list data)
| DScalar (s : scalar).

(** Plain data seen as an input of the normalizer. *)
Fixpoint inject (v : pyval) : data :=
  match v with
  | PScalar s => DScalar s
  | PList l => DList (map inject l)
  | PTuple l => DTuple (map inject l)
  | PDict d => DDict (map (fun kv => (fst kv, inject (snd kv))) d)
  end.

(** [data.index.name]; a [MultiIndex] has none. *)
Definition index_name (i : Index) : option pykey :=
  match i with
  | RangeIndex _ _ n => n
  | PlainIndex n _ => n
  | MultiIndex _ => None
  end.

(** [isinstance(data.index, pd.RangeIndex)] *)
Definition is_range_index (i : Index) : bool :=
  match i with
  | RangeIndex _ _ _ => true
  | _ => false
  end.

(** The truth value of [data.index.name]. *)
Definition name_truthy (n : option pykey) : bool :=
  match n with
  | None => false
  | Some k => key_truthy k
  end.

(** The first [n] values of a [RangeIndex]. *)
Fixpoint range_values (start step : Z) (n : nat) : list pykey :=
  match n with
  | O => []
  | S k => KInt start :: range_values (start + step) step k
  end.

(** [com.fill_missing_names]: an unnamed level [i] is called [level_i]. *)
Fixpoint fill_missing_names (i : nat) (names : list (option pykey))
  : list pykey :=
  match names with
  | [] => []
  | None :: r =>
      KStr ("level_" ++ str_of_Z (Z.of_nat i)) :: fill_missing_names (S i) r
  | Some n :: r => n :: fill_missing_names (S i) r
  end.

(** The levels that [reset_index] turns into columns, each with the name its
    column gets: [Index._get_default_index_names] with the default ["index"],
    or ["level_0"] when the table has a column ["index"]. *)
Definition index_levels (df : DataFrame) : list (pykey * list pykey) :=
  let default :=
    if key_in (KStr "index") (df_columns df) then KStr "level_0"
    else KStr "index" in
  let named (n : option pykey) :=
    match n with None => default | Some k => k end in
  match df_index df with
  | RangeIndex start step n =>
      [(named n, range_values start step (length (df_rows df)))]
  | PlainIndex n values => [(named n, values)]
  | MultiIndex levels =>
      combine (fill_missing_names 0 (map fst levels)) (map snd levels)
  end.

(** [zip] of a column with the rows, the value put in front of each row. *)
Fixpoint cons_column (values : list pyval) (rows : list (list pyval))
  : list (list pyval) :=
  match values, rows with
  | v :: vs, r :: rs => (v :: r) :: cons_column vs rs
  | _, _ => []
  end.

(** [df.insert(0, name, values)]: refuses a label that is already a column. *)
Definition insert_front (name : pykey) (values : list pykey)
           (cols : list pykey) (rows : list (list pyval))
  : result (list pykey * list (list pyval)) :=
  if key_in name cols then
    Raise (ValueError ("cannot insert " ++ key_str name ++ ", already exists"))
  else Return (name :: cols, cons_column (map val_of_key values) rows).

(** The loop of [reset_index]: the levels are inserted at position 0 from the
    last to the first. *)
Fixpoint insert_levels (levels : list (pykey * list pykey))
         (cols : list pykey) (rows : list (list pyval))
  : result (list pykey * list (list pyval)) :=
  match levels with
  | [] => Return (cols, rows)
  | (name, values) :: r =>
      cr <- insert_levels r cols rows ;;
      insert_front name values (fst cr) (snd cr)
  end.

(** [df.reset_index()]: the index levels become the first columns and the
    index a fresh unnamed [RangeIndex]. *)
Definition reset_index (df : DataFrame) : result DataFrame :=
  cr <- insert_levels (index_levels df) (df_columns df) (df_rows df) ;;
  Return (mkFrame (RangeIndex 0 1 None) (fst cr) (snd cr)).

(** [df.to_dict(orient='records')]: one [dict(zip(columns, row))] per row. *)
Definition to_dict_records (df : DataFrame) : list (list (pykey * pyval)) :=
  map (fun row => dict_of_items (combine (df_columns df) row)) (df_rows df).

(** [series.to_dict()] *)
Definition series_to_dict (items : list (pykey * pyval))
  : list (pykey * pyval) :=
  dict_of_items items.

(* ===================================================================== *)
(** ** The normalizer *)
(* ===================================================================== *)

(** [pd.isna] on a scalar: [None], not-a-number and [NaT] are missing, every
    other scalar or object is not. *)
Definition isna (s : scalar) : bool :=
  match s with
  | SNone => true
  | SFloat FNaN => true
  | SNaT => true
  | _ => false
  end.

(** [convert_to_json_serializable] *)
Fixpoint convert_to_json_serializable (d : data) : result pyval :=
  match d with
  | DFrame df =>
      df' <- (if name_truthy (index_name (df_index df))
                 || negb (is_range_index (df_index df))
              then reset_index df else Return df) ;;
      Return (PList (map PDict (to_dict_records df')))
  | DSeries items => Return (PDict (series_to_dict items))
  | DDict items =>
      items' <- mapM (fun kv => v <- convert_to_json_serializable (snd kv) ;;
                                Return (fst kv, v)) items ;;
      Return (PDict items')
  | DList l =>
      l' <- mapM convert_to_json_serializable l ;; Return (PList l')
  | DTuple l =>
      l' <- mapM convert_to_json_serializable l ;; Return (PList l')
  | DScalar s =>
      if isna s then Return (PScalar SNone) else Return (PScalar s)
  end.

(* ===================================================================== *)
(** ** json.dumps(obj, indent=2) *)
(* ===================================================================== *)

Definition nl : string := String "010" EmptyString.

(** The double quote. *)
Definition dquote : ascii := "034"%char.

Definition hex_digit (n : nat) : ascii :=
  match n with
  | 0 => "0" | 1 => "1" | 2 => "2" | 3 => "3" | 4 => "4" | 5 => "5"
  | 6 => "6" | 7 => "7" | 8 => "8" | 9 => "9" | 10 => "a" | 11 => "b"
  | 12 => "c" | 13 => "d" | 14 => "e" | _ => "f"
  end%char.

(** ['\\u{0:04x}'.format(n)] for a code point below U+0100 *)
Definition escape_u (n : nat) : string :=
  String "\" (String "u" (String "0" (String "0"
    (String (hex_digit (n / 16)) (String (hex_digit (n mod 16)) EmptyString))))).

(** The replacement of one character in [py_encode_basestring_ascii]: the
    quote, the backslash and everything outside [' '..'~'] are escaped. *)
Definition escape_char (c : ascii) : string :=
  let n := code c in
  if (n =? 34)%nat then String "\" (String dquote EmptyString)
  else if (n =? 92)%nat then String "\" (String "\" EmptyString)
  else if (n =? 8)%nat then String "\" (String "b" EmptyString)
  else if (n =? 12)%nat then String "\" (String "f" EmptyString)
  else if (n =? 10)%nat then String "\" (String "n" EmptyString)
  else if (n =? 13)%nat then String "\" (String "r" EmptyString)
  else if (n =? 9)%nat then String "\" (String "t" EmptyString)
  else if ((n <? 32) || (126 <? n))%nat then escape_u n
  else String c EmptyString.

Fixpoint escape_string (s : string) : string :=
  match s with
  | EmptyString => EmptyString
  | String c r => escape_char c ++ escape_string r
  end.

(** [py_encode_basestring_ascii] *)
Definition encode_string (s : string) : string :=
  String dquote (escape_string s ++ String dquote EmptyString).

(** [float.__repr__], with the names [json] gives the values that are no
    number. *)
Definition floatstr (f : pyfloat) : string :=
  match f with
  | FNaN => "NaN"
  | FInf false => "Infinity"
  | FInf true => "-Infinity"
  | FFinite r => r
  end.

(** [type(o).__name__] of the scalars [json] does not know. *)
Definition class_name (s : scalar) : string :=
  match s with
  | SNone => "NoneType"
  | SBool _ => "bool"
  | SInt _ => "int"
  | SFloat _ => "float"
  | SStr _ => "str"
  | SNaT => "NaTType"
  | SObj c _ => c
  end.

(** [str(o)] of the scalars [json] does not know. *)
Definition obj_str (s : scalar) : string :=
  match s with
  | SNaT => "NaT"
  | SObj _ t => t
  | _ => EmptyString
  end.

(** One scalar; [default_str] says whether [default=str] was passed. *)
Definition encode_scalar (default_str : bool) (s : scalar) : result string :=
  match s with
  | SNone => Return "null"
  | SBool true => Return "true"
  | SBool false => Return "false"
  | SInt z => Return (str_of_Z z)
  | SFloat f => Return (floatstr f)
  | SStr t => Return (encode_string t)
  | SNaT | SObj _ _ =>
      if default_str then Return (encode_string (obj_str s))
      else Raise (TypeError ("Object of type " ++ class_name s
                             ++ " is not JSON serializable"))
  end.

(** [type(k).__name__] *)
Definition key_class_name (k : pykey) : string :=
  match k with
  | KStr _ => "str"
  | KInt _ => "int"
  | KObj c _ => label_class_name c
  | KTuple _ _ => "tuple"
  end.

(** A key of a dict: a [str] as it is, an [int] by its digits; a label of
    another class is refused.  (The keys that [json] writes as text besides,
    [float], [bool] and [None], are no labels of the model.) *)
Definition encode_key (k : pykey) : result string :=
  match k with
  | KStr s => Return (encode_string s)
  | KInt z => Return (encode_string (str_of_Z z))
  | _ =>
      Raise (TypeError ("keys must be str, int, float, bool or None, not "
                        ++ key_class_name k))
  end.

(** ['\n' + indent * level] with [indent = 2] *)
Definition newline_indent (lvl : nat) : string := nl ++ spaces (2 * lvl).

(** A list or dict at nesting level [lvl], its encoded members given. *)
Definition bracket (opening closing : string) (lvl : nat)
           (chunks : list string) : string :=
  match chunks with
  | [] => opening ++ closing
  | _ => opening ++ newline_indent (S lvl)
         ++ join ("," ++ newline_indent (S lvl)) chunks
         ++ newline_indent lvl ++ closing
  end.

(** [_iterencode] at indentation level [lvl], its chunks joined. *)
Fixpoint encode (default_str : bool) (lvl : nat) (v : pyval) : result string :=
  match v with
  | PScalar s => encode_scalar default_str s
  | PList l =>
      chunks <- mapM (encode default_str (S lvl)) l ;;
      Return (bracket "[" "]" lvl chunks)
  | PTuple l =>
      chunks <- mapM (encode default_str (S lvl)) l ;;
      Return (bracket "[" "]" lvl chunks)
  | PDict d =>
      chunks <- mapM (fun kv => k <- encode_key (fst kv) ;;
                                e <- encode default_str (S lvl) (snd kv) ;;
                                Return (k ++ ": " ++ e)) d ;;
      Return (bracket "{" "}" lvl chunks)
  end.

(** [json.dumps(v, indent=2, default=str)] or, without [default_str],
    [json.dumps(v, indent=2)]. *)
Definition json_dumps (default_str : bool) (v : pyval) : result string :=
  encode default_str 0 v.

(* ===================================================================== *)
(** ** format_response *)
(* ===================================================================== *)

(** [json_data is None or (isinstance(json_data, list) and len(json_data) == 0)] *)
Definition no_data (json_data : pyval) : bool :=
  match json_data with
  | PScalar SNone => true
  | PList [] => true
  | _ => false
  end.

(** The [try] block of [format_response]. *)
Definition format_response_try (d : data) (title : string) : result string :=
  json_data <- convert_to_json_serializable d ;;
  if no_data json_data then Return (title ++ ": No data available")
  else text <- json_dumps true json_data ;;
       Return (title ++ ":" ++ nl ++ text).

(** [format_response] *)
Definition format_response (d : data) (title : string) : string :=
  try_except (format_response_try d title)
             (fun e => title ++ ": Error formatting data - " ++ exn_str e).

(* ===================================================================== *)
(** ** Dates *)
(* ===================================================================== *)

(** A date is its proleptic Gregorian ordinal ([date.toordinal()]: day 1 is
    0001-01-01).  [ord2ymd] is [datetime._ord2ymd], by which a date is made
    from an ordinal. *)
Definition days_before_month (month : Z) : Z :=
  match month with
  | 1 => 0 | 2 => 31 | 3 => 59 | 4 => 90 | 5 => 120 | 6 => 151 | 7 => 181
  | 8 => 212 | 9 => 243 | 10 => 273 | 11 => 304 | 12 => 334 | _ => -1
  end%Z.

Definition days_in_month (month : Z) : Z :=
  match month with
  | 1 => 31 | 2 => 28 | 3 => 31 | 4 => 30 | 5 => 31 | 6 => 30 | 7 => 31
  | 8 => 31 | 9 => 30 | 10 => 31 | 11 => 30 | 12 => 31 | _ => -1
  end%Z.

Definition ord2ymd (ordinal : Z) : Z * Z * Z :=
  let n := (ordinal - 1)%Z in
  let n400 := (n / 146097)%Z in
  let n := (n mod 146097)%Z in
  let year := (n400 * 400 + 1)%Z in
  let n100 := (n / 36524)%Z in
  let n := (n mod 36524)%Z in
  let n4 := (n / 1461)%Z in
  let n := (n mod 1461)%Z in
  let n1 := (n / 365)%Z in
  let n := (n mod 365)%Z in
  let year := (year + n100 * 100 + n4 * 4 + n1)%Z in
  if ((n1 =? 4) || (n100 =? 4))%Z then ((year - 1)%Z, 12%Z, 31%Z)
  else
    let leapyear := ((n1 =? 3) && (negb (n4 =? 24) || (n100 =? 3)))%Z in
    let month := Z.shiftr (n + 50) 5 in
    let preceding :=
      (days_before_month month
       + (if (2 <? month)%Z && leapyear then 1 else 0))%Z in
    if (n <? preceding)%Z then
      let month := (month - 1)%Z in
      let preceding :=
        (preceding - (days_in_month month
                      + (if (month =? 2)%Z && leapyear then 1 else 0)))%Z in
      (year, month, (n - preceding + 1)%Z)
    else (year, month, (n - preceding + 1)%Z).

(** [datetime._is_leap] *)
Definition is_leap (year : Z) : bool :=
  ((year mod 4 =? 0)
   && (negb (year mod 100 =? 0) || (year mod 400 =? 0)))%Z.

(** [datetime._days_before_year]: the number of days before January 1st of
    [year]. *)
Definition days_before_year (year : Z) : Z :=
  let y := (year - 1)%Z in
  (y * 365 + y / 4 - y / 100 + y / 400)%Z.

(** [datetime._ymd2ord]: the ordinal of a date ([date.toordinal()]), by which
    [today - timedelta(days=365)] goes. *)
Definition ymd2ord (year month day : Z) : Z :=
  (days_before_year year
   + (days_before_month month
      + (if (2 <? month)%Z && is_leap year then 1 else 0))
   + day)%Z.

(** The tables and tests of the calendar, at a given month. *)
Ltac table_values :=
  repeat match goal with
         | |- context [days_before_month ?c] =>
             let v := eval vm_compute in (days_before_month c) in
             change (days_before_month c) with v
         | |- context [days_in_month ?c] =>
             let v := eval vm_compute in (days_in_month c) in
             change (days_in_month c) with v
         | |- context [(2 <? ?c)%Z] =>
             let v := eval vm_compute in (2 <? c)%Z in
             change (2 <? c)%Z with v
         | |- context [(?c =? 2)%Z] =>
             let v := eval vm_compute in (c =? 2)%Z in
             change (c =? 2)%Z with v
         end;
  cbn [andb].

Fixpoint zeros (k : nat) : string :=
  match k with
  | O => EmptyString
  | S j => String "0" (zeros j)
  end.

(** [n] written with at least [width] digits, zeros in front. *)
Definition zero_pad (width : nat) (n : Z) : string :=
  let digits := str_of_Z n in
  zeros (width - String.length digits) ++ digits.

(** [d.strftime('%Y-%m-%d')]: the year with four digits.  (The C library
    decides how a year before 1000 is written; the statements on this text
    are for the years from 1201 on.) *)
Definition strftime_ymd (ordinal : Z) : string :=
  let '(y, m, d) := ord2ymd ordinal in
  zero_pad 4 y ++ "-" ++ zero_pad 2 m ++ "-" ++ zero_pad 2 d.

(* ===================================================================== *)
(** ** get_historical_prices: the query parameters *)
(* ===================================================================== *)

(** The truth value of an [Optional[str]] argument: [None] and the empty
    text are false. *)
Definition provided (arg : option string) : bool :=
  match arg with
  | None => false
  | Some s => negb (String.eqb s EmptyString)
  end.

Definition arg_text (arg : option string) : string :=
  match arg with
  | None => EmptyString
  | Some s => s
  end.

(** The clock: [clock k] is the date that the [k]-th call of
    [datetime.today()] within one request reads. *)
Definition clock : Type := nat -> Z.

(** The parameters that [get_historical_prices] passes to
    [tickers.history] as keyword arguments. *)
Definition history_params (today : clock)
           (period start_date end_date : option string) (interval : string)
  : list (pykey * pyval) :=
  let params : list (pykey * pyval) :=
    [(KStr "interval", PScalar (SStr interval));
     (KStr "adj_timezone", PScalar (SBool true));
     (KStr "adj_ohlc", PScalar (SBool false))] in
  if provided period && negb (provided start_date || provided end_date) then
    dict_set params (KStr "period") (PScalar (SStr (arg_text period)))
  else
    let '(end_date, reads) :=
      if negb (provided end_date) then (strftime_ymd (today 0%nat), 1%nat)
      else (arg_text end_date, 0%nat) in
    let start_date :=
      if negb (provided start_date) then strftime_ymd (today reads - 365)
      else arg_text start_date in
    dict_set (dict_set params (KStr "start") (PScalar (SStr start_date)))
             (KStr "end") (PScalar (SStr end_date)).

(* ===================================================================== *)
(** ** search_symbols *)
(* ===================================================================== *)

(** [d.get(k, default)] *)
Definition dict_get_default (d : list (pykey * pyval)) (k : pykey)
           (default : pyval) : pyval :=
  match dict_get d k with
  | Some v => v
  | None => default
  end.

(** The entry made of one quote. *)
Definition format_quote (quote : list (pykey * pyval)) : list (pykey * pyval) :=
  [(KStr "symbol", dict_get_default quote (KStr "symbol") (SStr EmptyString));
   (KStr "name",
    dict_get_default quote (KStr "longname")
      (dict_get_default quote (KStr "shortname") (SStr EmptyString)));
   (KStr "type", dict_get_default quote (KStr "quoteType") (SStr EmptyString));
   (KStr "exchange", dict_get_default quote (KStr "exchange") (SStr EmptyString))].

(** The loop [for quote in quotes[:10]: ... formatted_results.append(result)] *)
Definition formatted_results (quotes : list (list (pykey * pyval)))
  : list (list (pykey * pyval)) :=
  map format_quote (firstn 10 quotes).

(** [search_symbols].  [results] is what [search(query)] gives: it raises, or
    returns the decoded response, of which the model keeps the list under
    ['quotes'] when the response has that key. *)
Definition search_symbols_try (query : string)
           (results : result (option (list (list (pykey * pyval)))))
  : result string :=
  r <- results ;;
  match r with
  | Some quotes =>
      text <- json_dumps false (PList (map PDict (formatted_results quotes))) ;;
      Return ("Search Results for '" ++ query ++ "':" ++ nl ++ text)
  | None => Return ("No results found for '" ++ query ++ "'")
  end.

Definition search_symbols (query : string)
           (results : result (option (list (list (pykey * pyval))))) : string :=
  try_except (search_symbols_try query results)
             (fun e => "Error searching symbols: " ++ exn_str e).

(* ===================================================================== *)
(** ** json.loads *)
(* ===================================================================== *)

(** The decoder of the [json] module ([json.decoder], [json.scanner]), on
    which the round trip of a response is stated.  [None] is a
    [JSONDecodeError]. *)

(** [WHITESPACE]: blank, tab, newline, carriage return. *)
Definition is_ws (c : ascii) : bool :=
  let n := code c in
  ((n =? 32) || (n =? 9) || (n =? 10) || (n =? 13))%nat.

Fixpoint skip_ws (s : string) : string :=
  match s with
  | EmptyString => EmptyString
  | String c r => if is_ws c then skip_ws r else s
  end.

Definition is_digit (c : ascii) : bool :=
  let n := code c in ((48 <=? n) && (n <=? 57))%nat.

(** The value of a hexadecimal digit, in either case. *)
Definition hex_value (c : ascii) : option nat :=
  let n := code c in
  if ((48 <=? n) && (n <=? 57))%nat then Some (n - 48)%nat
  else if ((97 <=? n) && (n <=? 102))%nat then Some (n - 87)%nat
  else if ((65 <=? n) && (n <=? 70))%nat then Some (n - 55)%nat
  else None.

(** [_decode_uXXXX] *)
Definition decode_uXXXX (a b c d : ascii) : option nat :=
  match hex_value a, hex_value b, hex_value c, hex_value d with
  | Some x, Some y, Some z, Some w =>
      Some (((x * 16 + y) * 16 + z) * 16 + w)%nat
  | _, _, _, _ => None
  end.

(** The table [BACKSLASH] of the escapes of one letter. *)
Definition unescape (e : ascii) : option ascii :=
  let n := code e in
  if (n =? 34)%nat then Some dquote
  else if (n =? 92)%nat then Some "\"%char
  else if (n =? 47)%nat then Some "/"%char
  else if (n =? 98)%nat then Some "008"%char
  else if (n =? 102)%nat then Some "012"%char
  else if (n =? 110)%nat then Some "010"%char
  else if (n =? 114)%nat then Some "013"%char
  else if (n =? 116)%nat then Some "009"%char
  else None.

Definition cons_char (c : ascii) (r : option (string * string))
  : option (string * string) :=
  match r with
  | Some (t, rest) => Some (String c t, rest)
  | None => None
  end.

(** [py_scanstring] in strict mode, from just after the opening quote: the
    text up to the closing quote, and what follows it.  An escape of a code
    point from U+0100 on has no text in this model and is refused. *)
Fixpoint scanstring (s : string) : option (string * string) :=
  match s with
  | EmptyString => None
  | String c r =>
      if Ascii.eqb c dquote then Some (EmptyString, r)
      else if Ascii.eqb c "\" then
        match r with
        | EmptyString => None
        | String e r1 =>
            if Ascii.eqb e "u" then
              match r1 with
              | String h1 (String h2 (String h3 (String h4 r2))) =>
                  match decode_uXXXX h1 h2 h3 h4 with
                  | Some n =>
                      if (n <? 256)%nat
                      then cons_char (ascii_of_nat n) (scanstring r2)
                      else None
                  | None => None
                  end
              | _ => None
              end
            else
              match unescape e with
              | Some ch => cons_char ch (scanstring r1)
              | None => None
              end
        end
      else if (code c <? 32)%nat then None
      else cons_char c (scanstring r)
  end.

(** The longest run of digits in front of a text, and the rest. *)
Fixpoint span_digits (s : string) : string * string :=
  match s with
  | EmptyString => (EmptyString, EmptyString)
  | String c r =>
      if is_digit c then
        let '(ds, rest) := span_digits r in (String c ds, rest)
      else (EmptyString, s)
  end.

(** The integer part of [NUMBER_RE]: an optional minus sign, then a lone zero
    or a digit other than zero followed by digits. *)
Definition scan_integer (s : string) : option (string * string) :=
  let '(sign, s1) :=
    match s with
    | String c r => if Ascii.eqb c "-" then ("-", r) else (EmptyString, s)
    | EmptyString => (EmptyString, s)
    end in
  match s1 with
  | EmptyString => None
  | String c r =>
      if Ascii.eqb c "0" then Some (sign ++ "0", r)
      else if is_digit c then
        let '(ds, rest) := span_digits r in Some (sign ++ String c ds, rest)
      else None
  end.

(** The fraction of [NUMBER_RE], a dot and one digit or more; empty when
    there is none. *)
Definition scan_frac (s : string) : string * string :=
  match s with
  | String c r =>
      if Ascii.eqb c "." then
        match span_digits r with
        | (EmptyString, _) => (EmptyString, s)
        | (ds, rest) => (String c ds, rest)
        end
      else (EmptyString, s)
  | EmptyString => (EmptyString, s)
  end.

(** The exponent of [NUMBER_RE], the letter e in either case, an optional
    sign and one digit or more; empty when there is none. *)
Definition scan_exp (s : string) : string * string :=
  match s with
  | String c r =>
      if Ascii.eqb c "e" || Ascii.eqb c "E" then
        let '(sign, r1) :=
          match r with
          | String g r' =>
              if Ascii.eqb g "-" || Ascii.eqb g "+"
              then (String g EmptyString, r') else (EmptyString, r)
          | EmptyString => (EmptyString, r)
          end in
        match span_digits r1 with
        | (EmptyString, _) => (EmptyString, s)
        | (ds, rest) => (String c (sign ++ ds), rest)
        end
      else (EmptyString, s)
  | EmptyString => (EmptyString, s)
  end.

(** [int(text)] for the integer part of a number. *)
Definition parse_int (text : string) : Z :=
  match NilEmpty.int_of_string text with
  | Some d => Z.of_int d
  | None => 0%Z
  end.

(** [float(text)]: the float that a float's [repr] stands for. *)
Definition parse_float (text : string) : pyfloat := FFinite text.

(** [match_number] and the choice between [parse_int] and [parse_float]. *)
Definition scan_number (s : string) : option (scalar * string) :=
  match scan_integer s with
  | None => None
  | Some (integer, r) =>
      let '(frac, r1) := scan_frac r in
      let '(exp, r2) := scan_exp r1 in
      match frac, exp with
      | EmptyString, EmptyString => Some (SInt (parse_int integer), r2)
      | _, _ => Some (SFloat (parse_float (integer ++ frac ++ exp)), r2)
      end
  end.

(** [s[idx:idx+len(word)] == word], with what follows the word. *)
Fixpoint starts_with (word s : string) : option string :=
  match word, s with
  | EmptyString, _ => Some s
  | String a w, String b r => if Ascii.eqb a b then starts_with w r else None
  | String _ _, EmptyString => None
  end.

(** The scalars of [_scan_once] that are neither text nor containers, in its
    order: the three names, a number, then the names of the values that are
    no number. *)
Definition scan_literal (s : string) : option (pyval * string) :=
  match starts_with "null" s with
  | Some r => Some (PScalar SNone, r)
  | None =>
  match starts_with "true" s with
  | Some r => Some (PScalar (SBool true), r)
  | None =>
  match starts_with "false" s with
  | Some r => Some (PScalar (SBool false), r)
  | None =>
  match scan_number s with
  | Some (x, r) => Some (PScalar x, r)
  | None =>
  match starts_with "NaN" s with
  | Some r => Some (PScalar (SFloat FNaN), r)
  | None =>
  match starts_with "Infinity" s with
  | Some r => Some (PScalar (SFloat (FInf false)), r)
  | None =>
  match starts_with "-Infinity" s with
  | Some r => Some (PScalar (SFloat (FInf true)), r)
  | None => None
  end end end end end end end.

(** [_scan_once], [JSONArray] and [JSONObject].  The recursion of the decoder
    is on the text left; [fuel] bounds it, one unit per value and per member.
    [scan_items] starts at a member of an array, [scan_pairs] just after the
    opening quote of a key. *)
Fixpoint scan_once (fuel : nat) (s : string) : option (pyval * string) :=
  match fuel with
  | O => None
  | S fuel' =>
      match s with
      | EmptyString => None
      | String c r =>
          if Ascii.eqb c dquote then
            match scanstring r with
            | Some (t, rest) => Some (PScalar (SStr t), rest)
            | None => None
            end
          else if Ascii.eqb c "{" then
            match skip_ws r with
            | EmptyString => None
            | String c1 r1 =>
                if Ascii.eqb c1 "}" then Some (PDict [], r1)
                else if Ascii.eqb c1 dquote then
                  match scan_pairs fuel' r1 with
                  | Some (pairs, rest) => Some (PDict (dict_of_items pairs), rest)
                  | None => None
                  end
                else None
            end
          else if Ascii.eqb c "[" then
            match skip_ws r with
            | EmptyString => None
            | String c1 r1 =>
                if Ascii.eqb c1 "]" then Some (PList [], r1)
                else
                  match scan_items fuel' (String c1 r1) with
                  | Some (values, rest) => Some (PList values, rest)
                  | None => None
                  end
            end
          else scan_literal s
      end
  end

with scan_items (fuel : nat) (s : string) : option (list pyval * string) :=
  match fuel with
  | O => None
  | S fuel' =>
      match scan_once fuel' s with
      | None => None
      | Some (value, r) =>
          match skip_ws r with
          | EmptyString => None
          | String c r1 =>
              if Ascii.eqb c "]" then Some ([value], r1)
              else if Ascii.eqb c "," then
                match scan_items fuel' (skip_ws r1) with
                | Some (values, rest) => Some (value :: values, rest)
                | None => None
                end
              else None
          end
      end
  end

with scan_pairs (fuel : nat) (s : string)
  : option (list (pykey * pyval) * string) :=
  match fuel with
  | O => None
  | S fuel' =>
      match scanstring s with
      | None => None
      | Some (key, r) =>
          match skip_ws r with
          | EmptyString => None
          | String c r1 =>
              if Ascii.eqb c ":" then
                match scan_once fuel' (skip_ws r1) with
                | None => None
                | Some (value, r2) =>
                    match skip_ws r2 with
                    | EmptyString => None
                    | String c2 r3 =>
                        if Ascii.eqb c2 "}" then Some ([(KStr key, value)], r3)
                        else if Ascii.eqb c2 "," then
                          match skip_ws r3 with
                          | EmptyString => None
                          | String c3 r4 =>
                              if Ascii.eqb c3 dquote then
                                match scan_pairs fuel' r4 with
                                | Some (pairs, rest) =>
                                    Some ((KStr key, value) :: pairs, rest)
                                | None => None
                                end
                              else None
                          end
                        else None
                    end
                end
              else None
          end
      end
  end.

(** [json.loads(s)]: one value, blanks around it, nothing else.  The fuel is
    enough for every text, a step of the decoder leaving less text. *)
Definition json_loads (s : string) : option pyval :=
  match scan_once (S (String.length s)) (skip_ws s) with
  | Some (v, rest) =>
      match skip_ws rest with
      | EmptyString => Some v
      | String _ _ => None
      end
  | None => None
  end.

(* ===================================================================== *)
(** ** Predicates of the statements *)
(* ===================================================================== *)

Fixpoint keys_distinct (l : list pykey) : bool :=
  match l with
  | [] => true
  | k :: r => negb (key_in k r) && keys_distinct r
  end.

(** A table is well formed when every level of its index has one value per
    row. *)
Definition wf_frame (df : DataFrame) : Prop :=
  match df_index df with
  | RangeIndex _ _ _ => True
  | PlainIndex _ values => length values = length (df_rows df)
  | MultiIndex levels =>
      Forall (fun lv => length (snd lv) = length (df_rows df)) levels
  end.

(** The values that a second pass of the normalizer leaves alone: no missing
    marker other than [None], no tuple. *)
Fixpoint stable (v : pyval) : bool :=
  match v with
  | PScalar s => match s with SNone => true | _ => negb (isna s) end
  | PList l => forallb stable l
  | PTuple _ => false
  | PDict d => forallb (fun kv => stable (snd kv)) d
  end.

(** The inputs without tables and series. *)
Fixpoint no_tables (d : data) : bool :=
  match d with
  | DFrame _ => false
  | DSeries _ => false
  | DDict items => forallb (fun kv => no_tables (snd kv)) items
  | DList l => forallb no_tables l
  | DTuple l => forallb no_tables l
  | DScalar _ => true
  end.

(** A text is the [repr] of a finite float when [json] reads all of it as one
    number with a fraction or an exponent. *)
Definition is_float_repr (r : string) : bool :=
  match scan_number r with
  | Some (SFloat _, EmptyString) => true
  | _ => false
  end.

Definition json_scalar (s : scalar) : bool :=
  match s with
  | SNone => true
  | SBool _ => true
  | SInt _ => true
  | SStr _ => true
  | SFloat (FFinite r) => is_float_repr r
  | _ => false
  end.

Definition is_str_key (k : pykey) : bool :=
  match k with
  | KStr _ => true
  | _ => false
  end.

(** The normalized values that JSON represents: null, booleans, integers,
    finite floats, text, lists of such values, and mappings of such values
    under distinct text keys. *)
Fixpoint json_representable (v : pyval) : bool :=
  match v with
  | PScalar s => json_scalar s
  | PList l => forallb json_representable l
  | PTuple _ => false
  | PDict d =>
      forallb (fun kv => is_str_key (fst kv) && json_representable (snd kv)) d
      && keys_distinct (map fst d)
  end.

(** A date text has the form [YYYY-MM-DD]. *)
Definition is_ymd (s : string) : bool :=
  match list_ascii_of_string s with
  | [ya; yb; yc; yd; ha; ma; mb; hb; da; db] =>
      is_digit ya && is_digit yb && is_digit yc && is_digit yd
      && Ascii.eqb ha "-" && is_digit ma && is_digit mb
      && Ascii.eqb hb "-" && is_digit da && is_digit db
  | _ => false
  end.

(** [f] holds of the [n] integers from [z] on. *)
Fixpoint all_from (f : Z -> bool) (n : nat) (z : Z) : bool :=
  match n with
  | O => true
  | S k => f z && all_from f k (z + 1)
  end.

(** [n], padded to [width], is [width] digits that read as [n]. *)
Definition digits_ok (width : nat) (n : Z) : bool :=
  let text := zero_pad width n in
  (String.length text =? width)%nat && string_forallb is_digit text
  && (parse_int text =? n)%Z.

(** [text] is the date of the given year, month and day in the form
    [YYYY-MM-DD]: four digits, two digits and two digits, with hyphens
    between them, that read as the year, the month and the day. *)
Definition reads_as_date (text : string) (year month day : Z) : Prop :=
  exists ys ms ds,
    text = ys ++ "-" ++ ms ++ "-" ++ ds
    /\ String.length ys = 4%nat /\ String.length ms = 2%nat
    /\ String.length ds = 2%nat
    /\ string_forallb is_digit ys = true
    /\ string_forallb is_digit ms = true
    /\ string_forallb is_digit ds = true
    /\ parse_int ys = year /\ parse_int ms = month /\ parse_int ds = day.

(** What can follow a number in a text that [json.dumps] writes: nothing, or
    a character that is no digit, dot or letter e. *)
Definition delimited (rest : string) : bool :=
  match rest with
  | EmptyString => true
  | String c _ =>
      negb (is_digit c || Ascii.eqb c "." || Ascii.eqb c "e" || Ascii.eqb c "E")
  end.

Definition no_digit_start (rest : string) : bool :=
  match rest with
  | EmptyString => true
  | String c _ => negb (is_digit c)
  end.

(** A text that is empty or starts an exponent. *)
Definition exp_start (r : string) : bool :=
  match r with
  | EmptyString => true
  | String c _ => Ascii.eqb c "e" || Ascii.eqb c "E"
  end.

(** The first character of a number. *)
Definition number_start (c : ascii) : bool := is_digit c || Ascii.eqb c "-".

(** The number of values and members in a value: the fuel that reading its
    text back takes. *)
Definition items_size {A : Type} (f : A -> nat) (l : list A) : nat :=
  fold_right (fun x n => S (f x + n)) 0%nat l.

Fixpoint size (v : pyval) : nat :=
  match v with
  | PScalar _ => 1
  | PList l => S (items_size size l)
  | PTuple l => S (items_size size l)
  | PDict d => S (items_size (fun kv => size (snd kv)) d)
  end.

(** The first character of the text of a value: no blank and no closing
    bracket. *)
Definition value_start (text : string) : bool :=
  match text with
  | EmptyString => false
  | String c _ => negb (is_ws c) && negb (Ascii.eqb c "]")
  end.

(** [text] is what [json.dumps] writes for [v] at nesting level [lvl], and
    the decoder reads [v] back from it, whatever follows that cannot continue
    a number. *)
Definition reads_back (lvl : nat) (v : pyval) (text : string) : Prop :=
  encode true lvl v = Return text
  /\ value_start text = true
  /\ forall fuel rest,
       (size v <= fuel)%nat -> delimited rest = true ->
       scan_once fuel (text ++ rest) = Some (v, rest).

(** The same for a member of a mapping: a text key, a colon and the value. *)
Definition member_reads_back (lvl : nat) (kv : pykey * pyval) (chunk : string)
  : Prop :=
  exists k e,
    fst kv = KStr k
    /\ chunk = encode_string k ++ ": " ++ e
    /\ reads_back lvl (snd kv) e.

(* ===================================================================== *)
(** ** Inputs of the examples *)
(* ===================================================================== *)

(** A table whose index name is also a column: the normalizer raises. *)
Definition clash_frame : DataFrame :=
  mkFrame (PlainIndex (Some (KStr "symbol")) [KStr "AAPL"])
          [KStr "symbol"; KStr "price"]
          [[PScalar (SStr "AAPL"); PScalar (SInt 189)]].

(** A series under a [MultiIndex]: its keys are tuples. *)
Definition tuple_series : data :=
  DSeries [(KTuple "('AAPL', 'price')" [KStr "AAPL"; KStr "price"],
            PScalar (SInt 189))].

(** A table under the default index. *)
Definition plain_frame : DataFrame :=
  mkFrame (RangeIndex 0 1 None) [KStr "symbol"; KStr "price"]
          [[PScalar (SStr "AAPL"); PScalar (SInt 189)];
           [PScalar (SStr "MSFT"); PScalar (SInt 411)]].

(** A table indexed by symbol. *)
Definition symbol_frame : DataFrame :=
  mkFrame (PlainIndex (Some (KStr "symbol")) [KStr "AAPL"; KStr "MSFT"])
          [KStr "price"]
          [[PScalar (SInt 189)]; [PScalar (SInt 411)]].

(** A normalized value with every kind of JSON value in it. *)
Definition quote_value : pyval :=
  PDict [(KStr "symbol", PScalar (SStr "AAPL"));
         (KStr "price", PScalar (SFloat (FFinite "189.5")));
         (KStr "volume", PScalar (SInt 51234567));
         (KStr "change", PScalar (SFloat (FFinite "-1.2e-05")));
         (KStr "halted", PScalar (SBool false));
         (KStr "note", PScalar SNone);
         (KStr "tags", PList [PScalar (SStr "tech"); PList []; PDict []])].

(** A series with a missing value. *)
Definition nan_series : data :=
  DSeries [(KStr "price", PScalar (SFloat FNaN))].

(* ===================================================================== *)
(** ** get_company_profile *)
(* ===================================================================== *)

(** [get_company_profile], from the two attributes read from [Ticker]: each
    is normalized outside any [try], the two values are put in a dict and
    that dict is handed to [format_response]. *)
Definition get_company_profile (asset_profile summary_profile : data)
  : result string :=
  a <- convert_to_json_serializable asset_profile ;;
  s <- convert_to_json_serializable summary_profile ;;
  Return (format_response
            (DDict [(KStr "asset_profile", inject a);
                    (KStr "summary_profile", inject s)])
            "Company Profile").

(* ===================================================================== *)
(** ** get_historical_prices: the response *)
(* ===================================================================== *)

(** [df.empty]: no rows or no columns. *)
Definition frame_empty (df : DataFrame) : bool :=
  (length (df_rows df) =? 0)%nat || (length (df_columns df) =? 0)%nat.

(** Column [j] of the rows. *)
Definition get_column (j : nat) (rows : list (list pyval)) : list pyval :=
  map (fun row => nth j row (PScalar SNone)) rows.

(** [l] with [x] at position [j]. *)
Fixpoint set_nth {A : Type} (j : nat) (x : A) (l : list A) : list A :=
  match l, j with
  | [], _ => []
  | _ :: r, O => x :: r
  | y :: r, S k => y :: set_nth k x r
  end.

(** The rows with the values [vals] in column [j], row by row. *)
Fixpoint put_column (j : nat) (vals : list pyval) (rows : list (list pyval))
  : list (list pyval) :=
  match vals, rows with
  | v :: vs, row :: rs => set_nth j v row :: put_column j vs rs
  | _, _ => rows
  end.

Section History.

(** [column.astype(str)]: the cells of a column made text.  What pandas
    writes depends on the type of the column as a whole and on the version of
    pandas (dates without a time of day are written without it; a missing
    date becomes a text under pandas 2 and stays missing under pandas 3), so
    it is a parameter here. *)
Variable astype_str : list pyval -> list pyval.

(** [data['date'] = data['date'].astype(str)], for the columns from position
    [j] on; a label carried by several columns is treated column by
    column. *)
Fixpoint date_columns_astype (cols : list pykey) (j : nat)
         (rows : list (list pyval)) : list (list pyval) :=
  match cols with
  | [] => rows
  | c :: cs =>
      date_columns_astype cs (S j)
        (if key_eqb c (KStr "date")
         then put_column j (astype_str (get_column j rows)) rows
         else rows)
  end.

(** The rows that [get_historical_prices] serializes: the index reset, the
    dates made text, then [to_dict(orient='records')]. *)
Definition history_records (df : DataFrame)
  : result (list (list (pykey * pyval))) :=
  df1 <- reset_index df ;;
  let df2 :=
    if key_in (KStr "date") (df_columns df1)
    then mkFrame (df_index df1) (df_columns df1)
                 (date_columns_astype (df_columns df1) 0 (df_rows df1))
    else df1 in
  Return (to_dict_records df2).

(** What [get_historical_prices] returns for the value [d] that
    [tickers.history] gave.  Nothing here is inside a [try]. *)
Definition history_response (interval : string) (d : data) : result string :=
  match d with
  | DFrame df =>
      if frame_empty df then Return "Historical Price Data: No data available"
      else
        records <- history_records df ;;
        text <- json_dumps true (PList (map PDict records)) ;;
        Return ("Historical Price Data (" ++ interval ++ "):" ++ nl ++ text)
  | _ => Return "Historical Price Data: No data available"
  end.

(** [get_historical_prices]; [history] is [Ticker(ticker_list).history]. *)
Definition get_historical_prices
           (history : list pytext -> list (pykey * pyval) -> data)
           (today : clock) (symbols : pytext)
           (period start_date end_date : option string) (interval : string)
  : result string :=
  history_response interval
    (history (ticker_list symbols)
             (history_params today period start_date end_date interval)).

End History.

(** [str(x)] of a scalar. *)
Definition scalar_str (s : scalar) : string :=
  match s with
  | SNone => "None"
  | SBool true => "True"
  | SBool false => "False"
  | SInt z => str_of_Z z
  | SFloat FNaN => "nan"
  | SFloat (FInf false) => "inf"
  | SFloat (FInf true) => "-inf"
  | SFloat (FFinite r) => r
  | SStr t => t
  | SNaT => "NaT"
  | SObj _ t => t
  end.

(** The parameter of the examples: [str()] of each scalar cell.  It is what
    [astype(str)] gives, under pandas 2 and 3 alike, for a column of Python
    objects without missing values, such as the dates of a daily history.  (A
    column of Timestamps is written by pandas in a format of its own, and the
    text of a list or a dict is its [repr]: the examples have no such cell,
    and a cell that is no scalar is left as it is.) *)
Definition object_astype_str (col : list pyval) : list pyval :=
  map (fun v => match v with
                | PScalar s => PScalar (SStr (scalar_str s))
                | _ => v
                end) col.

(** A table of daily bars as [history] returns it, indexed by symbol and
    date. *)
Definition history_frame : DataFrame :=
  mkFrame (MultiIndex [(Some (KStr "symbol"), [KStr "AAPL"; KStr "AAPL"]);
                       (Some (KStr "date"),
                        [KObj Date "2024-01-02"; KObj Date "2024-01-03"])])
          [KStr "close"]
          [[PScalar (SFloat (FFinite "185.5"))];
           [PScalar (SFloat (FFinite "184.25"))]].

(* ===================================================================== *)
(** ** deploy.py *)
(* ===================================================================== *)

(** The marks [CHECK], [CROSS], [WARNING], [ARROW] and [ROCKET], chosen once
    from the platform. *)
Record Symbols : Type := mkSymbols {
  CHECK : string;
  CROSS : string;
  WARNING : string;
  ARROW : string;
  ROCKET : string
}.

(** The marks on Windows. *)
Definition windows_symbols : Symbols :=
  mkSymbols "[OK]" "[FAIL]" "[WARN]" "-->" ">>>".

(** What a script does, in order: a line printed, a shell command run. *)
Inductive event : Type :=
| Print (line : string)
| Run (command : string).

(** How [subprocess.run(..., check=True)] ends: it returns the output of the
    command, raises [CalledProcessError] with the error output (if any), or
    raises something else. *)
Inductive outcome : Type :=
| Completed (stdout : string)
| CalledProcessError (stderr : option string)
| OtherError (message : string).

Definition completed (o : outcome) : bool :=
  match o with
  | Completed _ => true
  | _ => false
  end.

(** [if len(x) > 200: x = x[:200] + "..."] *)
Definition shorten (x : string) : string :=
  if (200 <? String.length x)%nat then substring 0 200 x ++ "..." else x.

(** The machine of a deployment: the platform and its marks, the
    interpreter, whether the directory [env] exists, and how each shell
    command ends. *)
Record Machine : Type := mkMachine {
  windows : bool;
  sym : Symbols;
  executable : string;
  venv_exists : bool;
  sh : string -> outcome
}.

(** [run_command]: what it returns and what it does. *)
Definition run_command (m : Machine) (command description : string)
           (critical : bool) : bool * list event :=
  let headline := Print (nl ++ ARROW (sym m) ++ " " ++ description ++ "...") in
  match sh m command with
  | Completed stdout =>
      (true,
       [headline; Run command;
        Print (CHECK (sym m) ++ " " ++ description ++ " - SUCCESS")]
       ++ (match strip stdout with
           | EmptyString => []
           | output => [Print ("   Output: " ++ shorten output)]
           end))%list
  | CalledProcessError stderr =>
      if critical then
        let error_msg :=
          match stderr with
          | None => "Unknown error"
          | Some EmptyString => "Unknown error"
          | Some e => strip e
          end in
        (false,
         [headline; Run command;
          Print (CROSS (sym m) ++ " " ++ description ++ " - FAILED");
          Print ("   Error: " ++ shorten error_msg)])
      else
        (true,
         [headline; Run command;
          Print (WARNING (sym m) ++ " " ++ description
                 ++ " - Optional step failed")])
  | OtherError message =>
      (negb critical,
       [headline; Run command;
        Print (CROSS (sym m) ++ " " ++ description ++ " - Unexpected error: "
               ++ message)])
  end.

(** [check_python_version] on [sys.version_info]. *)
Definition check_python_version (s : Symbols) (major minor micro : Z)
  : bool * list event :=
  let version := str_of_Z major ++ "." ++ str_of_Z minor ++ "." ++ str_of_Z micro in
  if ((3 <=? major) && (10 <=? minor))%Z then
    (true, [Print (CHECK s ++ " Python " ++ version ++ " - Compatible")])
  else
    (false, [Print (CROSS s ++ " Python " ++ version ++ " - Requires Python 3.10+")]).

(** [pip_cmd] *)
Definition pip_cmd (m : Machine) : string :=
  if windows m then "env\Scripts\pip" else "env/bin/pip".

(** [setup_environment] *)
Definition setup_environment (m : Machine) : bool * list event :=
  let start := [Print (nl ++ ARROW (sym m) ++ " Setting up Zentickr environment...")] in
  let '(venv_ok, venv_events) :=
    if negb (venv_exists m) then
      run_command m (executable m ++ " -m venv env")
                  "Creating virtual environment" true
    else (true, [Print (CHECK (sym m) ++ " Virtual environment already exists")]) in
  if negb venv_ok then (false, start ++ venv_events)%list
  else
    let '(_, upgrade_events) :=
      run_command m (pip_cmd m ++ " install --upgrade pip") "Upgrading pip" false in
    let '(deps_ok, deps_events) :=
      run_command m (pip_cmd m ++ " install -r requirements.txt")
                  "Installing dependencies" true in
    if negb deps_ok then
      (false, start ++ venv_events ++ upgrade_events ++ deps_events)%list
    else
      let '(_, package_events) :=
        run_command m (pip_cmd m ++ " install -e .")
                    "Installing Zentickr package" false in
      (true, start ++ venv_events ++ upgrade_events ++ deps_events
             ++ package_events)%list.

(** The shell commands among the events, in order. *)
Fixpoint commands_run (events : list event) : list string :=
  match events with
  | [] => []
  | Run c :: r => c :: commands_run r
  | Print _ :: r => commands_run r
  end.

(* ===================================================================== *)
(** ** Predicates of the further statements *)
(* ===================================================================== *)

(** A label that [json] writes as a key: a text or an integer. *)
Definition is_json_key (k : pykey) : bool :=
  match k with
  | KStr _ | KInt _ => true
  | _ => false
  end.

(** Every key of every mapping in a value is a text or an integer. *)
Fixpoint serializable_keys (v : pyval) : bool :=
  match v with
  | PScalar _ => true
  | PList l => forallb serializable_keys l
  | PTuple l => forallb serializable_keys l
  | PDict d =>
      forallb (fun kv => is_json_key (fst kv) && serializable_keys (snd kv)) d
  end.

(** The exception that [json] raises on a key of class [cls]. *)
Definition key_error (cls : string) : exn :=
  TypeError ("keys must be str, int, float, bool or None, not " ++ cls).

(* ===================================================================== *)
(** ** The symbols argument *)
(* ===================================================================== *)

Local Open Scope list_scope.

Lemma char_eqb_spec a b : reflect (a = b) (char_eqb a b).
Proof.
  destruct a as [x| |], b as [y| |]; simpl; try (constructor; congruence).
  destruct (Ascii.eqb_spec x y); constructor; congruence.
Qed.

Lemma text_split_not_nil sep s : text_split sep s <> [].
Proof.
  destruct s as [|c r]; simpl; [discriminate|].
  destruct (char_eqb c sep); [discriminate|].
  destruct (text_split sep r); discriminate.
Qed.

Lemma text_join_cons sep c tok toks :
  text_join sep ((c :: tok) :: toks) = c :: text_join sep (tok :: toks).
Proof. destruct toks; reflexivity. Qed.

Lemma text_join_cons_cons sep x y r :
  text_join sep (x :: y :: r) = x ++ sep ++ text_join sep (y :: r).
Proof. reflexivity. Qed.

Lemma text_split_join sep s : text_join [sep] (text_split sep s) = s.
Proof.
  induction s as [|c r IH]; [reflexivity|].
  pose proof (text_split_not_nil sep r) as Hnil. cbn [text_split].
  revert IH.
  destruct (char_eqb_spec c sep) as [->|Hne];
    destruct (text_split sep r) as [|tok toks]; try contradiction; intros IH.
  - rewrite text_join_cons_cons, IH. reflexivity.
  - rewrite text_join_cons, IH. reflexivity.
Qed.

Lemma text_split_no_sep sep s :
  Forall (fun tok => ~ In sep tok) (text_split sep s).
Proof.
  induction s as [|c r IH]; simpl.
  - constructor; [tauto|constructor].
  - destruct (char_eqb_spec c sep) as [->|Hne].
    + constructor; [tauto|exact IH].
    + destruct (text_split sep r) as [|tok toks].
      * constructor; [|constructor]. simpl. intros [H|[]]. congruence.
      * inversion IH; subst. constructor; [|assumption].
        simpl. intros [H|H]; [congruence|contradiction].
Qed.

(** The spaces of [str.isspace], by their code points. *)
Lemma isspace_codes c :
  isspace c = true
  <-> exists n, In n [9; 10; 11; 12; 13; 28; 29; 30; 31; 32; 133; 160]%nat
                /\ c = latin1 n.
Proof.
  split.
  - destruct c as [a| |]; [|discriminate|discriminate].
    intros H. exists (nat_of_ascii a). split.
    + revert H.
      destruct a as [[|] [|] [|] [|] [|] [|] [|] [|]];
        vm_compute; intros H; try discriminate H; tauto.
    + unfold latin1. now rewrite ascii_nat_embedding.
  - intros (n & Hn & ->). simpl in Hn.
    repeat (destruct Hn as [<-|Hn]; [reflexivity|]). destruct Hn.
Qed.

Lemma text_lstrip_spec s :
  exists before,
    s = before ++ text_lstrip s
    /\ forallb isspace before = true
    /\ forall c rest, text_lstrip s = c :: rest -> isspace c = false.
Proof.
  induction s as [|c r (before & E & Hb & Hh)]; simpl.
  - exists []. repeat split. discriminate.
  - destruct (isspace c) eqn:Ec.
    + exists (c :: before). simpl. rewrite Ec, Hb. repeat split; [|exact Hh].
      now rewrite <- E.
    + exists []. repeat split. intros d rest [= <- _]. exact Ec.
Qed.

Lemma text_rstrip_spec s :
  exists after,
    s = text_rstrip s ++ after
    /\ forallb isspace after = true
    /\ forall front c, text_rstrip s = front ++ [c] -> isspace c = false.
Proof.
  induction s as [|c r (after & E & Ha & Hl)]; simpl.
  - exists []. repeat split. intros [|? ?] ?; discriminate.
  - destruct (text_rstrip r) as [|d r'] eqn:Er.
    + destruct (isspace c) eqn:Ec.
      * exists (c :: after). simpl in *. rewrite Ec, Ha. repeat split.
        -- now rewrite <- E.
        -- intros [|? ?] ?; discriminate.
      * exists after. simpl in *. repeat split; [now rewrite <- E|exact Ha|].
        intros [|x [|? ?]] y H; try discriminate H. now injection H as <-.
    + exists after. repeat split; [now rewrite E at 1|exact Ha|].
      intros [|x front] y H; [discriminate H|].
      injection H as <- H. now apply (Hl front y).
Qed.

(** A text that starts with a character that is no space keeps it under
    [rstrip]. *)
Lemma text_rstrip_head c r :
  isspace c = false -> exists r', text_rstrip (c :: r) = c :: r'.
Proof.
  intros Hc. simpl. destruct (text_rstrip r).
  - rewrite Hc. now exists [].
  - eexists; reflexivity.
Qed.

Lemma text_lstrip_head s :
  text_lstrip s = [] \/
  exists c r, text_lstrip s = c :: r /\ isspace c = false.
Proof.
  induction s as [|c r IH]; simpl; [now left|].
  destruct (isspace c) eqn:E; [exact IH|].
  right. now exists c, r.
Qed.

(** What [strip] takes away is made of spaces, and what it leaves neither
    starts nor ends with one. *)
Lemma text_strip_spec s :
  exists before after,
    s = before ++ text_strip s ++ after
    /\ forallb isspace before = true
    /\ forallb isspace after = true
    /\ (forall c rest, text_strip s = c :: rest -> isspace c = false)
    /\ (forall front c, text_strip s = front ++ [c] -> isspace c = false).
Proof.
  destruct (text_lstrip_spec s) as (before & E1 & Hb & Hh).
  destruct (text_rstrip_spec (text_lstrip s)) as (after & E2 & Ha & Hl).
  exists before, after. unfold text_strip. repeat split; try assumption.
  - now rewrite <- E2.
  - intros c rest H. rewrite H in E2. apply (Hh c (rest ++ after)). exact E2.
Qed.

Lemma text_rstrip_idem s : text_rstrip (text_rstrip s) = text_rstrip s.
Proof.
  induction s as [|c r IH]; simpl; [reflexivity|].
  destruct (text_rstrip r) as [|d r'] eqn:E.
  - destruct (isspace c) eqn:Ec; simpl; [reflexivity|now rewrite Ec].
  - simpl in *. now rewrite IH.
Qed.

Lemma text_lstrip_strip s : text_lstrip (text_strip s) = text_strip s.
Proof.
  unfold text_strip. destruct (text_lstrip_head s) as [->|(c & r & -> & Hc)].
  - reflexivity.
  - destruct (text_rstrip_head c r Hc) as [r' ->]. simpl. now rewrite Hc.
Qed.

Lemma text_strip_idem s : text_strip (text_strip s) = text_strip s.
Proof.
  unfold text_strip at 1. rewrite text_lstrip_strip. unfold text_strip.
  apply text_rstrip_idem.
Qed.

(** *** Upper case *)

(** The upper case of a space is the space; that of another character is
    one or two characters, none of them a space. *)
Lemma upper_char_cases c :
  if isspace c then upper_char c = [c]
  else exists d ds,
         upper_char c = d :: ds
         /\ forallb (fun x => negb (isspace x)) (d :: ds) = true.
Proof. each_char c; cbn; first [reflexivity|do 2 eexists; split; reflexivity]. Qed.

Lemma upper_char_idem c : text_upper (upper_char c) = upper_char c.
Proof. each_char c; reflexivity. Qed.

Lemma upper_char_comma c : In (Latin1 ",") (upper_char c) -> c = Latin1 ",".
Proof.
  each_char c; cbn; intros H;
    repeat (destruct H as [H|H]; [try discriminate H; try reflexivity|]);
    destruct H.
Qed.

Lemma text_upper_app a b : text_upper (a ++ b) = text_upper a ++ text_upper b.
Proof. apply flat_map_app. Qed.

Lemma text_upper_idem s : text_upper (text_upper s) = text_upper s.
Proof.
  induction s as [|c r IH]; simpl; [reflexivity|].
  now rewrite text_upper_app, upper_char_idem, IH.
Qed.

Lemma text_upper_empty_iff s : text_upper s = [] <-> s = [].
Proof.
  destruct s as [|c r]; simpl; [tauto|]. split; [|discriminate].
  pose proof (upper_char_cases c) as H. destruct (isspace c).
  - rewrite H. discriminate.
  - destruct H as (d & ds & -> & _). discriminate.
Qed.

Lemma text_lstrip_upper s :
  text_lstrip (text_upper s) = text_upper (text_lstrip s).
Proof.
  induction s as [|c r IH]; [reflexivity|].
  change (text_upper (c :: r)) with (upper_char c ++ text_upper r).
  cbn [text_lstrip].
  pose proof (upper_char_cases c) as H. destruct (isspace c) eqn:Ec.
  - rewrite H. cbn [List.app text_lstrip]. rewrite Ec. exact IH.
  - destruct H as (d & ds & E & Hd). rewrite E.
    cbn [forallb] in Hd.
    apply andb_true_iff in Hd. destruct Hd as [Hd _].
    apply negb_true_iff in Hd. cbn [List.app text_lstrip]. rewrite Hd.
    change (text_upper (c :: r)) with (upper_char c ++ text_upper r).
    now rewrite E.
Qed.

Lemma text_rstrip_app x y :
  text_rstrip (x ++ y)
  = match text_rstrip y with
    | [] => text_rstrip x
    | y' => x ++ y'
    end.
Proof.
  induction x as [|c x IH]; simpl.
  - destruct (text_rstrip y); reflexivity.
  - rewrite IH. destruct (text_rstrip y) as [|d y']; [reflexivity|].
    destruct x; reflexivity.
Qed.

Lemma text_rstrip_no_space l :
  l <> [] -> forallb (fun x => negb (isspace x)) l = true -> text_rstrip l = l.
Proof.
  induction l as [|c l IH]; intros Hne H; [congruence|].
  cbn [forallb] in H. apply andb_true_iff in H. destruct H as [Hc Hl].
  apply negb_true_iff in Hc. destruct l as [|d l].
  - simpl. now rewrite Hc.
  - cbn [text_rstrip]. cbn [text_rstrip] in IH.
    rewrite IH by (congruence || assumption). reflexivity.
Qed.

Lemma text_rstrip_upper s :
  text_rstrip (text_upper s) = text_upper (text_rstrip s).
Proof.
  induction s as [|c r IH]; [reflexivity|].
  change (text_upper (c :: r)) with (upper_char c ++ text_upper r).
  rewrite text_rstrip_app, IH. cbn [text_rstrip].
  pose proof (upper_char_cases c) as H.
  destruct (text_rstrip r) as [|e r'] eqn:Er.
  - cbn [text_upper flat_map]. destruct (isspace c) eqn:Ec.
    + rewrite H. cbn [text_rstrip]. now rewrite Ec.
    + destruct H as (d & ds & E & Hd). rewrite E.
      rewrite text_rstrip_no_space by (discriminate || assumption).
      change (text_upper [c]) with (upper_char c ++ []).
      now rewrite E, List.app_nil_r.
  - destruct (text_upper (e :: r')) as [|u us] eqn:Eu.
    + apply (proj1 (text_upper_empty_iff _)) in Eu. discriminate Eu.
    + change (text_upper (c :: e :: r')) with (upper_char c ++ text_upper (e :: r')).
      now rewrite Eu.
Qed.

Lemma text_strip_upper s :
  text_strip (text_upper s) = text_upper (text_strip s).
Proof. unfold text_strip. now rewrite text_lstrip_upper, text_rstrip_upper. Qed.

(** Every letter of Latin-1 that [str.upper] changes, with its capital. *)
Lemma text_upper_letters :
  (forall n, 97 <= n <= 122 -> text_upper [latin1 n] = [latin1 (n - 32)])%nat
  /\ (forall n, 224 <= n <= 254 -> n <> 247 ->
        text_upper [latin1 n] = [latin1 (n - 32)])%nat
  /\ text_upper [latin1 223] = [latin1 83; latin1 83]
  /\ text_upper [latin1 181] = [CapitalMu]
  /\ text_upper [latin1 255] = [CapitalYDiaeresis].
Proof.
  repeat split.
  - intros n Hn. assert (H : In n (seq 97 26)) by (apply in_seq; lia).
    simpl in H. repeat (destruct H as [<-|H]; [reflexivity|]). destruct H.
  - intros n Hn Hd. assert (H : In n (seq 224 31)) by (apply in_seq; lia).
    simpl in H.
    repeat (destruct H as [<-|H]; [first [reflexivity|congruence]|]). destruct H.
Qed.

(** Every other character is its own upper case. *)
Lemma text_upper_others c :
  (forall n, (97 <= n <= 122 \/ n = 181 \/ 223 <= n <= 255 /\ n <> 247)%nat ->
             c <> latin1 n) ->
  text_upper [c] = [c].
Proof.
  intros H. each_char c; first
    [ reflexivity
    | exfalso;
      match goal with
      | H : forall n, _ -> Latin1 ?a <> _ |- _ =>
          let k := eval vm_compute in (nat_of_ascii a) in
          apply (H k); [lia|reflexivity]
      end ].
Qed.

Lemma Forall2_map_same {A B : Type} (R : A -> B -> Prop) (f : A -> B) l :
  (forall x, In x l -> R x (f x)) -> Forall2 R l (map f l).
Proof.
  induction l as [|x r IH]; intros H; simpl; constructor.
  - apply H. now left.
  - apply IH. intros y Hy. apply H. now right.
Qed.

(** C10: the symbol list is made of the tokens of the argument between its
    commas, in order: joined by commas the tokens give the argument back and
    none holds a comma.  The symbol of a token is the token without the
    spaces before and after it (tab to carriage return, the separators U+001C
    to U+001F, the blank, U+0085 and U+00A0), put in upper case.  Upper case
    is taken character by character: the letters a to z and the letters of
    Latin-1 from U+00E0 to U+00FE other than the division sign give the
    character 32 places before them, the sharp s gives SS, the micro sign and
    the y with diaeresis give their capitals outside Latin-1, and every other
    character is unchanged.  ["aapl, googl"] gives [["AAPL"; "GOOGL"]]. *)
Theorem ticker_list_split_strip_upper (symbols : pytext) :
  let comma := Latin1 "," in
  let blank (c : pychar) :=
    exists n, In n [9; 10; 11; 12; 13; 28; 29; 30; 31; 32; 133; 160]%nat
              /\ c = latin1 n in
  (exists tokens,
      tokens <> []
      /\ text_join [comma] tokens = symbols
      /\ Forall (fun token => ~ In comma token) tokens
      /\ Forall2
           (fun token symbol =>
              exists before core after,
                token = before ++ core ++ after
                /\ Forall blank before /\ Forall blank after
                /\ (forall c rest, core = c :: rest -> ~ blank c)
                /\ (forall front c, core = front ++ [c] -> ~ blank c)
                /\ symbol = text_upper core)
           tokens (ticker_list symbols))
  /\ (forall a b, text_upper (a ++ b) = text_upper a ++ text_upper b)
  /\ (forall n, 97 <= n <= 122 -> text_upper [latin1 n] = [latin1 (n - 32)])%nat
  /\ (forall n, 224 <= n <= 254 -> n <> 247 ->
        text_upper [latin1 n] = [latin1 (n - 32)])%nat
  /\ text_upper [latin1 223] = [latin1 83; latin1 83]
  /\ text_upper [latin1 181] = [CapitalMu]
  /\ text_upper [latin1 255] = [CapitalYDiaeresis]
  /\ (forall c,
        (forall n, (97 <= n <= 122 \/ n = 181
                    \/ 223 <= n <= 255 /\ n <> 247)%nat -> c <> latin1 n) ->
        text_upper [c] = [c])
  /\ ticker_list (text_of_string "aapl, googl")
     = [text_of_string "AAPL"; text_of_string "GOOGL"].
Proof.
  intros comma blank.
  assert (Hblank : forall l, forallb isspace l = true -> Forall blank l).
  { intros l Hl. apply Forall_forall. intros c Hc.
    rewrite forallb_forall in Hl. apply isspace_codes. auto. }
  assert (Hnot : forall c, isspace c = false -> ~ blank c).
  { intros c Hc Hb. apply isspace_codes in Hb. congruence. }
  split; [|split; [apply text_upper_app|]].
  - exists (text_split comma symbols). split; [apply text_split_not_nil|].
    split; [apply text_split_join|]. split; [apply text_split_no_sep|].
    unfold ticker_list. apply Forall2_map_same. intros token _.
    destruct (text_strip_spec token) as (before & after & E & Hb & Ha & Hh & Hl).
    exists before, (text_strip token), after.
    split; [exact E|]. split; [now apply Hblank|]. split; [now apply Hblank|].
    split; [|split; [|reflexivity]].
    + intros c rest Hc. apply Hnot. eapply Hh; eassumption.
    + intros front c Hc. apply Hnot. eapply Hl; eassumption.
  - destruct text_upper_letters as (H1 & H2 & H3 & H4 & H5).
    repeat split; try assumption. apply text_upper_others.
Qed.

Local Open Scope string_scope.

(* ===================================================================== *)
(** ** Dates *)
(* ===================================================================== *)


Lemma all_from_spec f n : forall z i,
  all_from f n z = true -> (z <= i < z + Z.of_nat n)%Z -> f i = true.
Proof.
  induction n as [|k IH]; intros z i H Hi; [lia|].
  simpl in H. apply andb_true_iff in H. destruct H as [Hz Hr].
  destruct (Z.eq_dec i z) as [->|Hne]; [exact Hz|].
  apply (IH (z + 1)%Z); [exact Hr|lia].
Qed.

(** The calendar repeats every 400 years, 146097 days. *)
Lemma ord2ymd_cycle o :
  ord2ymd o =
  let '(y, m, d) := ord2ymd ((o - 1) mod 146097 + 1) in
  (y + 400 * ((o - 1) / 146097), m, d)%Z.
Proof.
  unfold ord2ymd.
  replace ((o - 1) mod 146097 + 1 - 1)%Z with ((o - 1) mod 146097)%Z by lia.
  assert (Hr : (0 <= (o - 1) mod 146097 < 146097)%Z)
    by (apply Z.mod_pos_bound; lia).
  rewrite (Z.div_small ((o - 1) mod 146097) 146097) by exact Hr.
  rewrite (Z.mod_small ((o - 1) mod 146097) 146097) by exact Hr.
  generalize ((o - 1) mod 146097)%Z as r. generalize ((o - 1) / 146097)%Z as q.
  intros q r. cbv zeta.
  generalize (r mod 36524 mod 1461 mod 365)%Z as n.
  generalize (r mod 36524 mod 1461 / 365)%Z as n1.
  generalize (r mod 36524 / 1461)%Z as n4.
  generalize (r / 36524)%Z as n100.
  intros n100 n4 n1 n.
  destruct ((n1 =? 4)%Z || (n100 =? 4)%Z); [f_equal; f_equal; lia|].
  match goal with |- context [if ?b then _ else _] => destruct b end;
    f_equal; f_equal; lia.
Qed.


Lemma years_ok : all_from (digits_ok 4) (Z.to_nat 8400) 1201 = true.
Proof. vm_compute. reflexivity. Qed.

Lemma months_days_ok : all_from (digits_ok 2) (Z.to_nat 31) 1 = true.
Proof. vm_compute. reflexivity. Qed.

(** The month and the day that [ord2ymd] computes from the day [n] of a year,
    counted from zero: a month, a day of that month, and as many days before
    them in the year as [n]. *)
Lemma month_day_spec (n : Z) (leapyear : bool) :
  (0 <= n <= 364)%Z ->
  let month := Z.shiftr (n + 50) 5 in
  let preceding :=
    (days_before_month month
     + (if (2 <? month)%Z && leapyear then 1 else 0))%Z in
  let '(m, d) :=
    if (n <? preceding)%Z then
      ((month - 1)%Z,
       (n - (preceding
             - (days_in_month (month - 1)
                + (if (month - 1 =? 2)%Z && leapyear then 1 else 0))) + 1)%Z)
    else (month, (n - preceding + 1)%Z) in
  (1 <= m <= 12
   /\ 1 <= d <= days_in_month m + (if (m =? 2) && leapyear then 1 else 0)
   /\ days_before_month m + (if (2 <? m) && leapyear then 1 else 0) + d
      = n + 1)%Z.
Proof.
  intros Hn. rewrite Z.shiftr_div_pow2 by lia. change (2 ^ 5)%Z with 32%Z.
  assert (Hm : (1 <= (n + 50) / 32 <= 12)%Z).
  { split; [apply Z.div_le_lower_bound; lia|].
    apply Z.lt_succ_r. apply Z.div_lt_upper_bound; lia. }
  pose proof (Z.div_mod (n + 50) 32 ltac:(lia)) as Hdm.
  pose proof (Z.mod_pos_bound (n + 50) 32 ltac:(lia)) as Hmod.
  revert Hdm Hmod Hm.
  generalize ((n + 50) mod 32)%Z as k, ((n + 50) / 32)%Z as month.
  intros k month Hdm Hk Hmonth.
  assert (Hcases : (month = 1 \/ month = 2 \/ month = 3 \/ month = 4
                    \/ month = 5 \/ month = 6 \/ month = 7 \/ month = 8
                    \/ month = 9 \/ month = 10 \/ month = 11 \/ month = 12)%Z)
    by lia.
  cbv zeta.
  repeat (destruct Hcases as [->|Hcases]); [..|subst month];
    destruct leapyear; table_values;
    match goal with
    | |- context [(?x <? ?p)%Z] => destruct (Z.ltb_spec x p)
    end; cbv iota beta; table_values; lia.
Qed.

(** The year, month and day of a date of the years 1201 to 9600 are a date
    of the calendar, and [ymd2ord] gives its ordinal back. *)
Lemma ord2ymd_date o :
  (438292 <= o <= 3506328)%Z ->
  let '(y, m, d) := ord2ymd o in
  (ymd2ord y m d = o
   /\ 1201 <= y <= 9600 /\ 1 <= m <= 12
   /\ 1 <= d <= days_in_month m + (if (m =? 2) && is_leap y then 1 else 0))%Z.
Proof.
  intros Ho. unfold ord2ymd. cbv zeta.
  set (q := ((o - 1) / 146097)%Z).
  set (r := ((o - 1) mod 146097)%Z).
  set (n100 := (r / 36524)%Z). set (r2 := (r mod 36524)%Z).
  set (n4 := (r2 / 1461)%Z). set (r3 := (r2 mod 1461)%Z).
  set (n1 := (r3 / 365)%Z). set (n := (r3 mod 365)%Z).
  assert (Hq : (3 <= q <= 23)%Z).
  { unfold q. split; [apply Z.div_le_lower_bound; lia|].
    apply Z.lt_succ_r. apply Z.div_lt_upper_bound; lia. }
  assert (E0 : (o - 1 = 146097 * q + r)%Z) by (apply Z.div_mod; lia).
  assert (Hr : (0 <= r < 146097)%Z) by (apply Z.mod_pos_bound; lia).
  assert (Hr2 : (0 <= r2 < 36524)%Z) by (apply Z.mod_pos_bound; lia).
  assert (Hr3 : (0 <= r3 < 1461)%Z) by (apply Z.mod_pos_bound; lia).
  assert (Hn : (0 <= n < 365)%Z) by (apply Z.mod_pos_bound; lia).
  assert (E1 : (r = 36524 * n100 + r2)%Z) by (apply Z.div_mod; lia).
  assert (E2 : (r2 = 1461 * n4 + r3)%Z) by (apply Z.div_mod; lia).
  assert (E3 : (r3 = 365 * n1 + n)%Z) by (apply Z.div_mod; lia).
  clearbody q r n100 r2 n4 r3 n1 n.
  assert (B100 : (0 <= n100 <= 4)%Z) by lia.
  assert (B4 : (0 <= n4 <= 24)%Z) by lia.
  assert (B1 : (0 <= n1 <= 4)%Z) by lia.
  remember (q * 400 + 1 + n100 * 100 + n4 * 4 + n1)%Z as year eqn:Eyear.
  destruct (Z.eqb_spec n1 4) as [H1|H1].
  - cbn [orb]. unfold ymd2ord, days_before_year, is_leap.
    replace (year - 1 - 1)%Z with (q * 400 + n100 * 100 + n4 * 4 + 3)%Z
      by lia.
    replace (year - 1)%Z with (q * 400 + n100 * 100 + n4 * 4 + 4)%Z
      by lia.
    table_values.
    repeat match goal with
           | |- context [(?a mod ?b =? 0)%Z] =>
               destruct (Z.eqb_spec (a mod b) 0)
           end; cbn [andb orb negb]; Z.div_mod_to_equations; lia.
  - destruct (Z.eqb_spec n100 4) as [H100|H100].
    + cbn [orb]. unfold ymd2ord, days_before_year, is_leap.
      replace (year - 1 - 1)%Z with (q * 400 + 400 + n4 * 4 + n1 - 1)%Z
        by lia.
      replace (year - 1)%Z with (q * 400 + 400 + n4 * 4 + n1)%Z
        by lia.
      table_values.
      repeat match goal with
             | |- context [(?a mod ?b =? 0)%Z] =>
                 destruct (Z.eqb_spec (a mod b) 0)
             end; cbn [andb orb negb]; Z.div_mod_to_equations; lia.
    + cbn [orb].
      assert (Hleap : is_leap year
                      = ((n1 =? 3) && (negb (n4 =? 24) || (n100 =? 3)))%Z).
      { unfold is_leap. subst year.
        destruct (Z.eqb_spec n1 3), (Z.eqb_spec n4 24), (Z.eqb_spec n100 3);
          cbn [andb orb negb];
          repeat match goal with
                 | |- context [(?a mod ?b =? 0)%Z] =>
                     destruct (Z.eqb_spec (a mod b) 0)
                 end; cbn [andb orb negb]; try reflexivity;
          exfalso; Z.div_mod_to_equations; lia. }
      rewrite <- Hleap.
      assert (Hdby : (days_before_year year + n = o - 1)%Z).
      { unfold days_before_year.
        replace (year - 1)%Z
          with (q * 400 + n100 * 100 + n4 * 4 + n1)%Z by lia.
        Z.div_mod_to_equations. lia. }
      pose proof (month_day_spec n (is_leap year) ltac:(lia)) as Hmd.
      cbv zeta in Hmd. unfold ymd2ord.
      assert (Hy : (1201 <= year <= 9600)%Z) by lia.
      clear Hleap. revert Hdby Hmd.
      match goal with
      | |- context [(n <? ?p)%Z] => destruct (n <? p)%Z
      end; cbv iota beta; generalize (is_leap year) as leap; intros leap;
        repeat match goal with
               | |- context [if ?b then 1%Z else 0%Z] =>
                   generalize (if b then 1%Z else 0%Z); intro
               end;
        repeat match goal with
               | |- context [days_before_month ?c] =>
                   generalize (days_before_month c); intro
               | |- context [days_in_month ?c] =>
                   generalize (days_in_month c); intro
               end;
        generalize (days_before_year year); intro;
        generalize (Z.shiftr (n + 50) 5); intro;
        lia.
Qed.

Lemma digits_ok_spec width n :
  digits_ok width n = true ->
  String.length (zero_pad width n) = width
  /\ string_forallb is_digit (zero_pad width n) = true
  /\ parse_int (zero_pad width n) = n.
Proof.
  unfold digits_ok. intros H.
  apply andb_true_iff in H. destruct H as [H Hp].
  apply andb_true_iff in H. destruct H as [Hl Hd].
  repeat split; [now apply Nat.eqb_eq|exact Hd|now apply Z.eqb_eq].
Qed.

Lemma is_ymd_app a b c :
  digits_ok 4 a = true -> digits_ok 2 b = true -> digits_ok 2 c = true ->
  is_ymd (zero_pad 4 a ++ "-" ++ zero_pad 2 b ++ "-" ++ zero_pad 2 c) = true.
Proof.
  intros Ha Hb Hc.
  destruct (digits_ok_spec _ _ Ha) as (La & Da & _).
  destruct (digits_ok_spec _ _ Hb) as (Lb & Db & _).
  destruct (digits_ok_spec _ _ Hc) as (Lc & Dc & _).
  destruct (zero_pad 4 a) as [|a1 [|a2 [|a3 [|a4 [|a5 ra]]]]]; try discriminate.
  destruct (zero_pad 2 b) as [|b1 [|b2 [|b3 rb]]]; try discriminate.
  destruct (zero_pad 2 c) as [|c1 [|c2 [|c3 rc]]]; try discriminate.
  simpl in *. unfold is_ymd. simpl.
  repeat match goal with
         | H : (_ && _) = true |- _ => apply andb_true_iff in H; destruct H
         end.
  repeat match goal with H : is_digit _ = true |- _ => rewrite H; clear H end.
  reflexivity.
Qed.

(** [strftime('%Y-%m-%d')] of a day of the years 1201 to 9600: a text of the
    form [YYYY-MM-DD] that reads as the year, the month and the day of the
    date of the calendar whose ordinal is that day. *)
Lemma strftime_ymd_date o :
  (438292 <= o <= 3506328)%Z ->
  is_ymd (strftime_ymd o) = true
  /\ exists y m d,
       ymd2ord y m d = o
       /\ (1 <= m <= 12)%Z
       /\ (1 <= d <= days_in_month m
                     + (if (m =? 2)%Z && is_leap y then 1 else 0))%Z
       /\ reads_as_date (strftime_ymd o) y m d.
Proof.
  intros Ho. pose proof (ord2ymd_date o Ho) as Hr. unfold strftime_ymd.
  destruct (ord2ymd o) as [[y m] d]. destruct Hr as (Hord & Hy & Hm & Hd).
  assert (Hdd : (1 <= d <= 31)%Z).
  { assert (Hcases : (m = 1 \/ m = 2 \/ m = 3 \/ m = 4 \/ m = 5 \/ m = 6
                      \/ m = 7 \/ m = 8 \/ m = 9 \/ m = 10 \/ m = 11
                      \/ m = 12)%Z) by lia.
    assert (Hlen : (days_in_month m
                    + (if (m =? 2)%Z && is_leap y then 1 else 0) <= 31)%Z)
      by (destruct (is_leap y);
          repeat (destruct Hcases as [->|Hcases]); try subst m;
          vm_compute; discriminate).
    lia. }
  assert (Oy : digits_ok 4 y = true)
    by (apply (all_from_spec _ _ _ y years_ok); rewrite Z2Nat.id; lia).
  assert (Om : digits_ok 2 m = true)
    by (apply (all_from_spec _ _ _ m months_days_ok); rewrite Z2Nat.id; lia).
  assert (Od : digits_ok 2 d = true)
    by (apply (all_from_spec _ _ _ d months_days_ok); rewrite Z2Nat.id; lia).
  split; [now apply is_ymd_app|].
  exists y, m, d. repeat split; try lia; try tauto.
  destruct (digits_ok_spec _ _ Oy) as (Ly & Dy & Py).
  destruct (digits_ok_spec _ _ Om) as (Lm & Dm & Pm).
  destruct (digits_ok_spec _ _ Od) as (Ld & Dd & Pd).
  exists (zero_pad 4 y), (zero_pad 2 m), (zero_pad 2 d). tauto.
Qed.

(* ===================================================================== *)
(** ** The range resolver *)
(* ===================================================================== *)

(** C1, as the code has it: the parameters of a historical query.  An
    argument is given when it is a text that is not empty; [None] and the
    empty text are absent (the truth test of the code).  With a period given
    and both dates absent, the parameters are the interval, the two fixed
    flags and the period as it was given, and neither start nor end.  In
    every other case they are the interval, the two flags, start and end, and
    no period: a date that is given is passed as it is, an absent end is the
    day the clock reads and an absent start the day 365 days before the day
    the clock reads then (its second reading when the end was absent too).
    The period never comes with a start or an end.  For a clock within the
    years 1202 to 9600, the text of such a day is of the form [YYYY-MM-DD]
    and reads as the year, the month and the day of the date of the calendar
    that has the ordinal of that day. *)
Theorem history_params_resolution (today : clock)
        (period start_date end_date : option string) (interval : string) :
  let params := history_params today period start_date end_date interval in
  let absent (arg : option string) := arg = None \/ arg = Some EmptyString in
  let given (arg : option string) (s : string) :=
    arg = Some s /\ s <> EmptyString in
  let common : list (pykey * pyval) :=
    [(KStr "interval", PScalar (SStr interval));
     (KStr "adj_timezone", PScalar (SBool true));
     (KStr "adj_ohlc", PScalar (SBool false))] in
  (forall p, given period p -> absent start_date -> absent end_date ->
     params = (common ++ [(KStr "period", PScalar (SStr p))])%list)
  /\ (absent period \/ (exists s, given start_date s)
      \/ (exists e, given end_date e) ->
      exists start_text end_text,
        params = (common ++ [(KStr "start", PScalar (SStr start_text));
                             (KStr "end", PScalar (SStr end_text))])%list
        /\ (forall e, given end_date e -> end_text = e)
        /\ (absent end_date -> end_text = strftime_ymd (today 0%nat))
        /\ (forall s, given start_date s -> start_text = s)
        /\ (absent start_date -> absent end_date ->
            start_text = strftime_ymd (today 1%nat - 365))
        /\ (absent start_date -> (exists e, given end_date e) ->
            start_text = strftime_ymd (today 0%nat - 365)))
  /\ (dict_mem params (KStr "period") = true ->
      dict_mem params (KStr "start") = false
      /\ dict_mem params (KStr "end") = false)
  /\ ((forall k, 438657 <= today k <= 3506328)%Z ->
      forall k day, day = today k \/ day = (today k - 365)%Z ->
        is_ymd (strftime_ymd day) = true
        /\ exists y m d,
             ymd2ord y m d = day
             /\ (1 <= m <= 12)%Z
             /\ (1 <= d <= days_in_month m
                           + (if (m =? 2)%Z && is_leap y then 1 else 0))%Z
             /\ reads_as_date (strftime_ymd day) y m d).
Proof.
  intros params absent given common.
  assert (Hgiven : forall arg s, given arg s ->
                     exists c r, arg = Some (String c r) /\ s = String c r).
  { intros arg s [-> Hs]. destruct s as [|c r]; [congruence|]. now exists c, r. }
  assert (Habsent : forall arg, absent arg -> provided arg = false).
  { intros arg [->| ->]; reflexivity. }
  split; [|split; [|split]].
  - intros p Hp Hs He. destruct (Hgiven _ _ Hp) as (c & r & -> & ->).
    unfold params, history_params.
    rewrite (Habsent _ Hs), (Habsent _ He). reflexivity.
  - intros Hcase. unfold params, history_params.
    assert (Htest : provided period
                    && negb (provided start_date || provided end_date) = false).
    { destruct Hcase as [H|[[s H]|[e H]]].
      - now rewrite (Habsent _ H).
      - destruct (Hgiven _ _ H) as (c & r & -> & _).
        simpl. apply andb_false_r.
      - destruct (Hgiven _ _ H) as (c & r & -> & _).
        simpl. rewrite orb_true_r. apply andb_false_r. }
    rewrite Htest. clear Htest Hcase.
    destruct start_date as [[|cs rs]|], end_date as [[|ce re]|];
      cbn -[strftime_ymd]; eexists; eexists; (split; [reflexivity|]);
      repeat split; intros;
      repeat match goal with
             | H : absent _ |- _ => destruct H as [H|H]; try discriminate H
             | H : given _ _ |- _ => destruct H as [H ?]
             | H : exists _, given _ _ |- _ => destruct H as [? [H ?]]
             | H : Some _ = Some _ |- _ => injection H as H; subst
             end;
      try congruence; try reflexivity.
  - unfold params, history_params.
    destruct (provided period && negb (provided start_date || provided end_date));
      [intros _; split; reflexivity|].
    destruct (negb (provided end_date)); intros H; discriminate H.
  - intros Hclock k day Hday. pose proof (Hclock k).
    apply strftime_ymd_date. lia.
Qed.

Lemma history_params_resolution_witness :
  let today : clock := fun _ => 739923%Z in
  history_params today (Some "1mo") None None "1d"
  = [(KStr "interval", PScalar (SStr "1d"));
     (KStr "adj_timezone", PScalar (SBool true));
     (KStr "adj_ohlc", PScalar (SBool false));
     (KStr "period", PScalar (SStr "1mo"))]
  /\ (exists start_text end_text,
        history_params today (Some "1y") (Some "2024-01-15") None "1wk"
        = [(KStr "interval", PScalar (SStr "1wk"));
           (KStr "adj_timezone", PScalar (SBool true));
           (KStr "adj_ohlc", PScalar (SBool false));
           (KStr "start", PScalar (SStr start_text));
           (KStr "end", PScalar (SStr end_text))]
        /\ start_text = "2024-01-15"
        /\ end_text = "2026-11-03")
  /\ ymd2ord 2026 11 3 = 739923%Z
  /\ ymd2ord 2025 11 3 = (739923 - 365)%Z
  /\ strftime_ymd (739923 - 365) = "2025-11-03"
  /\ (exists y m d,
        ymd2ord y m d = (739923 - 365)%Z
        /\ reads_as_date (strftime_ymd (739923 - 365)) y m d).
Proof.
  split; [|split; [|split; [reflexivity|split; [reflexivity|split;
                                                 [reflexivity|]]]]].
  - apply (proj1 (history_params_resolution (fun _ => 739923%Z)
                    (Some "1mo") None None "1d") "1mo").
    + split; [reflexivity|discriminate].
    + now left.
    + now left.
  - destruct (proj1 (proj2 (history_params_resolution (fun _ => 739923%Z)
                              (Some "1y") (Some "2024-01-15") None "1wk")))
      as (start_text & end_text & Hp & _ & He & Hs & _).
    + right. left. exists "2024-01-15". split; [reflexivity|discriminate].
    + exists start_text, end_text. split; [exact Hp|]. split.
      * apply Hs. split; [reflexivity|discriminate].
      * rewrite He by now left. reflexivity.
  - destruct (proj2 (proj2 (proj2 (history_params_resolution
                                     (fun _ => 739923%Z) None None None "1d")))
                (fun _ => ltac:(lia)) 0%nat (739923 - 365)%Z (or_intror eq_refl))
      as (_ & y & m & d & Hord & _ & _ & Hread).
    now exists y, m, d.
Defined.

(** C1 as stated fails on an argument that is the empty text.  An empty
    period, given without dates, is not emitted: the parameters are start and
    end.  An empty start date given with a period does not select start and
    end: the period is emitted.  And an empty start date is not passed as it
    is: the default takes its place. *)
Lemma history_params_empty_text_absent :
  let today : clock := fun _ => 739923%Z in
  history_params today (Some EmptyString) None None "1d"
  = [(KStr "interval", PScalar (SStr "1d"));
     (KStr "adj_timezone", PScalar (SBool true));
     (KStr "adj_ohlc", PScalar (SBool false));
     (KStr "start", PScalar (SStr "2025-11-03"));
     (KStr "end", PScalar (SStr "2026-11-03"))]
  /\ history_params today (Some "1y") (Some EmptyString) None "1d"
     = [(KStr "interval", PScalar (SStr "1d"));
        (KStr "adj_timezone", PScalar (SBool true));
        (KStr "adj_ohlc", PScalar (SBool false));
        (KStr "period", PScalar (SStr "1y"))]
  /\ history_params today None (Some EmptyString) (Some "2024-12-31") "1d"
     = [(KStr "interval", PScalar (SStr "1d"));
        (KStr "adj_timezone", PScalar (SBool true));
        (KStr "adj_ohlc", PScalar (SBool false));
        (KStr "start", PScalar (SStr "2025-11-03"));
        (KStr "end", PScalar (SStr "2024-12-31"))].
Proof. repeat split. Qed.

(* ===================================================================== *)
(** ** Labels and dicts *)
(* ===================================================================== *)

Lemma pykey_induction (P : pykey -> Prop) :
  (forall s, P (KStr s)) ->
  (forall z, P (KInt z)) ->
  (forall c t, P (KObj c t)) ->
  (forall t items, Forall P items -> P (KTuple t items)) ->
  forall k, P k.
Proof.
  intros Hs Hz Ho Ht. fix IH 1. intros [s|z|c t|t items].
  - apply Hs.
  - apply Hz.
  - apply Ho.
  - apply Ht. induction items as [|x r IHl]; constructor; [apply IH|exact IHl].
Qed.

Lemma key_eqb_eq a : forall b, key_eqb a b = true <-> a = b.
Proof.
  induction a as [s|x|c s|s xs IH] using pykey_induction;
    intros [t|y|d t|t ys]; simpl;
    try (split; [discriminate|congruence]).
  - rewrite String.eqb_eq. split; congruence.
  - rewrite Z.eqb_eq. split; congruence.
  - rewrite andb_true_iff, String.eqb_eq. split.
    + intros [Hc ->]. destruct c, d; try discriminate Hc; reflexivity.
    + intros [= -> ->]. split; [destruct d|]; reflexivity.
  - rewrite andb_true_iff, String.eqb_eq.
    match goal with |- context [?f xs ys] => set (all_eqb := f) end.
    assert (Hall : all_eqb xs ys = true <-> xs = ys).
    { clear s t. revert ys.
      induction IH as [|x xr Hx _ IHl]; intros [|y yr]; simpl;
        try (split; [discriminate|congruence]); [tauto|].
      rewrite andb_true_iff, Hx, IHl. split; [intros [-> ->]|intros [= -> ->]]; auto. }
    rewrite Hall. split; [intros [-> ->]|intros [= -> ->]]; auto.
Qed.

Lemma key_eqb_spec a b : reflect (a = b) (key_eqb a b).
Proof. apply iff_reflect. symmetry. apply key_eqb_eq. Qed.

Lemma key_eqb_refl a : key_eqb a a = true.
Proof. destruct (key_eqb_spec a a); congruence. Qed.

Lemma key_in_In k l : key_in k l = true <-> In k l.
Proof.
  unfold key_in. rewrite existsb_exists. split.
  - intros (x & Hx & E). destruct (key_eqb_spec k x); [now subst|discriminate].
  - intros H. exists k. split; [exact H|apply key_eqb_refl].
Qed.

Lemma key_in_false k l : key_in k l = false <-> ~ In k l.
Proof.
  rewrite <- key_in_In. destruct (key_in k l); split; congruence.
Qed.

Lemma key_in_app k l1 l2 : key_in k (l1 ++ l2)%list = key_in k l1 || key_in k l2.
Proof. unfold key_in. apply existsb_app. Qed.

Lemma keys_distinct_NoDup l : keys_distinct l = true <-> NoDup l.
Proof.
  induction l as [|k r IH]; simpl.
  - split; [constructor|reflexivity].
  - rewrite andb_true_iff, negb_true_iff, key_in_false, IH. split.
    + intros [H1 H2]. now constructor.
    + intros H. inversion H; subst. now split.
Qed.

Section DictFacts.
Context {V : Type}.
Implicit Types (d items : list (pykey * V)) (k : pykey) (v : V).

Lemma dict_get_set d k v k' :
  dict_get (dict_set d k v) k' = if key_eqb k k' then Some v else dict_get d k'.
Proof.
  induction d as [|[k0 v0] r IH]; simpl.
  - reflexivity.
  - destruct (key_eqb_spec k0 k) as [->|Hne]; simpl.
    + destruct (key_eqb k k'); reflexivity.
    + rewrite IH. destruct (key_eqb_spec k0 k') as [->|Hne'].
      * destruct (key_eqb_spec k k'); [congruence|reflexivity].
      * reflexivity.
Qed.

Lemma dict_get_In d k v : dict_get d k = Some v -> In (k, v) d.
Proof.
  induction d as [|[k0 v0] r IH]; simpl; [discriminate|].
  destruct (key_eqb_spec k0 k) as [->|Hne].
  - intros [= ->]. now left.
  - intros H. right. now apply IH.
Qed.

Lemma dict_get_none d k : ~ In k (map fst d) -> dict_get d k = None.
Proof.
  induction d as [|[k0 v0] r IH]; simpl; [reflexivity|].
  intros H. destruct (key_eqb_spec k0 k) as [->|Hne]; [tauto|].
  apply IH. tauto.
Qed.

Lemma dict_set_fresh d k v :
  ~ In k (map fst d) -> dict_set d k v = (d ++ [(k, v)])%list.
Proof.
  induction d as [|[k0 v0] r IH]; simpl; [reflexivity|].
  intros H. destruct (key_eqb_spec k0 k) as [->|Hne]; [tauto|].
  rewrite IH; tauto.
Qed.

Lemma fold_dict_set_distinct items : forall d,
  NoDup (map fst (d ++ items)%list) ->
  fold_left (fun acc kv => dict_set acc (fst kv) (snd kv)) items d
  = (d ++ items)%list.
Proof.
  induction items as [|[k v] r IH]; intros d Hnd; simpl.
  - now rewrite List.app_nil_r.
  - rewrite dict_set_fresh.
    + rewrite IH; rewrite <- List.app_assoc; [reflexivity|exact Hnd].
    + rewrite map_app in Hnd. simpl in Hnd.
      apply NoDup_remove_2 in Hnd. intros Hin. apply Hnd.
      apply in_or_app. now left.
Qed.

(** [dict(pairs)] is [pairs] when no key comes twice. *)
Lemma dict_of_items_distinct items :
  NoDup (map fst items) -> dict_of_items items = items.
Proof. intros H. unfold dict_of_items. now rewrite fold_dict_set_distinct. Qed.

Lemma fold_dict_set_keys items : forall d k,
  dict_mem (fold_left (fun acc kv => dict_set acc (fst kv) (snd kv)) items d) k
  = true ->
  dict_mem d k = true \/ In k (map fst items).
Proof.
  induction items as [|[k0 v0] r IH]; intros d k H; simpl in *.
  - now left.
  - apply IH in H. destruct H as [H|H]; [|now right; right].
    unfold dict_mem in H. rewrite dict_get_set in H.
    destruct (key_eqb_spec k0 k) as [->|Hne]; [right; now left|].
    left. exact H.
Qed.

(** The keys of [dict(pairs)] are keys of [pairs]. *)
Lemma dict_of_items_keys items k :
  dict_mem (dict_of_items items) k = true -> In k (map fst items).
Proof.
  intros H. apply fold_dict_set_keys in H. destruct H as [H|H]; [|exact H].
  discriminate H.
Qed.

Lemma dict_get_combine (ks : list pykey) : forall (vs : list V) j k v,
  NoDup ks -> nth_error ks j = Some k -> nth_error vs j = Some v ->
  dict_get (combine ks vs) k = Some v.
Proof.
  induction ks as [|k0 r IH]; intros vs j k v Hnd Hk Hv.
  - destruct j; discriminate.
  - destruct vs as [|v0 vs]; [destruct j; discriminate|].
    inversion Hnd; subst. destruct j as [|j]; simpl in *.
    + injection Hk as ->. injection Hv as ->. now rewrite key_eqb_refl.
    + destruct (key_eqb_spec k0 k) as [->|Hne].
      * exfalso. apply nth_error_In in Hk. contradiction.
      * eapply IH; eassumption.
Qed.

Lemma combine_keys (ks : list pykey) (vs : list V) k :
  In k (map fst (combine ks vs)) -> In k ks.
Proof.
  revert vs. induction ks as [|k0 r IH]; intros [|v0 vs]; simpl; try tauto.
  intros [H|H]; [now left|right; eauto].
Qed.

Lemma combine_keys_NoDup (ks : list pykey) : forall (vs : list V),
  NoDup ks -> NoDup (map fst (combine ks vs)).
Proof.
  induction ks as [|k0 r IH]; intros [|v0 vs] H; simpl; try constructor.
  - inversion H; subst. intros Hin. apply combine_keys in Hin. contradiction.
  - inversion H; subst. now apply IH.
Qed.
Lemma fold_dict_set_other items : forall d k,
  ~ In k (map fst items) ->
  dict_get (fold_left (fun acc kv => dict_set acc (fst kv) (snd kv)) items d) k
  = dict_get d k.
Proof.
  induction items as [|[k0 v0] r IH]; intros d k Hk; simpl in *; [reflexivity|].
  rewrite IH by tauto. rewrite dict_get_set.
  destruct (key_eqb_spec k0 k) as [->|Hne]; [tauto|reflexivity].
Qed.

Lemma fold_dict_set_last (ks : list pykey) : forall (vs : list V) d j k v,
  nth_error ks j = Some k -> nth_error vs j = Some v ->
  ~ In k (skipn (S j) ks) ->
  dict_get (fold_left (fun acc kv => dict_set acc (fst kv) (snd kv))
                      (combine ks vs) d) k
  = Some v.
Proof.
  induction ks as [|k0 r IH]; intros vs d j k v Hk Hv Hlast.
  - destruct j; discriminate.
  - destruct vs as [|v0 vs]; [destruct j; discriminate|].
    destruct j as [|j]; simpl in *.
    + injection Hk as ->. injection Hv as ->.
      rewrite fold_dict_set_other.
      * now rewrite dict_get_set, key_eqb_refl.
      * intros Hin. apply Hlast. eapply combine_keys; eassumption.
    + eapply IH; eassumption.
Qed.

(** [dict(zip(keys, values))]: a key holds the value at its place among the
    keys, at its last place when it comes several times. *)
Lemma dict_of_items_last (ks : list pykey) (vs : list V) j k v :
  nth_error ks j = Some k -> nth_error vs j = Some v ->
  ~ In k (skipn (S j) ks) ->
  dict_get (dict_of_items (combine ks vs)) k = Some v.
Proof. apply fold_dict_set_last. Qed.
End DictFacts.

(* ===================================================================== *)
(** ** Induction on values *)
(* ===================================================================== *)

Lemma pyval_induction (P : pyval -> Prop) :
  (forall s, P (PScalar s)) ->
  (forall l, Forall P l -> P (PList l)) ->
  (forall l, Forall P l -> P (PTuple l)) ->
  (forall d, Forall (fun kv => P (snd kv)) d -> P (PDict d)) ->
  forall v, P v.
Proof.
  intros Hs Hl Ht Hd. fix IH 1. intros [s|l|l|d].
  - apply Hs.
  - apply Hl. induction l as [|x r IHl]; constructor; [apply IH|exact IHl].
  - apply Ht. induction l as [|x r IHl]; constructor; [apply IH|exact IHl].
  - apply Hd. induction d as [|[k x] r IHd]; constructor; [apply IH|exact IHd].
Qed.

Lemma data_induction (P : data -> Prop) :
  (forall df, P (DFrame df)) ->
  (forall items, P (DSeries items)) ->
  (forall d, Forall (fun kv => P (snd kv)) d -> P (DDict d)) ->
  (forall l, Forall P l -> P (DList l)) ->
  (forall l, Forall P l -> P (DTuple l)) ->
  (forall s, P (DScalar s)) ->
  forall x, P x.
Proof.
  intros Hf Hse Hd Hl Ht Hs. fix IH 1. intros [df|items|d|l|l|s].
  - apply Hf.
  - apply Hse.
  - apply Hd. induction d as [|[k x] r IHd]; constructor; [apply IH|exact IHd].
  - apply Hl. induction l as [|x r IHl]; constructor; [apply IH|exact IHl].
  - apply Ht. induction l as [|x r IHl]; constructor; [apply IH|exact IHl].
  - apply Hs.
Qed.

Lemma mapM_Forall2 {A B : Type} (f : A -> result B) l l' :
  mapM f l = Return l' <-> Forall2 (fun x y => f x = Return y) l l'.
Proof.
  revert l'. induction l as [|x r IH]; intros l'; simpl.
  - split.
    + intros [= <-]. constructor.
    + intros H. inversion H. reflexivity.
  - split.
    + destruct (f x) as [y|e] eqn:Ex; simpl; [|discriminate].
      destruct (mapM f r) as [ys|e] eqn:Er; simpl; [|discriminate].
      intros [= <-]. constructor; [exact Ex|]. now apply IH.
    + intros H. inversion H as [|? y ? ys Hx Hr]; subst.
      rewrite Hx. simpl. apply IH in Hr. rewrite Hr. reflexivity.
Qed.

Lemma mapM_length {A B : Type} (f : A -> result B) l l' :
  mapM f l = Return l' -> length l' = length l.
Proof.
  intros H. apply mapM_Forall2 in H. symmetry. eapply Forall2_length; eauto.
Qed.

(* ===================================================================== *)
(** ** The normalizer *)
(* ===================================================================== *)

(** C6: not-a-number is normalized to [None].  The test for a missing value
    comes before the branch that returns a value as it is, so no input at all
    is normalized to not-a-number. *)
Theorem nan_normalized_to_null :
  convert_to_json_serializable (DScalar (SFloat FNaN)) = Return (PScalar SNone)
  /\ (forall s, isna s = true ->
        convert_to_json_serializable (DScalar s) = Return (PScalar SNone))
  /\ (forall d, convert_to_json_serializable d
                <> Return (PScalar (SFloat FNaN))).
Proof.
  split; [reflexivity|]. split.
  - intros s Hs. simpl. now rewrite Hs.
  - intros [df|items|d|l|l|s]; simpl.
    + match goal with |- bind ?m _ <> _ => destruct m end; simpl; discriminate.
    + discriminate.
    + destruct (mapM _ d); simpl; discriminate.
    + destruct (mapM _ l); simpl; discriminate.
    + destruct (mapM _ l); simpl; discriminate.
    + destruct (isna s) eqn:E; [discriminate|].
      intros [= ->]. discriminate E.
Qed.

Lemma nan_normalized_to_null_witness :
  convert_to_json_serializable (DScalar SNaT) = Return (PScalar SNone).
Proof.
  apply (proj1 (proj2 nan_normalized_to_null)). reflexivity.
Defined.

(** C2, as the code has it: an empty list or tuple and each missing marker
    ([None], not-a-number, [NaT]) are rendered as the title followed by
    [": No data available"].  An empty mapping is not: it is rendered as its
    JSON text, an opening and a closing brace. *)
Theorem format_response_no_data (title : string) :
  format_response (DList []) title = title ++ ": No data available"
  /\ format_response (DTuple []) title = title ++ ": No data available"
  /\ format_response (DScalar SNone) title = title ++ ": No data available"
  /\ format_response (DScalar (SFloat FNaN)) title
     = title ++ ": No data available"
  /\ format_response (DScalar SNaT) title = title ++ ": No data available"
  /\ format_response (DDict []) title = title ++ ":" ++ nl ++ "{}".
Proof. repeat split. Qed.

(** C2 as stated fails on the empty mapping. *)
Lemma format_response_empty_mapping :
  format_response (DDict []) "Financial Data"
  <> "Financial Data" ++ ": No data available".
Proof. vm_compute. discriminate. Qed.

(** C3: [format_response] returns a text on every input.  When the normalizer
    raises, and when the normalized value is not empty and its serialization
    raises, the text is the title, [": Error formatting data - "] and the
    message of the exception; otherwise it is what the [try] block returns. *)
Theorem format_response_never_raises (d : data) (title : string) :
  (forall e, convert_to_json_serializable d = Raise e ->
     format_response d title
     = title ++ ": Error formatting data - " ++ exn_str e)
  /\ (forall json_data e,
        convert_to_json_serializable d = Return json_data ->
        no_data json_data = false ->
        json_dumps true json_data = Raise e ->
        format_response d title
        = title ++ ": Error formatting data - " ++ exn_str e)
  /\ (forall text, format_response_try d title = Return text ->
        format_response d title = text)
  /\ exists text, format_response d title = text.
Proof.
  unfold format_response, format_response_try. repeat split.
  - intros e ->. reflexivity.
  - intros j e Hc Hn Hd. rewrite Hc. simpl. rewrite Hn, Hd. reflexivity.
  - intros text ->. reflexivity.
  - eexists. reflexivity.
Qed.

Lemma format_response_never_raises_witness :
  format_response (DFrame clash_frame) "Quotes"
  = "Quotes: Error formatting data - cannot insert symbol, already exists"
  /\ format_response tuple_series "Quotes"
     = "Quotes: Error formatting data - keys must be str, int, float, bool or None, not tuple".
Proof.
  split.
  - apply (proj1 (format_response_never_raises (DFrame clash_frame) "Quotes")
                 (ValueError "cannot insert symbol, already exists")).
    reflexivity.
  - apply (proj1 (proj2 (format_response_never_raises tuple_series "Quotes"))
                 (PDict [(KTuple "('AAPL', 'price')" [KStr "AAPL"; KStr "price"],
                         PScalar (SInt 189))])
                 (TypeError "keys must be str, int, float, bool or None, not tuple"));
      reflexivity.
Defined.

(** *** Tables *)

Lemma to_dict_records_nth df i row :
  nth_error (df_rows df) i = Some row ->
  nth_error (to_dict_records df) i
  = Some (dict_of_items (combine (df_columns df) row)).
Proof.
  intros H. unfold to_dict_records. rewrite nth_error_map, H. reflexivity.
Qed.

Lemma to_dict_records_keys df row k :
  In row (to_dict_records df) -> dict_mem row k = true ->
  key_in k (df_columns df) = true.
Proof.
  unfold to_dict_records. intros Hin Hk. apply in_map_iff in Hin.
  destruct Hin as (cells & <- & _). apply dict_of_items_keys in Hk.
  apply key_in_In. eapply combine_keys; eassumption.
Qed.

(** C5: a table under a positional index without a name (or with a name that
    counts as false: the empty text, zero, the empty tuple) is normalized to
    the list of its rows: as many mappings as rows, in the order of the rows,
    and the mapping at position [i] is made of the labels of the columns and
    the cells of row [i], as [dict(zip(columns, row))] makes it.  A label
    holds the cell of its column (of the last column that carries it, when
    several do); with distinct labels the mapping is the list of the pairs of
    a label and its cell, in the order of the columns.  No key of a mapping
    is anything but a column of the table: no column is made of the index. *)
Theorem default_index_rows_in_order (df : DataFrame) (start step : Z)
        (name : option pykey) :
  df_index df = RangeIndex start step name ->
  name = None \/ name = Some (KStr EmptyString) \/ name = Some (KInt 0)
  \/ (exists t, name = Some (KTuple t [])) ->
  exists rows,
    convert_to_json_serializable (DFrame df) = Return (PList (map PDict rows))
    /\ length rows = length (df_rows df)
    /\ (forall i cells,
          nth_error (df_rows df) i = Some cells ->
          exists row,
            nth_error rows i = Some row
            /\ row = dict_of_items (combine (df_columns df) cells)
            /\ (forall j label cell,
                  nth_error (df_columns df) j = Some label ->
                  nth_error cells j = Some cell ->
                  ~ In label (skipn (S j) (df_columns df)) ->
                  dict_get row label = Some cell)
            /\ (NoDup (df_columns df) ->
                row = combine (df_columns df) cells))
    /\ (forall row k, In row rows -> dict_mem row k = true ->
          In k (df_columns df)).
Proof.
  intros Hidx Hname. exists (to_dict_records df). split; [|split; [|split]].
  - simpl. rewrite Hidx.
    destruct Hname as [->|[->|[->|[t ->]]]]; reflexivity.
  - unfold to_dict_records. apply length_map.
  - intros i cells Hcells.
    exists (dict_of_items (combine (df_columns df) cells)).
    split; [|split; [reflexivity|split]].
    + now apply to_dict_records_nth.
    + intros j label cell. apply dict_of_items_last.
    + intros Hnd. apply dict_of_items_distinct. now apply combine_keys_NoDup.
  - intros row k Hin Hk. apply key_in_In. eapply to_dict_records_keys; eassumption.
Qed.

Lemma default_index_rows_in_order_witness :
  convert_to_json_serializable (DFrame plain_frame)
  = Return (PList [PDict [(KStr "symbol", PScalar (SStr "AAPL"));
                          (KStr "price", PScalar (SInt 189))];
                   PDict [(KStr "symbol", PScalar (SStr "MSFT"));
                          (KStr "price", PScalar (SInt 411))]])
  /\ exists rows,
       convert_to_json_serializable (DFrame plain_frame)
       = Return (PList (map PDict rows))
       /\ length rows = 2%nat
       /\ (forall i cells,
             nth_error (df_rows plain_frame) i = Some cells ->
             exists row,
               nth_error rows i = Some row
               /\ row = dict_of_items (combine (df_columns plain_frame) cells)
               /\ (forall j label cell,
                     nth_error (df_columns plain_frame) j = Some label ->
                     nth_error cells j = Some cell ->
                     ~ In label (skipn (S j) (df_columns plain_frame)) ->
                     dict_get row label = Some cell)
               /\ (NoDup (df_columns plain_frame) ->
                   row = combine (df_columns plain_frame) cells))
       /\ (forall row k, In row rows -> dict_mem row k = true ->
             In k (df_columns plain_frame)).
Proof.
  split; [reflexivity|].
  apply (default_index_rows_in_order plain_frame 0 1 None);
    [reflexivity|now left].
Defined.

Lemma cons_column_nth values : forall rows i,
  nth_error (cons_column values rows) i
  = match nth_error values i, nth_error rows i with
    | Some v, Some r => Some (v :: r)
    | _, _ => None
    end.
Proof.
  induction values as [|v vs IH]; intros [|r rs] [|i]; simpl;
    try reflexivity; try apply IH;
    match goal with |- context [nth_error ?l ?n] => destruct (nth_error l n) end;
    reflexivity.
Qed.

Lemma cons_column_length values rows :
  length values = length rows ->
  length (cons_column values rows) = length rows.
Proof.
  revert rows. induction values as [|v vs IH]; intros [|r rs] H; simpl in *;
    try reflexivity; try discriminate.
  f_equal. apply IH. now injection H.
Qed.

(** The loop of [reset_index] when no level name is the name of another level
    or of a column: every level is in front of the columns, and row [i]
    holds, at the place of a level, the value of that level for row [i]. *)
Lemma insert_levels_ok levels : forall cols rows,
  NoDup (map fst levels) ->
  (forall name, In name (map fst levels) -> ~ In name cols) ->
  Forall (fun lv => length (snd lv) = length rows) levels ->
  exists rows',
    insert_levels levels cols rows = Return ((map fst levels ++ cols)%list, rows')
    /\ length rows' = length rows
    /\ forall name values i key,
         In (name, values) levels -> nth_error values i = Some key ->
         exists row j,
           nth_error rows' i = Some row
           /\ nth_error (map fst levels ++ cols)%list j = Some name
           /\ ~ In name (skipn (S j) (map fst levels ++ cols)%list)
           /\ nth_error row j = Some (val_of_key key).
Proof.
  induction levels as [|[name0 values0] r IH]; intros cols rows Hnd Hcols Hlen.
  - exists rows. repeat split. intros ? ? ? ? [].
  - simpl in Hnd. inversion Hnd as [|? ? Hnotin Hnd']; subst.
    inversion Hlen as [|? ? Hlen0 Hlen']; subst. simpl in Hlen0.
    assert (Hcols' : forall name, In name (map fst r) -> ~ In name cols)
      by (intros name Hin; apply Hcols; now right).
    assert (Hfresh : ~ In name0 (map fst r ++ cols)%list).
    { intros Hin. apply in_app_or in Hin. destruct Hin as [Hin|Hin];
        [contradiction|]. apply (Hcols name0); [now left|exact Hin]. }
    destruct (IH cols rows Hnd' Hcols' Hlen') as (rows1 & E1 & L1 & P1).
    exists (cons_column (map val_of_key values0) rows1).
    split; [|split].
    + simpl. rewrite E1. simpl. unfold insert_front.
      apply key_in_false in Hfresh. rewrite Hfresh. reflexivity.
    + rewrite cons_column_length; [exact L1|].
      rewrite length_map. congruence.
    + intros name values i key Hin Hkey.
      assert (Hi : (i < length rows1)%nat).
      { rewrite L1. destruct Hin as [Heq|Hin].
        - injection Heq as <- <-. rewrite <- Hlen0.
          apply nth_error_Some. congruence.
        - rewrite Forall_forall in Hlen'. specialize (Hlen' _ Hin).
          simpl in Hlen'. rewrite <- Hlen'. apply nth_error_Some. congruence. }
      assert (Hi0 : (i < length values0)%nat) by congruence.
      destruct (nth_error rows1 i) as [row1|] eqn:Erow;
        [|apply nth_error_None in Erow; lia].
      destruct (nth_error values0 i) as [key0|] eqn:Ekey0;
        [|apply nth_error_None in Ekey0; lia].
      exists (val_of_key key0 :: row1).
      destruct Hin as [Heq|Hin].
      * injection Heq as <- <-. exists 0%nat.
        rewrite cons_column_nth, nth_error_map, Ekey0, Erow. simpl.
        repeat split; [exact Hfresh|congruence].
      * destruct (P1 name values i key Hin Hkey) as (row & j & Hr & Hn & Hl & Hv).
        exists (S j). rewrite cons_column_nth, nth_error_map, Ekey0, Erow.
        simpl. repeat split; [exact Hn|exact Hl|congruence].
Qed.

Lemma range_values_length start step n :
  length (range_values start step n) = n.
Proof.
  revert start. induction n as [|k IH]; intros start; simpl; [reflexivity|].
  now rewrite IH.
Qed.

Lemma fill_missing_names_length names : forall i,
  length (fill_missing_names i names) = length names.
Proof.
  induction names as [|[n|] r IH]; intros i; simpl; [reflexivity| |];
    now rewrite IH.
Qed.

Lemma index_levels_lengths df :
  wf_frame df ->
  Forall (fun lv => length (snd lv) = length (df_rows df)) (index_levels df).
Proof.
  unfold wf_frame, index_levels. destruct (df_index df) as [s st n|n vs|levels].
  - intros _. constructor; [apply range_values_length|constructor].
  - intros H. constructor; [exact H|constructor].
  - intros H. apply Forall_forall. intros [name values] Hin.
    apply in_combine_r in Hin. apply in_map_iff in Hin.
    destruct Hin as (lv & Hlv & Hin). rewrite Forall_forall in H.
    simpl. rewrite <- Hlv. now apply H.
Qed.

(** The name of a named index is the name of the column that replaces it. *)
Lemma index_levels_name df n :
  index_name (df_index df) = Some n ->
  exists values, index_levels df = [(n, values)].
Proof.
  unfold index_levels.
  destruct (df_index df) as [s st n0|n0 vs|lv]; simpl; intros H;
    [subst n0|subst n0|discriminate]; eexists; reflexivity.
Qed.

Lemma insert_levels_cols levels : forall cols rows cols' rows',
  insert_levels levels cols rows = Return (cols', rows') ->
  cols' = (map fst levels ++ cols)%list.
Proof.
  induction levels as [|[name values] r IH]; intros cols rows cols' rows' H.
  - simpl in H. now injection H as <- _.
  - simpl in H. destruct (insert_levels r cols rows) as [[c1 r1]|] eqn:E;
      [|discriminate]. simpl in H. unfold insert_front in H.
    destruct (key_in name c1); [discriminate|]. injection H as <- _.
    simpl. f_equal. eapply IH; eassumption.
Qed.

(** [reset_index] raises as soon as the name of an index level is the label
    of a column. *)
Lemma reset_index_clash_raises df name :
  In name (map fst (index_levels df)) -> In name (df_columns df) ->
  exists e, reset_index df = Raise e.
Proof.
  unfold reset_index. generalize (index_levels df) as levels.
  intros levels Hl Hc.
  assert (H : exists e, insert_levels levels (df_columns df) (df_rows df)
                        = Raise e).
  { induction levels as [|[n values] r IH]; [destruct Hl|].
    simpl. destruct (insert_levels r (df_columns df) (df_rows df))
      as [[c1 r1]|e] eqn:E; [|now exists e].
    simpl. unfold insert_front.
    apply insert_levels_cols in E. subst c1.
    destruct Hl as [<-|Hl].
    - simpl. assert (Hin : key_in n (map fst r ++ df_columns df)%list = true)
        by (apply key_in_In, in_or_app; now right).
      rewrite Hin. eexists; reflexivity.
    - destruct (IH Hl) as [e He]. congruence. }
  destruct H as [e ->]. now exists e.
Qed.

Lemma range_values_nth n : forall start step i,
  (i < n)%nat ->
  nth_error (range_values start step n) i
  = Some (KInt (start + Z.of_nat i * step)).
Proof.
  induction n as [|n IH]; intros start step i Hi; [lia|].
  destruct i as [|i]; simpl range_values; cbn [nth_error].
  - do 2 f_equal. lia.
  - rewrite IH by lia. do 2 f_equal. lia.
Qed.

Lemma fill_missing_names_nth names : forall i k o,
  nth_error names k = Some o ->
  nth_error (fill_missing_names i names) k
  = Some (match o with
          | Some n => n
          | None => KStr ("level_" ++ str_of_Z (Z.of_nat (i + k)))
          end).
Proof.
  induction names as [|a r IH]; intros i k o Hk; [destruct k; discriminate|].
  destruct k as [|k].
  - injection Hk as ->. rewrite Nat.add_0_r. destruct o; reflexivity.
  - simpl in Hk. rewrite Nat.add_succ_r.
    destruct a; simpl; apply (IH (S i) k o Hk).
Qed.

Lemma combine_nth_error {A B : Type} (l : list A) : forall (l' : list B) k a b,
  nth_error l k = Some a -> nth_error l' k = Some b ->
  nth_error (combine l l') k = Some (a, b).
Proof.
  induction l as [|x l IH]; intros [|y l'] [|k] a b Ha Hb; try discriminate.
  - now injection Ha as ->; injection Hb as ->.
  - simpl in *. now apply IH.
Qed.

(** C4, as the code has it: a table whose index has a name that counts as
    true, or is no positional index, has its index levels put back as
    columns, provided no level name is the name of another level or of a
    column (an unnamed level is called [index], or [level_0] when [index] is
    a column; the unnamed levels of a [MultiIndex] are called [level_0],
    [level_1], ...).  A name counts as true unless it is the empty text, zero
    or the empty tuple.  The result then has one mapping per row, and the
    mapping of row [i] holds under the name of each level the index value of
    row [i]: the text, the integer, the [Timestamp] or [date], or the tuple
    that the index has for that row. *)
Theorem index_reinstated_as_columns (df : DataFrame) :
  match df_index df with
  | RangeIndex _ _ None => False
  | RangeIndex _ _ (Some n) =>
      n <> KStr EmptyString /\ n <> KInt 0 /\ forall t, n <> KTuple t []
  | PlainIndex _ _ => True
  | MultiIndex _ => True
  end ->
  wf_frame df ->
  NoDup (map fst (index_levels df)) ->
  (forall name, In name (map fst (index_levels df)) ->
                ~ In name (df_columns df)) ->
  exists rows,
    let holds (i : nat) (name key : pykey) :=
      exists row cell,
        nth_error rows i = Some row
        /\ dict_get row name = Some cell
        /\ match key with
           | KStr s => cell = PScalar (SStr s)
           | KInt z => cell = PScalar (SInt z)
           | KObj Timestamp t => cell = PScalar (SObj "Timestamp" t)
           | KObj Date t => cell = PScalar (SObj "date" t)
           | KTuple _ items => cell = PTuple (map val_of_key items)
           end in
    convert_to_json_serializable (DFrame df) = Return (PList (map PDict rows))
    /\ length rows = length (df_rows df)
    /\ (forall n, index_name (df_index df) = Some n ->
          exists values, index_levels df = [(n, values)])
    /\ (forall name values i key,
          In (name, values) (index_levels df) ->
          nth_error values i = Some key ->
          holds i name key)
    /\ (forall n values i key,
          df_index df = PlainIndex (Some n) values ->
          nth_error values i = Some key ->
          holds i n key)
    /\ (forall values i key,
          df_index df = PlainIndex None values ->
          nth_error values i = Some key ->
          (~ In (KStr "index") (df_columns df) -> holds i (KStr "index") key)
          /\ (In (KStr "index") (df_columns df) ->
              holds i (KStr "level_0") key))
    /\ (forall start step n i,
          df_index df = RangeIndex start step (Some n) ->
          (i < length (df_rows df))%nat ->
          holds i n (KInt (start + Z.of_nat i * step)))
    /\ (forall levels k name values i key,
          df_index df = MultiIndex levels ->
          nth_error levels k = Some (name, values) ->
          nth_error values i = Some key ->
          holds i (match name with
                   | Some n => n
                   | None => KStr ("level_" ++ str_of_Z (Z.of_nat k))
                   end) key).
Proof.
  intros Hre Hwf Hnd Hcols.
  destruct (insert_levels_ok (index_levels df) (df_columns df) (df_rows df)
              Hnd Hcols (index_levels_lengths df Hwf)) as (rows' & E & L & P).
  set (cols' := (map fst (index_levels df) ++ df_columns df)%list) in *.
  exists (to_dict_records (mkFrame (RangeIndex 0 1 None) cols' rows')).
  intros holds.
  assert (Hgen : forall name values i key,
             In (name, values) (index_levels df) ->
             nth_error values i = Some key -> holds i name key).
  { intros name values i key Hin Hkey.
    destruct (P name values i key Hin Hkey) as (row & j & Hr & Hn & Hl & Hv).
    exists (dict_of_items (combine cols' row)), (val_of_key key).
    split; [|split].
    - now apply (to_dict_records_nth (mkFrame (RangeIndex 0 1 None) cols' rows')).
    - eapply dict_of_items_last; eassumption.
    - destruct key as [s|z|[|] t|t items]; reflexivity. }
  split; [|split; [|split; [|split; [exact Hgen|]]]].
  - assert (Htest : name_truthy (index_name (df_index df))
                    || negb (is_range_index (df_index df)) = true).
    { destruct (df_index df) as [st sp [n|]|n vs|lv]; simpl;
        [|destruct Hre|apply orb_true_r|reflexivity].
      destruct Hre as (Hs & Hz & Ht). rewrite orb_false_r.
      destruct n as [s|z|c t|t items]; simpl.
      - destruct s; [congruence|reflexivity].
      - destruct (Z.eqb_spec z 0); [subst; congruence|reflexivity].
      - reflexivity.
      - destruct items; [now destruct (Ht t)|reflexivity]. }
    simpl. rewrite Htest.
    unfold reset_index. rewrite E. reflexivity.
  - unfold to_dict_records. simpl. now rewrite length_map.
  - apply index_levels_name.
  - split; [|split; [|split]].
    + intros n values i key Hidx Hkey. apply (Hgen n values); [|exact Hkey].
      unfold index_levels. rewrite Hidx. now left.
    + intros values i key Hidx Hkey. split; intros Hin.
      * apply (Hgen (KStr "index") values); [|exact Hkey].
        unfold index_levels. rewrite Hidx.
        apply key_in_false in Hin. rewrite Hin. now left.
      * apply (Hgen (KStr "level_0") values); [|exact Hkey].
        unfold index_levels. rewrite Hidx.
        apply key_in_In in Hin. rewrite Hin. now left.
    + intros start step n i Hidx Hi.
      apply (Hgen n (range_values start step (length (df_rows df)))).
      * unfold index_levels. rewrite Hidx. now left.
      * now apply range_values_nth.
    + intros levels k name values i key Hidx Hk Hkey.
      apply (Hgen _ values); [|exact Hkey].
      unfold index_levels. rewrite Hidx.
      apply (nth_error_In _ k). apply combine_nth_error.
      * rewrite (fill_missing_names_nth _ 0 k name); [reflexivity|].
        now rewrite nth_error_map, Hk.
      * now rewrite nth_error_map, Hk.
Qed.

Lemma index_reinstated_as_columns_witness :
  convert_to_json_serializable (DFrame symbol_frame)
  = Return (PList [PDict [(KStr "symbol", PScalar (SStr "AAPL"));
                          (KStr "price", PScalar (SInt 189))];
                   PDict [(KStr "symbol", PScalar (SStr "MSFT"));
                          (KStr "price", PScalar (SInt 411))]])
  /\ (exists rows,
        convert_to_json_serializable (DFrame symbol_frame)
        = Return (PList (map PDict rows))
        /\ length rows = 2%nat
        /\ (exists row cell,
              nth_error rows 1 = Some row
              /\ dict_get row (KStr "symbol") = Some cell
              /\ cell = PScalar (SStr "MSFT")))
  /\ (exists rows,
        convert_to_json_serializable (DFrame history_frame)
        = Return (PList (map PDict rows))
        /\ length rows = 2%nat
        /\ (exists row cell,
              nth_error rows 0 = Some row
              /\ dict_get row (KStr "date") = Some cell
              /\ cell = PScalar (SObj "date" "2024-01-02"))).
Proof.
  split; [reflexivity|]. split.
  - destruct (index_reinstated_as_columns symbol_frame)
      as (rows & Hc & Hl & _ & _ & Hplain & _).
    + exact I.
    + reflexivity.
    + repeat constructor. simpl. tauto.
    + intros name Hin Hc. simpl in Hin, Hc.
      destruct Hin as [<-|[]]. destruct Hc as [Hc|[]]. discriminate Hc.
    + exists rows. split; [exact Hc|]. split; [exact Hl|].
      apply (Hplain (KStr "symbol") [KStr "AAPL"; KStr "MSFT"] 1%nat
                    (KStr "MSFT")); reflexivity.
  - destruct (index_reinstated_as_columns history_frame)
      as (rows & Hc & Hl & _ & _ & _ & _ & _ & Hmulti).
    + exact I.
    + repeat constructor.
    + repeat constructor; simpl; intuition discriminate.
    + intros name Hin Hc. simpl in Hin, Hc.
      destruct Hin as [<-|[<-|[]]]; destruct Hc as [Hc|[]]; discriminate Hc.
    + exists rows. split; [exact Hc|]. split; [exact Hl|].
      apply (Hmulti _ 1%nat (Some (KStr "date"))
                    [KObj Date "2024-01-02"; KObj Date "2024-01-03"] 0%nat
                    (KObj Date "2024-01-02") eq_refl); reflexivity.
Defined.

(** C4 as stated fails on a table whose named index has the name of a
    column: the normalizer raises and returns no rows. *)
Lemma named_index_clash_raises :
  index_name (df_index clash_frame) = Some (KStr "symbol")
  /\ wf_frame clash_frame
  /\ convert_to_json_serializable (DFrame clash_frame)
     = Raise (ValueError "cannot insert symbol, already exists")
  /\ forall v, convert_to_json_serializable (DFrame clash_frame) <> Return v.
Proof.
  repeat split. intros v. vm_compute. discriminate.
Qed.

(** *** A second pass of the normalizer *)

Lemma mapM_map {A B C : Type} (g : A -> B) (f : B -> result C) l :
  mapM f (map g l) = mapM (fun x => f (g x)) l.
Proof.
  induction l as [|x r IH]; simpl; [reflexivity|]. now rewrite IH.
Qed.

Lemma mapM_fixed {A : Type} (f : A -> result A) l :
  Forall (fun x => f x = Return x) l -> mapM f l = Return l.
Proof.
  induction 1 as [|x r Hx _ IH]; simpl; [reflexivity|].
  rewrite Hx. simpl. rewrite IH. reflexivity.
Qed.

Lemma mapM_fixed_inv {A : Type} (f : A -> result A) l :
  mapM f l = Return l -> Forall (fun x => f x = Return x) l.
Proof.
  intros H. apply mapM_Forall2 in H.
  induction l as [|x r IH]; [constructor|].
  inversion H; subst. constructor; [assumption|now apply IH].
Qed.

Lemma stable_scalar s :
  stable (PScalar s) = true <->
  convert_to_json_serializable (DScalar s) = Return (PScalar s).
Proof.
  simpl. destruct s as [|b|z|[|n|r]|t| |c t]; simpl; split;
    congruence || reflexivity.
Qed.

(** The values that a second pass returns as they are are the stable ones. *)
Lemma stable_iff_fixed v :
  stable v = true <-> convert_to_json_serializable (inject v) = Return v.
Proof.
  induction v as [s|l IH|l IH|d IH] using pyval_induction.
  - apply stable_scalar.
  - simpl. rewrite mapM_map, forallb_forall, <- Forall_forall. split.
    + intros H. rewrite mapM_fixed; [reflexivity|].
      rewrite Forall_forall in *. intros x Hx. apply IH; auto.
    + intros H.
      destruct (mapM _ l) as [l'|e] eqn:E; simpl in H; [|discriminate].
      injection H as ->. apply mapM_fixed_inv in E.
      rewrite Forall_forall in *. intros x Hx. apply IH; auto.
  - simpl. split; [discriminate|].
    destruct (mapM _ _); simpl; discriminate.
  - simpl. rewrite mapM_map, forallb_forall, <- Forall_forall. simpl. split.
    + intros H.
      rewrite (mapM_fixed (fun kv => v <- convert_to_json_serializable
                                          (inject (snd kv)) ;;
                                     Return (fst kv, v))); [reflexivity|].
      rewrite Forall_forall in *. intros [k x] Hx.
      specialize (IH _ Hx). specialize (H _ Hx). simpl in *.
      rewrite (proj1 IH H). reflexivity.
    + intros H.
      destruct (mapM _ d) as [d'|e] eqn:E; simpl in H; [|discriminate].
      injection H as ->. apply mapM_fixed_inv in E.
      rewrite Forall_forall in *. intros [k x] Hx.
      specialize (IH _ Hx). specialize (E _ Hx). simpl in *. apply IH.
      destruct (convert_to_json_serializable (inject x)); simpl in E;
        congruence.
Qed.

Lemma json_representable_stable v :
  json_representable v = true -> stable v = true.
Proof.
  induction v as [s|l IH|l IH|d IH] using pyval_induction; simpl.
  - destruct s as [|b|z|[|n|r]|t| |c t]; simpl; congruence.
  - rewrite !forallb_forall. rewrite Forall_forall in IH. auto.
  - discriminate.
  - rewrite andb_true_iff, !forallb_forall. rewrite Forall_forall in IH.
    intros [H _] kv Hkv. specialize (H kv Hkv).
    apply andb_true_iff in H. apply IH; tauto.
Qed.

(** Without tables and series the normalizer does not raise, and what it
    returns is stable. *)
Lemma convert_no_tables x :
  no_tables x = true ->
  exists v, convert_to_json_serializable x = Return v /\ stable v = true.
Proof.
  induction x as [df|items|d IH|l IH|l IH|s] using data_induction; simpl;
    try discriminate.
  - intros H. rewrite forallb_forall in H.
    assert (Hd : exists d',
               mapM (fun kv => v <- convert_to_json_serializable (snd kv) ;;
                               Return (fst kv, v)) d = Return d'
               /\ forallb (fun kv => stable (snd kv)) d' = true).
    { induction d as [|[k x] r IHd]; [exists []; split; reflexivity|].
      inversion IH as [|? ? Hx Hr]; subst.
      destruct (Hx (H _ (or_introl eq_refl))) as (v & Ev & Sv).
      destruct (IHd Hr (fun kv Hkv => H kv (or_intror Hkv))) as (d' & Ed & Sd).
      exists ((k, v) :: d'). simpl in *. rewrite Ev. simpl. rewrite Ed. simpl.
      rewrite Sv, Sd. split; reflexivity. }
    destruct Hd as (d' & Ed & Sd). exists (PDict d'). rewrite Ed. now split.
  - intros H. rewrite forallb_forall in H.
    assert (Hl : exists l',
               mapM convert_to_json_serializable l = Return l'
               /\ forallb stable l' = true).
    { induction l as [|x r IHl]; [exists []; split; reflexivity|].
      inversion IH as [|? ? Hx Hr]; subst.
      destruct (Hx (H _ (or_introl eq_refl))) as (v & Ev & Sv).
      destruct (IHl Hr (fun y Hy => H y (or_intror Hy))) as (l' & El & Sl).
      exists (v :: l'). simpl. rewrite Ev. simpl. rewrite El. simpl.
      rewrite Sv, Sl. split; reflexivity. }
    destruct Hl as (l' & El & Sl). exists (PList l'). rewrite El. now split.
  - intros H. rewrite forallb_forall in H.
    assert (Hl : exists l',
               mapM convert_to_json_serializable l = Return l'
               /\ forallb stable l' = true).
    { induction l as [|x r IHl]; [exists []; split; reflexivity|].
      inversion IH as [|? ? Hx Hr]; subst.
      destruct (Hx (H _ (or_introl eq_refl))) as (v & Ev & Sv).
      destruct (IHl Hr (fun y Hy => H y (or_intror Hy))) as (l' & El & Sl).
      exists (v :: l'). simpl. rewrite Ev. simpl. rewrite El. simpl.
      rewrite Sv, Sl. split; reflexivity. }
    destruct Hl as (l' & El & Sl). exists (PList l'). rewrite El. now split.
  - intros _. destruct (isna s) eqn:E.
    + exists (PScalar SNone). now split.
    + exists (PScalar s). split; [reflexivity|].
      simpl. destruct s as [|b|z|[|n|r]|t| |c t]; simpl in *; congruence.
Qed.

(** C7, as the code has it: a second pass returns a normalized value as it
    is exactly when the value holds no missing marker other than [None] and
    no tuple; every JSON-representable value is such a value.  Normalizing
    twice is normalizing once for every input without tables and series. *)
Theorem normalizer_idempotent_on_stable_values :
  (forall v, json_representable v = true ->
     convert_to_json_serializable (inject v) = Return v)
  /\ (forall v, stable v = true <->
        convert_to_json_serializable (inject v) = Return v)
  /\ (forall x, no_tables x = true ->
        exists v,
          convert_to_json_serializable x = Return v
          /\ convert_to_json_serializable (inject v) = Return v).
Proof.
  split; [|split].
  - intros v H. apply stable_iff_fixed. now apply json_representable_stable.
  - apply stable_iff_fixed.
  - intros x H. destruct (convert_no_tables x H) as (v & Ev & Sv).
    exists v. split; [exact Ev|]. now apply stable_iff_fixed.
Qed.

Lemma normalizer_idempotent_on_stable_values_witness :
  convert_to_json_serializable
    (inject (PDict [(KStr "price", PScalar (SFloat (FFinite "189.5")));
                    (KStr "tags", PList [PScalar (SStr "tech")])]))
  = Return (PDict [(KStr "price", PScalar (SFloat (FFinite "189.5")));
                   (KStr "tags", PList [PScalar (SStr "tech")])])
  /\ exists v,
       convert_to_json_serializable
         (DTuple [DScalar (SFloat FNaN); DScalar (SInt 1)]) = Return v
       /\ convert_to_json_serializable (inject v) = Return v.
Proof.
  split.
  - apply (proj1 normalizer_idempotent_on_stable_values). reflexivity.
  - apply (proj2 (proj2 normalizer_idempotent_on_stable_values)). reflexivity.
Defined.

(** C7 as stated fails on a series with a missing value: the first pass
    keeps the cell, the second makes it [None]. *)
Lemma second_pass_changes_nan_cell :
  convert_to_json_serializable nan_series
  = Return (PDict [(KStr "price", PScalar (SFloat FNaN))])
  /\ convert_to_json_serializable
       (inject (PDict [(KStr "price", PScalar (SFloat FNaN))]))
     = Return (PDict [(KStr "price", PScalar SNone)])
  /\ (v <- convert_to_json_serializable nan_series ;;
      convert_to_json_serializable (inject v))
     <> convert_to_json_serializable nan_series.
Proof.
  repeat split. vm_compute. discriminate.
Qed.

(* ===================================================================== *)
(** ** search_symbols *)
(* ===================================================================== *)

Lemma format_quote_keys quote :
  dict_keys (format_quote quote)
  = [KStr "symbol"; KStr "name"; KStr "type"; KStr "exchange"].
Proof. reflexivity. Qed.

(** C9: at most ten entries are made, one for each of the first ten quotes
    and in their order; an entry has the four keys [symbol], [name], [type]
    and [exchange], each holding the field of the quote or, when the quote
    has no such field, the empty text ([name] is the long name, else the
    short name); the response is the JSON text of these entries under the
    heading of the query. *)
Theorem search_symbols_first_ten (quotes : list (list (pykey * pyval))) :
  formatted_results quotes = map format_quote (firstn 10 quotes)
  /\ length (formatted_results quotes) = Nat.min 10 (length quotes)
  /\ (length (formatted_results quotes) <= 10)%nat
  /\ Forall (fun entry =>
               dict_keys entry
               = [KStr "symbol"; KStr "name"; KStr "type"; KStr "exchange"])
            (formatted_results quotes)
  /\ (forall quote,
        dict_get (format_quote quote) (KStr "symbol")
        = Some (match dict_get quote (KStr "symbol") with
                | Some v => v | None => PScalar (SStr EmptyString) end)
        /\ dict_get (format_quote quote) (KStr "name")
           = Some (match dict_get quote (KStr "longname") with
                   | Some v => v
                   | None =>
                       match dict_get quote (KStr "shortname") with
                       | Some v => v | None => PScalar (SStr EmptyString) end
                   end)
        /\ dict_get (format_quote quote) (KStr "type")
           = Some (match dict_get quote (KStr "quoteType") with
                   | Some v => v | None => PScalar (SStr EmptyString) end)
        /\ dict_get (format_quote quote) (KStr "exchange")
           = Some (match dict_get quote (KStr "exchange") with
                   | Some v => v | None => PScalar (SStr EmptyString) end))
  /\ (forall query text,
        json_dumps false (PList (map PDict (formatted_results quotes)))
        = Return text ->
        search_symbols query (Return (Some quotes))
        = "Search Results for '" ++ query ++ "':" ++ nl ++ text).
Proof.
  unfold formatted_results. split; [reflexivity|].
  split; [now rewrite length_map, length_firstn|].
  split; [rewrite length_map, length_firstn; apply Nat.le_min_l|].
  split; [apply Forall_forall; intros entry H; apply in_map_iff in H;
          destruct H as (q & <- & _); apply format_quote_keys|].
  split; [intros quote; repeat split|].
  intros query text H. unfold search_symbols, search_symbols_try. simpl.
  unfold formatted_results. rewrite H. reflexivity.
Qed.

Lemma search_symbols_first_ten_witness :
  exists text,
    json_dumps false
      (PList (map PDict (formatted_results
         [[(KStr "symbol", PScalar (SStr "AAPL"));
           (KStr "shortname", PScalar (SStr "Apple Inc."))]]))) = Return text
    /\ search_symbols "apple"
         (Return (Some [[(KStr "symbol", PScalar (SStr "AAPL"));
                         (KStr "shortname", PScalar (SStr "Apple Inc."))]]))
       = "Search Results for '" ++ "apple" ++ "':" ++ nl ++ text.
Proof.
  eexists. split; [reflexivity|].
  apply (proj2 (proj2 (proj2 (proj2 (proj2
           (search_symbols_first_ten
              [[(KStr "symbol", PScalar (SStr "AAPL"));
                (KStr "shortname", PScalar (SStr "Apple Inc."))]])))))).
  reflexivity.
Defined.

(* ===================================================================== *)
(** ** Reading back what json.dumps writes *)
(* ===================================================================== *)

(** *** Text *)

Lemma append_assoc (a b c : string) : (a ++ b) ++ c = a ++ (b ++ c).
Proof. induction a as [|x a IH]; simpl; [reflexivity|now rewrite IH]. Qed.

Lemma append_empty_r (a : string) : a ++ EmptyString = a.
Proof. induction a as [|x a IH]; simpl; [reflexivity|now rewrite IH]. Qed.

Lemma length_append (a b : string) :
  String.length (a ++ b) = (String.length a + String.length b)%nat.
Proof. induction a as [|x a IH]; simpl; [reflexivity|now rewrite IH]. Qed.

Lemma skip_ws_spaces n s : skip_ws (spaces n ++ s) = skip_ws s.
Proof. induction n as [|k IH]; simpl; [reflexivity|exact IH]. Qed.

Lemma skip_ws_newline_indent lvl s :
  skip_ws (newline_indent lvl ++ s) = skip_ws s.
Proof. unfold newline_indent, nl. simpl. apply skip_ws_spaces. Qed.

Lemma skip_ws_start c s : is_ws c = false -> skip_ws (String c s) = String c s.
Proof. intros H. simpl. now rewrite H. Qed.

(** Reading an escaped character gives the character. *)
Lemma scanstring_escape_char c r :
  scanstring (escape_char c ++ r) = cons_char c (scanstring r).
Proof.
  destruct c as [[|] [|] [|] [|] [|] [|] [|] [|]]; reflexivity.
Qed.

Lemma scanstring_escape_string t rest :
  scanstring (escape_string t ++ String dquote rest) = Some (t, rest).
Proof.
  induction t as [|c t IH]; simpl; [reflexivity|].
  rewrite append_assoc, scanstring_escape_char, IH. reflexivity.
Qed.

(** *** Numbers *)

Lemma span_digits_consumed s : forall ds r,
  span_digits s = (ds, r) -> s = ds ++ r.
Proof.
  induction s as [|c s IH]; simpl; intros ds r H.
  - now injection H as <- <-.
  - destruct (is_digit c).
    + destruct (span_digits s) as [ds' r'] eqn:E. injection H as <- <-.
      simpl. f_equal. now apply IH.
    + now injection H as <- <-.
Qed.

Lemma delimited_no_digit rest : delimited rest = true -> no_digit_start rest = true.
Proof.
  destruct rest as [|c r]; simpl; [reflexivity|].
  destruct (is_digit c); simpl; [discriminate|reflexivity].
Qed.

(** A run of digits read from a longer text is the same run, when the text
    added does not start with a digit or the run was not at the end. *)
Lemma span_digits_app s rest : forall ds r,
  span_digits s = (ds, r) ->
  r <> EmptyString \/ no_digit_start rest = true ->
  span_digits (s ++ rest) = (ds, r ++ rest).
Proof.
  induction s as [|c s IH]; simpl; intros ds r H Hr.
  - injection H as <- <-. destruct Hr as [Hr|Hr]; [congruence|].
    destruct rest as [|c r]; simpl in *; [reflexivity|].
    now destruct (is_digit c).
  - destruct (is_digit c).
    + destruct (span_digits s) as [ds' r'] eqn:E. injection H as <- <-.
      now rewrite (IH ds' r' eq_refl Hr).
    + now injection H as <- <-.
Qed.

Lemma scan_integer_consumed s i r : scan_integer s = Some (i, r) -> s = i ++ r.
Proof.
  unfold scan_integer.
  assert (H0 : forall sign s1,
             match s1 with
             | EmptyString => None
             | String c r0 =>
                 if Ascii.eqb c "0" then Some (sign ++ "0", r0)
                 else if is_digit c then
                   let '(ds, rest) := span_digits r0 in
                   Some (sign ++ String c ds, rest)
                 else None
             end = Some (i, r) -> sign ++ s1 = i ++ r).
  { intros sign [|c r0]; [discriminate|].
    destruct (Ascii.eqb_spec c "0") as [->|Hc].
    - intros [= <- <-]. now rewrite append_assoc.
    - destruct (is_digit c); [|discriminate].
      destruct (span_digits r0) as [ds rest] eqn:E. intros [= <- <-].
      apply span_digits_consumed in E. subst r0.
      now rewrite append_assoc. }
  destruct s as [|c s'].
  - intros H. apply (H0 EmptyString EmptyString H).
  - destruct (Ascii.eqb_spec c "-") as [->|Hc].
    + intros H. apply (H0 "-" s' H).
    + intros H. apply (H0 EmptyString (String c s') H).
Qed.

Lemma scan_integer_app s rest i r :
  scan_integer s = Some (i, r) -> no_digit_start rest = true ->
  scan_integer (s ++ rest) = Some (i, r ++ rest).
Proof.
  unfold scan_integer. intros H Hrest.
  assert (H0 : forall sign s1,
             match s1 with
             | EmptyString => None
             | String c r0 =>
                 if Ascii.eqb c "0" then Some (sign ++ "0", r0)
                 else if is_digit c then
                   let '(ds, rest) := span_digits r0 in
                   Some (sign ++ String c ds, rest)
                 else None
             end = Some (i, r) ->
             match s1 ++ rest with
             | EmptyString => None
             | String c r0 =>
                 if Ascii.eqb c "0" then Some (sign ++ "0", r0)
                 else if is_digit c then
                   let '(ds, rest) := span_digits r0 in
                   Some (sign ++ String c ds, rest)
                 else None
             end = Some (i, r ++ rest)).
  { intros sign [|c r0]; [discriminate|]. simpl.
    destruct (Ascii.eqb c "0"); [now intros [= <- <-]|].
    destruct (is_digit c); [|discriminate].
    destruct (span_digits r0) as [ds r1] eqn:E. intros [= <- <-].
    rewrite (span_digits_app r0 rest ds r1 E); [reflexivity|now right]. }
  destruct s as [|c s'].
  - discriminate H.
  - simpl. simpl in H. destruct (Ascii.eqb c "-").
    + apply (H0 "-" s' H).
    + apply (H0 EmptyString (String c s') H).
Qed.

Lemma scan_integer_start s i r :
  scan_integer s = Some (i, r) ->
  exists c s', s = String c s' /\ number_start c = true.
Proof.
  unfold scan_integer, number_start. destruct s as [|c s']; [discriminate|].
  intros H. exists c, s'. split; [reflexivity|].
  destruct (Ascii.eqb c "-") eqn:Ec; [apply orb_true_r|].
  destruct (Ascii.eqb_spec c "0") as [->|Hc]; [reflexivity|].
  destruct (is_digit c); [reflexivity|discriminate].
Qed.

Lemma scan_frac_consumed s f r : scan_frac s = (f, r) -> s = f ++ r.
Proof.
  unfold scan_frac. destruct s as [|c s']; [now intros [= <- <-]|].
  destruct (Ascii.eqb c "."); [|now intros [= <- <-]].
  destruct (span_digits s') as [ds r1] eqn:E.
  apply span_digits_consumed in E. subst s'.
  destruct ds; intros [= <- <-]; reflexivity.
Qed.

Lemma delimited_frac rest : delimited rest = true -> scan_frac rest = (EmptyString, rest).
Proof.
  destruct rest as [|c r]; simpl; [reflexivity|].
  destruct (is_digit c), (Ascii.eqb c "."); simpl; try discriminate; reflexivity.
Qed.

Lemma delimited_exp rest : delimited rest = true -> scan_exp rest = (EmptyString, rest).
Proof.
  destruct rest as [|c r]; simpl; [reflexivity|].
  destruct (is_digit c), (Ascii.eqb c "."), (Ascii.eqb c "e"), (Ascii.eqb c "E");
    simpl; try discriminate; reflexivity.
Qed.

(** The fraction read from a longer text is the same, when the text left
    after it is empty or an exponent. *)
Lemma scan_frac_app s rest f r :
  scan_frac s = (f, r) -> exp_start r = true -> delimited rest = true ->
  scan_frac (s ++ rest) = (f, r ++ rest).
Proof.
  unfold scan_frac. destruct s as [|c s'].
  - intros [= <- <-] _ Hrest. apply (delimited_frac rest Hrest).
  - simpl. destruct (Ascii.eqb_spec c ".") as [->|Hc].
    + destruct (span_digits s') as [ds r1] eqn:E. destruct ds as [|d ds].
      * intros [= <- <-] Hr. discriminate Hr.
      * intros [= <- <-] _ Hrest.
        rewrite (span_digits_app s' rest _ _ E); [reflexivity|].
        right. now apply delimited_no_digit.
    + now intros [= <- <-].
Qed.

Lemma scan_exp_consumed s e r : scan_exp s = (e, r) -> s = e ++ r.
Proof.
  unfold scan_exp. destruct s as [|c s']; [now intros [= <- <-]|].
  destruct (Ascii.eqb c "e" || Ascii.eqb c "E"); [|now intros [= <- <-]].
  destruct s' as [|g s''].
  - simpl. now intros [= <- <-].
  - destruct (Ascii.eqb g "-" || Ascii.eqb g "+").
    + destruct (span_digits s'') as [ds r1] eqn:E.
      apply span_digits_consumed in E. subst s''.
      destruct ds; intros [= <- <-]; reflexivity.
    + destruct (span_digits (String g s'')) as [ds r1] eqn:E.
      apply span_digits_consumed in E. rewrite E.
      destruct ds; intros [= <- <-]; reflexivity.
Qed.

Lemma scan_exp_start s e : scan_exp s = (e, EmptyString) -> exp_start s = true.
Proof.
  unfold scan_exp, exp_start. destruct s as [|c s']; [reflexivity|].
  destruct (Ascii.eqb c "e" || Ascii.eqb c "E"); [reflexivity|discriminate].
Qed.

(** An exponent that ends its text is read the same from a longer text. *)
Lemma scan_exp_app s rest e :
  scan_exp s = (e, EmptyString) -> delimited rest = true ->
  scan_exp (s ++ rest) = (e, rest).
Proof.
  unfold scan_exp. destruct s as [|c s'].
  - intros [= <-] Hrest. apply (delimited_exp rest Hrest).
  - simpl. destruct (Ascii.eqb c "e" || Ascii.eqb c "E"); [|discriminate].
    intros H Hrest. apply delimited_no_digit in Hrest.
    destruct s' as [|g s'']; [discriminate H|]. simpl.
    destruct (Ascii.eqb g "-" || Ascii.eqb g "+").
    + destruct (span_digits s'') as [ds r1] eqn:E.
      destruct ds as [|d ds]; [discriminate H|]. injection H as <- ->.
      rewrite (span_digits_app s'' rest _ _ E); [reflexivity|now right].
    + destruct (span_digits (String g s'')) as [ds r1] eqn:E.
      destruct ds as [|d ds]; [discriminate H|]. injection H as <- ->.
      change (String g (s'' ++ rest)) with (String g s'' ++ rest).
      rewrite (span_digits_app (String g s'') rest _ _ E); [reflexivity|now right].
Qed.

(** A number that is a whole text is read the same, and up to the text that
    follows, when that text cannot continue a number. *)
Lemma scan_number_app s rest x :
  scan_number s = Some (x, EmptyString) -> delimited rest = true ->
  scan_number (s ++ rest) = Some (x, rest).
Proof.
  unfold scan_number. intros H Hrest.
  destruct (scan_integer s) as [[i r]|] eqn:Ei; [|discriminate].
  destruct (scan_frac r) as [f r1] eqn:Ef.
  destruct (scan_exp r1) as [e r2] eqn:Ee.
  assert (r2 = EmptyString) by (destruct f, e; congruence). subst r2.
  rewrite (scan_integer_app s rest i r Ei (delimited_no_digit rest Hrest)).
  rewrite (scan_frac_app r rest f r1 Ef (scan_exp_start r1 e Ee) Hrest).
  rewrite (scan_exp_app r1 rest e Ee Hrest).
  destruct f, e; congruence.
Qed.

Lemma scan_number_start s x r :
  scan_number s = Some (x, r) ->
  exists c s', s = String c s' /\ number_start c = true.
Proof.
  unfold scan_number. destruct (scan_integer s) as [[i r0]|] eqn:Ei; [|discriminate].
  intros _. eapply scan_integer_start; eassumption.
Qed.

(** The float read from the [repr] of a float is that float. *)
Lemma scan_number_float_repr r :
  is_float_repr r = true ->
  scan_number r = Some (SFloat (FFinite r), EmptyString).
Proof.
  unfold is_float_repr, scan_number.
  destruct (scan_integer r) as [[i r0]|] eqn:Ei; [|discriminate].
  destruct (scan_frac r0) as [f r1] eqn:Ef.
  destruct (scan_exp r1) as [e r2] eqn:Ee.
  apply scan_integer_consumed in Ei. apply scan_frac_consumed in Ef.
  apply scan_exp_consumed in Ee. subst r r0 r1.
  unfold parse_float.
  destruct f as [|fc f]; [destruct e as [|ec e]|]; try discriminate;
    (destruct r2; [|discriminate]); intros _;
    now rewrite !append_empty_r.
Qed.

(** *** Integers *)

Lemma uint_digits d : string_forallb is_digit (NilEmpty.string_of_uint d) = true.
Proof. induction d; simpl; auto. Qed.

Lemma pos_to_uint_normal p : unorm (Pos.to_uint p) = Pos.to_uint p.
Proof.
  rewrite <- (DecimalPos.Unsigned.to_of (Pos.to_uint p)).
  now rewrite DecimalPos.Unsigned.of_to.
Qed.

(** The digits of a positive integer: a digit other than zero, then digits. *)
Lemma pos_digits p :
  exists c ds,
    NilEmpty.string_of_uint (Pos.to_uint p) = String c ds
    /\ is_digit c = true /\ Ascii.eqb c "0" = false
    /\ string_forallb is_digit ds = true.
Proof.
  pose proof (pos_to_uint_normal p) as Hn.
  pose proof (DecimalPos.Unsigned.to_uint_nonzero p) as Hz.
  pose proof (DecimalPos.Unsigned.to_uint_nonnil p) as Hnil.
  pose proof (uint_digits (Pos.to_uint p)) as Hd.
  destruct (Pos.to_uint p) as [|d|d|d|d|d|d|d|d|d|d] eqn:E;
    try congruence; simpl in Hd;
    try (eexists _, _; simpl;
         split; [reflexivity|split; [reflexivity|split; [reflexivity|exact Hd]]]).
  exfalso. rewrite unorm_D0 in Hn. unfold unorm in Hn.
  destruct (nzhead d) eqn:En; try congruence;
    apply (nzhead_nonzero d d); congruence.
Qed.

Lemma span_digits_all ds :
  string_forallb is_digit ds = true -> span_digits ds = (ds, EmptyString).
Proof.
  induction ds as [|c ds IH]; simpl; [reflexivity|].
  intros H. apply andb_true_iff in H. destruct H as [Hc Hds].
  now rewrite Hc, (IH Hds).
Qed.

Lemma str_of_Z_string_of_int z :
  str_of_Z z = NilEmpty.string_of_int (Z.to_int z).
Proof.
  unfold str_of_Z. destruct z as [|p|p]; simpl; [reflexivity| |];
    destruct (Pos.to_uint p) eqn:E; try reflexivity;
    now destruct (DecimalPos.Unsigned.to_uint_nonnil p).
Qed.

Lemma parse_int_str_of_Z z : parse_int (str_of_Z z) = z.
Proof.
  unfold parse_int. rewrite str_of_Z_string_of_int, NilEmpty.isi.
  apply DecimalZ.of_to.
Qed.

Lemma scan_integer_str_of_Z z :
  scan_integer (str_of_Z z) = Some (str_of_Z z, EmptyString).
Proof.
  rewrite str_of_Z_string_of_int. destruct z as [|p|p]; simpl.
  - reflexivity.
  - destruct (pos_digits p) as (c & ds & E & Hc & H0 & Hds). rewrite E.
    unfold scan_integer.
    assert (Hm : Ascii.eqb c "-" = false).
    { destruct (Ascii.eqb_spec c "-") as [->|]; [discriminate Hc|reflexivity]. }
    rewrite Hm, H0, Hc, (span_digits_all ds Hds). reflexivity.
  - destruct (pos_digits p) as (c & ds & E & Hc & H0 & Hds). rewrite E.
    unfold scan_integer. simpl.
    rewrite H0, Hc, (span_digits_all ds Hds). reflexivity.
Qed.

(** The integer read from the digits of an integer is that integer. *)
Lemma scan_number_str_of_Z z :
  scan_number (str_of_Z z) = Some (SInt z, EmptyString).
Proof.
  unfold scan_number. rewrite scan_integer_str_of_Z. simpl.
  now rewrite parse_int_str_of_Z.
Qed.

(** *** Values *)

Lemma number_start_facts c :
  number_start c = true ->
  is_ws c = false /\ Ascii.eqb c "]" = false /\ Ascii.eqb c dquote = false
  /\ Ascii.eqb c "{" = false /\ Ascii.eqb c "[" = false
  /\ Ascii.eqb "n" c = false /\ Ascii.eqb "t" c = false
  /\ Ascii.eqb "f" c = false.
Proof.
  destruct c as [[|] [|] [|] [|] [|] [|] [|] [|]]; simpl;
    intros H; try discriminate H; repeat split.
Qed.

(** A number is read back by [_scan_once]. *)
Lemma scan_once_number s x fuel rest :
  scan_number s = Some (x, EmptyString) -> delimited rest = true ->
  scan_once (S fuel) (s ++ rest) = Some (PScalar x, rest).
Proof.
  intros Hs Hrest. pose proof (scan_number_app s rest x Hs Hrest) as Happ.
  destruct (scan_number_start s x _ Hs) as (c & s' & -> & Hc).
  destruct (number_start_facts c Hc) as (_ & _ & Hq & Hb & Hk & Hn & Ht & Hf).
  simpl in *. rewrite Hq, Hb, Hk. unfold scan_literal. simpl.
  rewrite Hn, Ht, Hf, Happ. reflexivity.
Qed.

Lemma number_value_start s x :
  scan_number s = Some (x, EmptyString) -> value_start s = true.
Proof.
  intros Hs. destruct (scan_number_start s x _ Hs) as (c & s' & -> & Hc).
  destruct (number_start_facts c Hc) as (Hw & Hb & _). simpl.
  now rewrite Hw, Hb.
Qed.

Lemma scalar_reads_back lvl s :
  json_scalar s = true -> exists text, reads_back lvl (PScalar s) text.
Proof.
  unfold reads_back. destruct s as [|[|]|z|[|n|r]|t| |c t]; simpl;
    try discriminate; intros Hs.
  - exists "null". repeat split. intros [|fuel] rest Hf _; [lia|reflexivity].
  - exists "true". repeat split. intros [|fuel] rest Hf _; [lia|reflexivity].
  - exists "false". repeat split. intros [|fuel] rest Hf _; [lia|reflexivity].
  - exists (str_of_Z z). split; [reflexivity|]. split.
    + apply (number_value_start _ _ (scan_number_str_of_Z z)).
    + intros [|fuel] rest Hf Hrest; [lia|].
      apply scan_once_number; [apply scan_number_str_of_Z|exact Hrest].
  - exists r. split; [reflexivity|]. split.
    + apply (number_value_start _ _ (scan_number_float_repr r Hs)).
    + intros [|fuel] rest Hf Hrest; [lia|].
      apply scan_once_number; [now apply scan_number_float_repr|exact Hrest].
  - exists (encode_string t). repeat split.
    intros [|fuel] rest Hf _; [lia|]. unfold encode_string. simpl.
    rewrite append_assoc. simpl.
    now rewrite scanstring_escape_string.
Qed.

Lemma value_start_skip_ws text s :
  value_start text = true -> skip_ws (text ++ s) = text ++ s.
Proof.
  destruct text as [|c t]; [discriminate|]. simpl. intros H.
  apply andb_true_iff in H. destruct H as [H _].
  apply negb_true_iff in H. now rewrite H.
Qed.

Lemma join_cons_cons sep c c' cs :
  join sep (c :: c' :: cs) = c ++ sep ++ join sep (c' :: cs).
Proof. reflexivity. Qed.

Lemma join_value_start sep c cs :
  value_start c = true -> value_start (join sep (c :: cs)) = true.
Proof.
  destruct cs as [|c' cs]; [auto|]. rewrite join_cons_cons.
  destruct c; [discriminate|auto].
Qed.

Lemma delimited_newline_indent lvl s : delimited (newline_indent lvl ++ s) = true.
Proof. reflexivity. Qed.

(** The members of an array are read back, up to its closing bracket. *)
Lemma scan_items_join lvl' lvl l chunks :
  Forall2 (reads_back lvl') l chunks -> l <> [] ->
  forall fuel rest,
    (items_size size l <= fuel)%nat ->
    scan_items fuel
      (join ("," ++ newline_indent lvl') chunks
       ++ newline_indent lvl ++ "]" ++ rest)
    = Some (l, rest).
Proof.
  induction 1 as [|x c r cs Hx Hr IH]; intros Hne fuel rest Hfuel;
    [congruence|].
  destruct Hx as (_ & Hstart & Hread).
  destruct fuel as [|fuel]; [simpl in Hfuel; lia|].
  simpl in Hfuel. destruct Hr as [|y c' r' cs' Hy Hr'].
  - cbn [join scan_items].
    rewrite Hread; [|lia|reflexivity].
    rewrite skip_ws_newline_indent. reflexivity.
  - rewrite join_cons_cons.
    replace ((c ++ ("," ++ newline_indent lvl')
                ++ join ("," ++ newline_indent lvl') (c' :: cs'))
             ++ newline_indent lvl ++ "]" ++ rest)
      with (c ++ String ","
              (newline_indent lvl'
               ++ (join ("," ++ newline_indent lvl') (c' :: cs')
                   ++ newline_indent lvl ++ "]" ++ rest)))
      by (rewrite !append_assoc; reflexivity).
    cbn [scan_items].
    rewrite Hread; [|lia|reflexivity].
    rewrite skip_ws_start by reflexivity.
    cbn [Ascii.eqb Bool.eqb]. cbv iota.
    rewrite skip_ws_newline_indent.
    rewrite value_start_skip_ws
      by (apply join_value_start; apply Hy).
    rewrite (IH ltac:(discriminate) fuel rest ltac:(simpl in *; lia)).
    reflexivity.
Qed.

Lemma member_start lvl' kv chunk :
  member_reads_back lvl' kv chunk ->
  exists t, chunk = String dquote t.
Proof.
  intros (k & e & _ & -> & _). unfold encode_string. simpl. eexists; reflexivity.
Qed.

Lemma join_member_start sep lvl' kv chunk cs :
  member_reads_back lvl' kv chunk ->
  exists t, join sep (chunk :: cs) = String dquote t.
Proof.
  intros H. destruct (member_start _ _ _ H) as [t ->].
  destruct cs as [|c' cs]; [now exists t|].
  rewrite join_cons_cons. simpl. eexists; reflexivity.
Qed.

Lemma member_text k e s :
  (encode_string k ++ ": " ++ e) ++ s
  = String dquote
      (escape_string k ++ String dquote (String ":" (String " " (e ++ s)))).
Proof. unfold encode_string. simpl. rewrite !append_assoc. reflexivity. Qed.

Lemma sep_join_text n J tail :
  (("," ++ n) ++ J) ++ tail = String "," (n ++ (J ++ tail)).
Proof. rewrite !append_assoc. reflexivity. Qed.

Lemma skip_ws_blank s : skip_ws (String " " s) = skip_ws s.
Proof. reflexivity. Qed.

(** The members of an object are read back, from just after the opening
    quote of the first key up to the closing brace. *)
Lemma scan_pairs_join lvl' lvl d chunks :
  Forall2 (member_reads_back lvl') d chunks -> d <> [] ->
  forall fuel rest,
    (items_size (fun kv => size (snd kv)) d <= fuel)%nat ->
    exists t,
      join ("," ++ newline_indent lvl') chunks
      ++ newline_indent lvl ++ "}" ++ rest = String dquote t
      /\ scan_pairs fuel t = Some (d, rest).
Proof.
  induction 1 as [|[k0 v] c r cs Hx Hr IH]; intros Hne fuel rest Hfuel;
    [congruence|].
  destruct Hx as (k & e & Hk & -> & (_ & Hstart & Hread)).
  cbn [fst snd] in Hk, Hread. subst k0.
  destruct fuel as [|fuel]; [simpl in Hfuel; lia|].
  cbn [items_size fold_right snd] in Hfuel.
  destruct Hr as [|kv' c' r' cs' Hy Hr'].
  - eexists. split; [cbn [join]; rewrite member_text; reflexivity|].
    cbn [scan_pairs].
    rewrite scanstring_escape_string.
    rewrite skip_ws_start by reflexivity.
    cbn [Ascii.eqb Bool.eqb]. cbv iota.
    rewrite skip_ws_blank, value_start_skip_ws by exact Hstart.
    rewrite Hread; [|lia|reflexivity].
    rewrite skip_ws_newline_indent. reflexivity.
  - destruct (IH ltac:(discriminate) fuel rest
                 ltac:(unfold items_size in *; cbn [fold_right] in *; lia))
      as (t' & Hjoin & Hscan).
    eexists. split.
    + rewrite join_cons_cons, append_assoc, member_text, sep_join_text.
      reflexivity.
    + cbn [scan_pairs].
      rewrite scanstring_escape_string.
      rewrite skip_ws_start by reflexivity.
      cbn [Ascii.eqb Bool.eqb]. cbv iota.
      rewrite skip_ws_blank, value_start_skip_ws by exact Hstart.
      rewrite Hread; [|lia|reflexivity].
      rewrite skip_ws_start by reflexivity.
      cbn [Ascii.eqb Bool.eqb]. cbv iota.
      rewrite skip_ws_newline_indent, Hjoin.
      rewrite skip_ws_start by reflexivity.
      cbn [Ascii.eqb Bool.eqb]. cbv iota.
      rewrite Hscan. reflexivity.
Qed.

Lemma bracket_text opening closing lvl c cs rest :
  bracket opening closing lvl (c :: cs) ++ rest
  = opening ++ newline_indent (S lvl)
    ++ (join ("," ++ newline_indent (S lvl)) (c :: cs)
        ++ newline_indent lvl ++ closing ++ rest).
Proof. unfold bracket. rewrite !append_assoc. reflexivity. Qed.

Lemma value_start_head text :
  value_start text = true ->
  exists c t, text = String c t /\ is_ws c = false /\ Ascii.eqb c "]" = false.
Proof.
  destruct text as [|c t]; [discriminate|]. simpl. intros H.
  apply andb_true_iff in H. destruct H as [H1 H2].
  apply negb_true_iff in H1. apply negb_true_iff in H2. now exists c, t.
Qed.

Lemma encode_list default_str lvl l :
  encode default_str lvl (PList l)
  = (chunks <- mapM (encode default_str (S lvl)) l ;;
     Return (bracket "[" "]" lvl chunks)).
Proof. reflexivity. Qed.

Lemma encode_dict default_str lvl d :
  encode default_str lvl (PDict d)
  = (chunks <- mapM (fun kv => k <- encode_key (fst kv) ;;
                               e <- encode default_str (S lvl) (snd kv) ;;
                               Return (k ++ ": " ++ e)) d ;;
     Return (bracket "{" "}" lvl chunks)).
Proof. reflexivity. Qed.

(** Every JSON-representable value is written by [json.dumps] and read back
    from the text. *)
Lemma representable_reads_back v :
  json_representable v = true -> forall lvl, exists text, reads_back lvl v text.
Proof.
  induction v as [s|l IH|l IH|d IH] using pyval_induction; intros Hv lvl.
  - now apply scalar_reads_back.
  - simpl in Hv.
    assert (Hc : exists chunks, Forall2 (reads_back (S lvl)) l chunks).
    { clear -IH Hv. induction l as [|x r IHr]; [exists []; constructor|].
      simpl in Hv. apply andb_true_iff in Hv. destruct Hv as [Hx Hr].
      inversion IH as [|? ? Px Pr]; subst.
      destruct (Px Hx (S lvl)) as [c Hc]. destruct (IHr Pr Hr) as [cs Hcs].
      exists (c :: cs). now constructor. }
    destruct Hc as [chunks Hc].
    assert (He : mapM (encode true (S lvl)) l = Return chunks).
    { apply mapM_Forall2. eapply Forall2_impl; [|exact Hc].
      intros x c Hx. apply Hx. }
    exists (bracket "[" "]" lvl chunks). split; [|split].
    + rewrite encode_list, He. reflexivity.
    + destruct chunks; reflexivity.
    + intros fuel rest Hfuel Hrest.
      destruct fuel as [|fuel]; [simpl in Hfuel; lia|].
      destruct Hc as [|x c r cs Hx Hr]; [reflexivity|].
      rewrite bracket_text.
      assert (Hj : value_start (join ("," ++ newline_indent (S lvl)) (c :: cs))
                   = true) by (apply join_value_start; apply Hx).
      pose proof (scan_items_join (S lvl) lvl (x :: r) (c :: cs)
                    (Forall2_cons _ _ Hx Hr) ltac:(discriminate) fuel rest
                    ltac:(change (size (PList (x :: r)))
                            with (S (items_size size (x :: r))) in Hfuel;
                          lia)) as Hscan.
      revert Hj Hscan.
      generalize (join ("," ++ newline_indent (S lvl)) (c :: cs)) as J.
      intros J Hj Hscan.
      destruct (value_start_head J Hj) as (ch & J' & -> & Hws & Hbr).
      change ("[" ++ newline_indent (S lvl)
              ++ String ch J' ++ newline_indent lvl ++ "]" ++ rest)
        with (String "[" (newline_indent (S lvl)
              ++ String ch J' ++ newline_indent lvl ++ "]" ++ rest)).
      cbn [scan_once]. cbn [Ascii.eqb Bool.eqb]. cbv iota.
      rewrite skip_ws_newline_indent.
      change (String ch J' ++ newline_indent lvl ++ "]" ++ rest)
        with (String ch (J' ++ newline_indent lvl ++ "]" ++ rest)) in *.
      rewrite skip_ws_start by exact Hws.
      rewrite Hbr, Hscan. reflexivity.
  - discriminate Hv.
  - simpl in Hv. apply andb_true_iff in Hv. destruct Hv as [Hv Hnd].
    assert (Hc : exists chunks, Forall2 (member_reads_back (S lvl)) d chunks).
    { clear -IH Hv. induction d as [|[k x] r IHr]; [exists []; constructor|].
      simpl in Hv. apply andb_true_iff in Hv. destruct Hv as [Hx Hr].
      apply andb_true_iff in Hx. destruct Hx as [Hk Hx].
      inversion IH as [|? ? Px Pr]; subst. simpl in Px.
      destruct (Px Hx (S lvl)) as [e He]. destruct (IHr Pr Hr) as [cs Hcs].
      destruct k as [k| | |]; try discriminate Hk.
      exists ((encode_string k ++ ": " ++ e) :: cs). constructor; [|exact Hcs].
      exists k, e. repeat split; apply He. }
    destruct Hc as [chunks Hc].
    assert (He : mapM (fun kv => k <- encode_key (fst kv) ;;
                                 e <- encode true (S lvl) (snd kv) ;;
                                 Return (k ++ ": " ++ e)) d = Return chunks).
    { apply mapM_Forall2. eapply Forall2_impl; [|exact Hc].
      intros kv c (k & e & Hk & -> & (Henc & _)). rewrite Hk, Henc. reflexivity. }
    exists (bracket "{" "}" lvl chunks). split; [|split].
    + rewrite encode_dict, He. reflexivity.
    + destruct chunks; reflexivity.
    + intros fuel rest Hfuel Hrest.
      destruct fuel as [|fuel]; [simpl in Hfuel; lia|].
      destruct Hc as [|kv c r cs Hx Hr]; [reflexivity|].
      rewrite bracket_text.
      destruct (scan_pairs_join (S lvl) lvl (kv :: r) (c :: cs)
                  (Forall2_cons _ _ Hx Hr) ltac:(discriminate) fuel rest
                  ltac:(change (size (PDict (kv :: r)))
                          with (S (items_size (fun kv => size (snd kv))
                                              (kv :: r))) in Hfuel;
                        lia)) as (t & Ht & Hscan).
      rewrite Ht.
      change ("{" ++ newline_indent (S lvl) ++ String dquote t)
        with (String "{" (newline_indent (S lvl) ++ String dquote t)).
      cbn [scan_once]. cbn [Ascii.eqb Bool.eqb]. cbv iota.
      rewrite skip_ws_newline_indent.
      rewrite skip_ws_start by reflexivity.
      cbn [Ascii.eqb Bool.eqb]. cbv iota.
      rewrite Hscan.
      rewrite dict_of_items_distinct by now apply keys_distinct_NoDup.
      reflexivity.
Qed.

(** *** Fuel *)

Lemma value_start_length text : value_start text = true -> (1 <= String.length text)%nat.
Proof. destruct text; [discriminate|simpl; lia]. Qed.

Lemma join_length sep chunks :
  (1 <= String.length sep)%nat ->
  (items_size String.length chunks <= String.length (join sep chunks) + 1)%nat.
Proof.
  intros Hsep. induction chunks as [|c [|c' cs] IH].
  - simpl. lia.
  - simpl. lia.
  - rewrite join_cons_cons, !length_append.
    change (items_size String.length (c :: c' :: cs))
      with (S (String.length c + items_size String.length (c' :: cs))).
    lia.
Qed.

Lemma items_size_le {A B : Type} (f : A -> nat) (g : B -> nat) l l' :
  Forall2 (fun x y => (f x <= g y)%nat) l l' ->
  (items_size f l <= items_size g l')%nat.
Proof. induction 1; simpl; lia. Qed.

Lemma bracket_length opening closing lvl chunks :
  (1 <= String.length opening)%nat -> (1 <= String.length closing)%nat ->
  (S (items_size String.length chunks)
   <= String.length (bracket opening closing lvl chunks))%nat.
Proof.
  intros Ho Hc. destruct chunks as [|c cs].
  - simpl. rewrite length_append. lia.
  - unfold bracket. rewrite !length_append.
    pose proof (join_length ("," ++ newline_indent (S lvl)) (c :: cs)
                  ltac:(simpl; lia)).
    lia.
Qed.

(** The text of a value is at least as long as the value is large. *)
Lemma representable_size v :
  json_representable v = true ->
  forall lvl text,
    encode true lvl v = Return text -> (size v <= String.length text)%nat.
Proof.
  induction v as [s|l IH|l IH|d IH] using pyval_induction; intros Hv lvl text He.
  - destruct (scalar_reads_back lvl s Hv) as (text' & He' & Hs & _).
    assert (text = text') by congruence. subst text'.
    now apply value_start_length.
  - rewrite encode_list in He.
    destruct (mapM (encode true (S lvl)) l) as [chunks|] eqn:Em;
      [|discriminate]. simpl in He. injection He as <-.
    apply mapM_Forall2 in Em. simpl in Hv.
    assert (Hle : Forall2 (fun x c => (size x <= String.length c)%nat) l chunks).
    { clear -IH Hv Em. induction Em as [|x c r cs Hx Hr IHr]; [constructor|].
      simpl in Hv. apply andb_true_iff in Hv. destruct Hv as [Hvx Hvr].
      inversion IH; subst. constructor; [eauto|auto]. }
    apply items_size_le in Hle.
    pose proof (bracket_length "[" "]" lvl chunks ltac:(simpl; lia)
                  ltac:(simpl; lia)).
    change (size (PList l)) with (S (items_size size l)). lia.
  - discriminate Hv.
  - rewrite encode_dict in He.
    destruct (mapM _ d) as [chunks|] eqn:Em; [|discriminate].
    simpl in He. injection He as <-.
    apply mapM_Forall2 in Em. simpl in Hv.
    apply andb_true_iff in Hv. destruct Hv as [Hv _].
    assert (Hle : Forall2 (fun kv c => (size (snd kv) <= String.length c)%nat)
                          d chunks).
    { clear -IH Hv Em. induction Em as [|[k x] c r cs Hx Hr IHr]; [constructor|].
      simpl in Hv. apply andb_true_iff in Hv. destruct Hv as [Hvx Hvr].
      apply andb_true_iff in Hvx. destruct Hvx as [_ Hvx].
      inversion IH as [|? ? Px Pr]; subst. constructor; [|auto].
      simpl in *. destruct (encode_key k) as [kt|]; [|discriminate].
      simpl in Hx.
      destruct (encode true (S lvl) x) as [e|] eqn:Ee; [|discriminate].
      simpl in Hx. injection Hx as <-.
      specialize (Px Hvx (S lvl) e Ee). rewrite !length_append. simpl. lia. }
    apply items_size_le in Hle.
    pose proof (bracket_length "{" "}" lvl chunks ltac:(simpl; lia)
                  ltac:(simpl; lia)).
    change (size (PDict d))
      with (S (items_size (fun kv => size (snd kv)) d)). lia.
Qed.

(** [json.loads(json.dumps(v, indent=2, default=str))] is [v]. *)
Lemma json_loads_dumps v :
  json_representable v = true ->
  exists text, json_dumps true v = Return text /\ json_loads text = Some v.
Proof.
  intros Hv. destruct (representable_reads_back v Hv 0%nat)
    as (text & He & Hs & Hread).
  exists text. split; [exact He|].
  unfold json_loads.
  rewrite <- (append_empty_r text) at 2.
  rewrite value_start_skip_ws by exact Hs.
  rewrite Hread; [reflexivity| |reflexivity].
  pose proof (representable_size v Hv 0%nat text He). lia.
Qed.

(** C8: for a JSON-representable value that is not the empty one, the
    response is the title, a colon, a newline and a JSON text, and reading
    that text gives the value back: the same keys in the same order, the same
    values. *)
Theorem format_response_round_trip (v : pyval) (title : string) :
  json_representable v = true ->
  no_data v = false ->
  exists text,
    format_response (inject v) title = title ++ ":" ++ nl ++ text
    /\ json_loads text = Some v.
Proof.
  intros Hv Hn. destruct (json_loads_dumps v Hv) as (text & Hd & Hl).
  exists text. split; [|exact Hl].
  unfold format_response, format_response_try.
  rewrite (proj1 (stable_iff_fixed v) (json_representable_stable v Hv)).
  simpl. rewrite Hn, Hd. reflexivity.
Qed.

Lemma format_response_round_trip_witness :
  exists text,
    format_response (inject quote_value) "Quote"
    = "Quote" ++ ":" ++ nl ++ text
    /\ json_loads text = Some quote_value.
Proof.
  apply (format_response_round_trip quote_value "Quote"); reflexivity.
Defined.

(* ===================================================================== *)
(** ** More on format_response *)
(* ===================================================================== *)

Lemma append_cancel_l (a b c : string) : a ++ b = a ++ c -> b = c.
Proof.
  induction a as [|x a IH]; simpl; [auto|]. intros H. injection H as H. auto.
Qed.

Lemma format_response_reads_back (d : data) (title : string) (v : pyval) :
  convert_to_json_serializable d = Return v ->
  json_representable v = true ->
  no_data v = false ->
  exists text,
    format_response d title = title ++ ":" ++ nl ++ text
    /\ json_loads text = Some v.
Proof.
  intros Hc Hv Hn. destruct (json_loads_dumps v Hv) as (text & Hd & Hl).
  exists text. split; [|exact Hl].
  unfold format_response, format_response_try. rewrite Hc. simpl.
  rewrite Hn, Hd. reflexivity.
Qed.

(** A response parses back to what the normalizer returned: whatever the raw
    input (a table, a series, nested dicts), when the normalized value is
    JSON-representable and not empty, the text after the title line is read
    back by [json.loads] as that value. *)
Theorem format_response_parses_to_normalized
        (d : data) (title : string) (v : pyval) :
  convert_to_json_serializable d = Return v ->
  json_representable v = true ->
  no_data v = false ->
  exists text,
    format_response d title = title ++ ":" ++ nl ++ text
    /\ json_loads text = Some v.
Proof.
  intros Hc Hv Hn. destruct (json_loads_dumps v Hv) as (text & Hd & Hl).
  exists text. split; [|exact Hl].
  unfold format_response, format_response_try. rewrite Hc. simpl.
  rewrite Hn, Hd. reflexivity.
Qed.

Lemma format_response_parses_to_normalized_witness :
  exists text,
    format_response (DFrame symbol_frame) "Price Data"
    = "Price Data" ++ ":" ++ nl ++ text
    /\ json_loads text
       = Some (PList [PDict [(KStr "symbol", PScalar (SStr "AAPL"));
                             (KStr "price", PScalar (SInt 189))];
                      PDict [(KStr "symbol", PScalar (SStr "MSFT"));
                             (KStr "price", PScalar (SInt 411))]]).
Proof.
  apply (format_response_parses_to_normalized (DFrame symbol_frame) "Price Data");
    reflexivity.
Defined.

Lemma combine_representable cols : forall row,
  NoDup cols ->
  forallb is_str_key cols = true ->
  forallb json_representable row = true ->
  json_representable (PDict (combine cols row)) = true.
Proof.
  intros row Hnd Hk Hr. simpl. apply andb_true_iff. split.
  - clear Hnd. revert row Hr.
    induction cols as [|c cs IH]; intros [|x row] Hr; simpl; try reflexivity.
    simpl in Hk, Hr. apply andb_true_iff in Hk. apply andb_true_iff in Hr.
    destruct Hk as [Hc Hcs], Hr as [Hx Hrow].
    rewrite Hc, Hx. simpl. now apply IH.
  - apply keys_distinct_NoDup. now apply combine_keys_NoDup.
Qed.

(** A table under the default index, with distinct text labels for columns,
    JSON-representable cells and at least one row, is rendered as the title
    line and a JSON text that reads back as the list of its rows, each a
    mapping from the columns to the cells of the row, in the order of the
    table. *)
Theorem format_response_table_round_trip
        (df : DataFrame) (start step : Z) (title : string) :
  df_index df = RangeIndex start step None ->
  df_rows df <> [] ->
  NoDup (df_columns df) ->
  forallb is_str_key (df_columns df) = true ->
  Forall (fun row => forallb json_representable row = true) (df_rows df) ->
  exists text,
    format_response (DFrame df) title = title ++ ":" ++ nl ++ text
    /\ json_loads text
       = Some (PList (map (fun row => PDict (combine (df_columns df) row))
                          (df_rows df))).
Proof.
  intros Hidx Hne Hnd Hk Hcells.
  assert (Hrec : to_dict_records df
                 = map (fun row => combine (df_columns df) row) (df_rows df)).
  { unfold to_dict_records. apply map_ext. intros row.
    apply dict_of_items_distinct. now apply combine_keys_NoDup. }
  apply format_response_reads_back.
  - simpl. rewrite Hidx. simpl. rewrite Hrec, map_map. reflexivity.
  - simpl. rewrite forallb_forall. intros v Hv. apply in_map_iff in Hv.
    destruct Hv as (row & <- & Hin). rewrite Forall_forall in Hcells.
    apply combine_representable; auto.
  - destruct (df_rows df); [congruence|reflexivity].
Qed.

Lemma format_response_table_round_trip_witness :
  exists text,
    format_response (DFrame plain_frame) "Price Data"
    = "Price Data" ++ ":" ++ nl ++ text
    /\ json_loads text
       = Some (PList (map (fun row => PDict (combine (df_columns plain_frame) row))
                          (df_rows plain_frame))).
Proof.
  apply (format_response_table_round_trip plain_frame 0 1 "Price Data").
  - reflexivity.
  - discriminate.
  - repeat constructor; simpl; intuition discriminate.
  - reflexivity.
  - repeat constructor.
Defined.

(** [format_response] answers that no data is available exactly when the
    normalizer returns [None] or an empty list: neither a serialized value
    nor an error text is ever that answer. *)
Theorem no_data_answer_iff (d : data) (title : string) :
  format_response d title = title ++ ": No data available"
  <-> exists v, convert_to_json_serializable d = Return v /\ no_data v = true.
Proof.
  unfold format_response, format_response_try. split.
  - destruct (convert_to_json_serializable d) as [v|e]; simpl.
    + destruct (no_data v) eqn:Hn; [intros _; now exists v|].
      destruct (json_dumps true v) as [text|e]; simpl; intros H;
        apply append_cancel_l in H; discriminate H.
    + intros H. apply append_cancel_l in H. discriminate H.
  - intros (v & -> & Hn). simpl. now rewrite Hn.
Qed.

(* ===================================================================== *)
(** ** get_company_profile *)
(* ===================================================================== *)

Lemma no_tables_inject v : no_tables (inject v) = true.
Proof.
  induction v as [s|l IH|l IH|d IH] using pyval_induction; simpl.
  - reflexivity.
  - rewrite forallb_forall. intros x Hx. apply in_map_iff in Hx.
    destruct Hx as (y & <- & Hy). rewrite Forall_forall in IH. auto.
  - rewrite forallb_forall. intros x Hx. apply in_map_iff in Hx.
    destruct Hx as (y & <- & Hy). rewrite Forall_forall in IH. auto.
  - rewrite forallb_forall. intros x Hx. apply in_map_iff in Hx.
    destruct Hx as (y & <- & Hy). rewrite Forall_forall in IH. simpl. auto.
Qed.

(** The second pass of the normalizer, on a value it returned: it does not
    raise and what it returns is stable. *)
Lemma second_pass v :
  exists v', convert_to_json_serializable (inject v) = Return v'
             /\ stable v' = true.
Proof. apply convert_no_tables, no_tables_inject. Qed.

(** [get_company_profile] raises exactly when the normalization of one of the
    two profiles raises, with that exception, the asset profile first: these
    two calls are outside the [try] of [format_response], so a table whose
    index name is also a column makes the tool raise instead of answering
    with an error text. *)
Theorem company_profile_raises_iff (asset_profile summary_profile : data)
        (e : exn) :
  get_company_profile asset_profile summary_profile = Raise e
  <-> convert_to_json_serializable asset_profile = Raise e
      \/ (exists a, convert_to_json_serializable asset_profile = Return a)
         /\ convert_to_json_serializable summary_profile = Raise e.
Proof.
  unfold get_company_profile.
  destruct (convert_to_json_serializable asset_profile) as [a|ea]; simpl.
  - destruct (convert_to_json_serializable summary_profile) as [s|es]; simpl.
    + split; [discriminate|]. intros [H|[_ H]]; discriminate H.
    + split.
      * intros [= ->]. right. split; [now exists a|reflexivity].
      * intros [H|[_ H]]; [discriminate H|congruence].
  - split.
    + intros [= ->]. now left.
    + intros [H|[[a Ha] _]]; [congruence|discriminate Ha].
Qed.

(** When both profiles are normalized, what [get_company_profile] serializes
    is a mapping of two keys whose values went through the normalizer twice:
    they are stable, so a missing value in a cell of a profile table is
    written as null here.  The answer is never that no data is available,
    also when both profiles are [None]. *)
Theorem company_profile_second_pass (asset_profile summary_profile : data)
        (a s : pyval) :
  convert_to_json_serializable asset_profile = Return a ->
  convert_to_json_serializable summary_profile = Return s ->
  exists a' s',
    convert_to_json_serializable (inject a) = Return a'
    /\ convert_to_json_serializable (inject s) = Return s'
    /\ stable a' = true /\ stable s' = true
    /\ get_company_profile asset_profile summary_profile
       = Return (try_except
                   (text <- json_dumps true
                              (PDict [(KStr "asset_profile", a');
                                      (KStr "summary_profile", s')]) ;;
                    Return ("Company Profile" ++ ":" ++ nl ++ text))
                   (fun e => "Company Profile"
                             ++ ": Error formatting data - " ++ exn_str e))
    /\ get_company_profile asset_profile summary_profile
       <> Return "Company Profile: No data available".
Proof.
  intros Ha Hs.
  destruct (second_pass a) as (a' & Ea & Sa).
  destruct (second_pass s) as (s' & Es & Ss).
  exists a', s'. repeat split; try assumption.
  - unfold get_company_profile, format_response, format_response_try.
    rewrite Ha, Hs. simpl. rewrite Ea. simpl. rewrite Es. reflexivity.
  - unfold get_company_profile, format_response, format_response_try.
    rewrite Ha, Hs. simpl. rewrite Ea. simpl. rewrite Es. simpl.
    destruct (json_dumps true _) as [text|e]; simpl; intros H;
      injection H as H; discriminate H.
Qed.

Lemma company_profile_second_pass_witness :
  exists a' s',
    convert_to_json_serializable
      (inject (PDict [(KStr "price", PScalar (SFloat FNaN))])) = Return a'
    /\ convert_to_json_serializable (inject (PScalar SNone)) = Return s'
    /\ stable a' = true /\ stable s' = true
    /\ get_company_profile nan_series (DScalar SNone)
       = Return (try_except
                   (text <- json_dumps true
                              (PDict [(KStr "asset_profile", a');
                                      (KStr "summary_profile", s')]) ;;
                    Return ("Company Profile" ++ ":" ++ nl ++ text))
                   (fun e => "Company Profile"
                             ++ ": Error formatting data - " ++ exn_str e))
    /\ get_company_profile nan_series (DScalar SNone)
       <> Return "Company Profile: No data available".
Proof.
  apply (company_profile_second_pass nan_series (DScalar SNone)
           (PDict [(KStr "price", PScalar (SFloat FNaN))]) (PScalar SNone));
    reflexivity.
Defined.

(** End to end: when the two profiles normalize to JSON-representable values
    (an absent profile, [None], is one), the answer of [get_company_profile]
    is the title line and a JSON text that reads back as the mapping of
    ["asset_profile"] and ["summary_profile"] to these values. *)
Theorem company_profile_round_trip (asset_profile summary_profile : data)
        (a s : pyval) :
  convert_to_json_serializable asset_profile = Return a ->
  convert_to_json_serializable summary_profile = Return s ->
  json_representable a = true ->
  json_representable s = true ->
  exists text,
    get_company_profile asset_profile summary_profile
    = Return ("Company Profile" ++ ":" ++ nl ++ text)
    /\ json_loads text
       = Some (PDict [(KStr "asset_profile", a); (KStr "summary_profile", s)]).
Proof.
  intros Ha Hs Ra Rs. unfold get_company_profile. rewrite Ha, Hs. simpl.
  set (v := PDict [(KStr "asset_profile", a); (KStr "summary_profile", s)]).
  assert (Hv : json_representable v = true) by (simpl; now rewrite Ra, Rs).
  destruct (format_response_reads_back (inject v) "Company Profile" v)
    as (text & Hf & Hl).
  - apply stable_iff_fixed. now apply json_representable_stable.
  - exact Hv.
  - reflexivity.
  - exists text. split; [|exact Hl]. simpl in Hf. now rewrite Hf.
Qed.

Lemma company_profile_round_trip_witness :
  exists text,
    get_company_profile (inject quote_value) (DScalar (SFloat FNaN))
    = Return ("Company Profile" ++ ":" ++ nl ++ text)
    /\ json_loads text
       = Some (PDict [(KStr "asset_profile", quote_value);
                      (KStr "summary_profile", PScalar SNone)]).
Proof.
  apply (company_profile_round_trip (inject quote_value) (DScalar (SFloat FNaN)));
    reflexivity.
Defined.

(* ===================================================================== *)
(** ** get_historical_prices: the response *)
(* ===================================================================== *)

Lemma set_nth_nth_error {A : Type} (x : A) : forall l j p,
  nth_error (set_nth j x l) p
  = if ((p =? j) && (j <? length l))%nat then Some x else nth_error l p.
Proof.
  induction l as [|y l IH]; intros j p.
  - destruct j; simpl; rewrite andb_false_r; reflexivity.
  - destruct j as [|j], p as [|p]; simpl; try reflexivity.
    rewrite IH. reflexivity.
Qed.

Lemma set_nth_length {A : Type} (x : A) : forall l j,
  length (set_nth j x l) = length l.
Proof.
  induction l as [|y l IH]; intros [|j]; simpl; try reflexivity.
  now rewrite IH.
Qed.

Lemma put_column_nth j vals : forall rows i,
  nth_error (put_column j vals rows) i
  = match nth_error rows i with
    | Some row =>
        Some (match nth_error vals i with
              | Some v => set_nth j v row
              | None => row
              end)
    | None => None
    end.
Proof.
  induction vals as [|v vs IH]; intros rows i.
  - simpl. destruct (nth_error rows i); [|reflexivity].
    destruct i; reflexivity.
  - destruct rows as [|row rs]; [destruct i; reflexivity|].
    destruct i as [|i]; simpl; [reflexivity|apply IH].
Qed.

Lemma put_column_length j vals : forall rows,
  length (put_column j vals rows) = length rows.
Proof.
  induction vals as [|v vs IH]; intros [|row rs]; simpl; try reflexivity.
  now rewrite IH.
Qed.

Section HistoryFacts.

Variable astype_str : list pyval -> list pyval.

Lemma date_astype_none cols : forall j rows,
  ~ In (KStr "date") cols -> date_columns_astype astype_str cols j rows = rows.
Proof.
  induction cols as [|c cs IH]; intros j rows Hn; simpl; [reflexivity|].
  destruct (key_eqb_spec c (KStr "date")) as [->|Hc].
  - exfalso. apply Hn. now left.
  - apply IH. intros H. apply Hn. now right.
Qed.

(** With one column labelled [date], the step that makes dates text changes
    that column and nothing else. *)
Lemma date_astype_at pre post : forall j rows,
  ~ In (KStr "date") pre -> ~ In (KStr "date") post ->
  date_columns_astype astype_str (pre ++ KStr "date" :: post)%list j rows
  = put_column (j + length pre)
      (astype_str (get_column (j + length pre) rows)) rows.
Proof.
  induction pre as [|c pre IH]; intros j rows Hpre Hpost.
  - simpl. rewrite Nat.add_0_r. now apply date_astype_none.
  - simpl. destruct (key_eqb_spec c (KStr "date")) as [->|Hc].
    + exfalso. apply Hpre. now left.
    + rewrite IH; [|intros H; apply Hpre; now right|exact Hpost].
      now rewrite Nat.add_succ_r.
Qed.

Lemma date_position cols q :
  NoDup cols -> nth_error cols q = Some (KStr "date") ->
  forall j rows,
    date_columns_astype astype_str cols j rows
    = put_column (j + q) (astype_str (get_column (j + q) rows)) rows.
Proof.
  intros Hnd Hq j rows.
  destruct (nth_error_split cols q Hq) as (pre & post & -> & <-).
  apply NoDup_remove_2 in Hnd.
  apply date_astype_at; intros H; apply Hnd; apply in_or_app; auto.
Qed.

(** A cell outside the column labelled [date] is not changed when the dates
    are made text. *)
Lemma history_rows_other cols rows i row p cell :
  NoDup cols ->
  nth_error rows i = Some row -> nth_error row p = Some cell ->
  nth_error cols p <> Some (KStr "date") ->
  exists row',
    nth_error (if key_in (KStr "date") cols
               then date_columns_astype astype_str cols 0 rows else rows) i
    = Some row'
    /\ nth_error row' p = Some cell.
Proof.
  intros Hnd Hrow Hcell Hp.
  destruct (key_in (KStr "date") cols) eqn:Hd; [|now exists row].
  apply key_in_In in Hd. apply In_nth_error in Hd. destruct Hd as [q Hq].
  rewrite (date_position cols q Hnd Hq). simpl.
  rewrite put_column_nth, Hrow.
  eexists. split; [reflexivity|].
  destruct (nth_error (astype_str _) i) as [v|]; [|exact Hcell].
  rewrite set_nth_nth_error.
  destruct (Nat.eqb_spec p q) as [->|Hne]; [congruence|exact Hcell].
Qed.

(** The cell of the column labelled [date] is what [astype] gives for its
    row. *)
Lemma history_rows_date cols rows i row q t :
  NoDup cols -> nth_error cols q = Some (KStr "date") ->
  nth_error rows i = Some row -> (q < length row)%nat ->
  nth_error (astype_str (get_column q rows)) i = Some t ->
  exists row',
    nth_error (if key_in (KStr "date") cols
               then date_columns_astype astype_str cols 0 rows else rows) i
    = Some row'
    /\ nth_error row' q = Some t.
Proof.
  intros Hnd Hq Hrow Hlen Ht.
  assert (Hd : key_in (KStr "date") cols = true)
    by (apply key_in_In; eapply nth_error_In; eassumption).
  rewrite Hd, (date_position cols q Hnd Hq). simpl.
  rewrite put_column_nth, Hrow, Ht.
  eexists. split; [reflexivity|].
  rewrite set_nth_nth_error, Nat.eqb_refl.
  apply Nat.ltb_lt in Hlen. now rewrite Hlen.
Qed.

End HistoryFacts.

(** The loop of [reset_index] when no name clashes, row by row: the index
    values of the row, level by level, then the cells of the row. *)
Lemma insert_levels_rows levels : forall cols rows,
  NoDup (map fst levels ++ cols)%list ->
  Forall (fun lv => length (snd lv) = length rows) levels ->
  exists rows',
    insert_levels levels cols rows = Return ((map fst levels ++ cols)%list, rows')
    /\ length rows' = length rows
    /\ forall i row,
         nth_error rows i = Some row ->
         exists keys,
           Forall2 (fun lv k => nth_error (snd lv) i = Some k) levels keys
           /\ nth_error rows' i = Some (map val_of_key keys ++ row)%list.
Proof.
  induction levels as [|[name0 values0] r IH]; intros cols rows Hnd Hlen.
  - exists rows. repeat split. intros i row Hrow. exists []. split; [constructor|exact Hrow].
  - simpl in Hnd. inversion Hnd as [|? ? Hnotin Hnd']; subst.
    inversion Hlen as [|? ? Hlen0 Hlen']; subst. simpl in Hlen0.
    destruct (IH cols rows Hnd' Hlen') as (rows1 & E1 & L1 & P1).
    exists (cons_column (map val_of_key values0) rows1).
    split; [|split].
    + simpl. rewrite E1. simpl. unfold insert_front.
      apply key_in_false in Hnotin. rewrite Hnotin. reflexivity.
    + rewrite cons_column_length; [exact L1|].
      rewrite length_map. congruence.
    + intros i row Hrow. destruct (P1 i row Hrow) as (keys & Hk & Hr1).
      assert (Hi : (i < length values0)%nat)
        by (rewrite Hlen0; apply nth_error_Some; congruence).
      destruct (nth_error values0 i) as [k0|] eqn:Ek0;
        [|apply nth_error_None in Ek0; lia].
      exists (k0 :: keys). split; [now constructor|].
      rewrite cons_column_nth, nth_error_map, Ek0, Hr1. reflexivity.
Qed.

Section HistoryResponse.

Variable astype_str : list pyval -> list pyval.

(** [get_historical_prices] answers that no data is available exactly when
    what [history] returned is no table, or a table without rows or without
    columns; the interval is not part of that answer. *)
Theorem history_no_data_iff (interval : string) (d : data) :
  history_response astype_str interval d
  = Return "Historical Price Data: No data available"
  <-> forall df, d = DFrame df -> frame_empty df = true.
Proof.
  split.
  - intros H df ->. simpl in H.
    destruct (frame_empty df); [reflexivity|].
    destruct (history_records astype_str df) as [records|e];
      simpl in H; [|discriminate].
    destruct (json_dumps true _) as [text|e]; simpl in H; [|discriminate].
    injection H as H. discriminate H.
  - intros H. destruct d as [df| | | | |]; try reflexivity.
    simpl. now rewrite (H df eq_refl).
Qed.

(** On a table that is not empty the index is reset whatever it is, outside
    any [try]: when the name of an index level is also the label of a column,
    [get_historical_prices] raises. *)
Theorem history_clash_raises (interval : string) (df : DataFrame)
        (name : pykey) :
  frame_empty df = false ->
  In name (map fst (index_levels df)) ->
  In name (df_columns df) ->
  exists e, history_response astype_str interval (DFrame df) = Raise e.
Proof.
  intros He Hl Hc. simpl. rewrite He.
  destruct (reset_index_clash_raises df name Hl Hc) as [e Hr].
  exists e. unfold history_records. rewrite Hr. reflexivity.
Qed.

Lemma history_records_spec (interval : string) (df : DataFrame) :
  frame_empty df = false ->
  wf_frame df ->
  NoDup (map fst (index_levels df) ++ df_columns df)%list ->
  (forall col, length (astype_str col) = length col) ->
  exists records,
    history_response astype_str interval (DFrame df)
    = (text <- json_dumps true (PList (map PDict records)) ;;
       Return ("Historical Price Data (" ++ interval ++ "):" ++ nl ++ text))
    /\ length records = length (df_rows df)
    /\ (forall name values i key,
          In (name, values) (index_levels df) ->
          nth_error values i = Some key ->
          name <> KStr "date" ->
          exists r, nth_error records i = Some r
                    /\ dict_get r name = Some (val_of_key key))
    /\ (forall values i,
          In (KStr "date", values) (index_levels df) ->
          (i < length values)%nat ->
          exists r t,
            nth_error records i = Some r
            /\ nth_error (astype_str (map val_of_key values)) i = Some t
            /\ dict_get r (KStr "date") = Some t)
    /\ (forall label p i row cell,
          nth_error (df_columns df) p = Some label ->
          label <> KStr "date" ->
          nth_error (df_rows df) i = Some row ->
          nth_error row p = Some cell ->
          exists r, nth_error records i = Some r
                    /\ dict_get r label = Some cell).
Proof.
  intros He Hwf Hnd Hlen.
  pose proof (index_levels_lengths df Hwf) as Hlv.
  destruct (insert_levels_rows (index_levels df) (df_columns df) (df_rows df)
              Hnd Hlv) as (rows' & E & L & P).
  set (levels := index_levels df) in *.
  set (cols' := (map fst levels ++ df_columns df)%list) in *.
  set (rows'' := if key_in (KStr "date") cols'
                 then date_columns_astype astype_str cols' 0 rows'
                 else rows').
  assert (Hrec : history_records astype_str df
                 = Return (map (fun row => combine cols' row) rows'')).
  { unfold history_records, reset_index. fold levels. rewrite E. simpl.
    fold cols'. unfold rows''.
    destruct (key_in (KStr "date") cols'); unfold to_dict_records; simpl;
      f_equal; apply map_ext; intros row; apply dict_of_items_distinct;
      now apply combine_keys_NoDup. }
  assert (Hlen'' : length rows'' = length rows').
  { unfold rows''. destruct (key_in (KStr "date") cols') eqn:Hd; [|reflexivity].
    apply key_in_In in Hd. apply In_nth_error in Hd. destruct Hd as [q Hq].
    rewrite (date_position astype_str cols' q Hnd Hq). apply put_column_length. }
  assert (Hget : forall i row'' p name v,
             nth_error rows'' i = Some row'' ->
             nth_error cols' p = Some name -> nth_error row'' p = Some v ->
             exists r, nth_error (map (fun row => combine cols' row) rows'') i
                       = Some r /\ dict_get r name = Some v).
  { intros i row'' p name v Hr Hc Hv. exists (combine cols' row''). split.
    - now rewrite nth_error_map, Hr.
    - eapply dict_get_combine; eassumption. }
  exists (map (fun row => combine cols' row) rows''). split; [|split; [|split; [|split]]].
  - simpl. rewrite He, Hrec. reflexivity.
  - rewrite length_map. congruence.
  - intros name values i key Hin Hkey Hname.
    destruct (In_nth_error _ _ Hin) as [j Hj].
    assert (Hi : (i < length (df_rows df))%nat).
    { rewrite Forall_forall in Hlv. specialize (Hlv _ Hin). simpl in Hlv.
      rewrite <- Hlv. apply nth_error_Some. congruence. }
    destruct (nth_error (df_rows df) i) as [row|] eqn:Erow;
      [|apply nth_error_None in Erow; lia].
    destruct (P i row Erow) as (keys & Hk & Hr').
    assert (Hkj : nth_error keys j = Some key).
    { clear -Hk Hj Hkey. revert j Hj.
      induction Hk as [|lv k l ks Hlk _ IH]; intros [|j] Hj; try discriminate.
      - injection Hj as ->. simpl in *. congruence.
      - simpl. now apply IH. }
    assert (Hcolj : nth_error cols' j = Some name).
    { unfold cols'. rewrite nth_error_app1.
      - now rewrite nth_error_map, Hj.
      - rewrite length_map. apply nth_error_Some. congruence. }
    destruct (history_rows_other astype_str cols' rows' i _ j (val_of_key key)
                Hnd Hr') as (row'' & Hr'' & Hcell).
    + rewrite nth_error_app1.
      * now rewrite nth_error_map, Hkj.
      * rewrite length_map. apply nth_error_Some. congruence.
    + rewrite Hcolj. congruence.
    + eapply Hget; eassumption.
  - intros values i Hin Hi.
    destruct (In_nth_error _ _ Hin) as [j Hj].
    assert (Hi' : (i < length (df_rows df))%nat).
    { rewrite Forall_forall in Hlv. specialize (Hlv _ Hin). simpl in Hlv. lia. }
    destruct (nth_error (df_rows df) i) as [row|] eqn:Erow;
      [|apply nth_error_None in Erow; lia].
    destruct (P i row Erow) as (keys & Hk & Hr').
    assert (Hcolj : nth_error cols' j = Some (KStr "date")).
    { unfold cols'. rewrite nth_error_app1.
      - now rewrite nth_error_map, Hj.
      - rewrite length_map. apply nth_error_Some. congruence. }
    assert (Hcolumn : get_column j rows' = map val_of_key values).
    { apply nth_error_ext. intros n. unfold get_column.
      rewrite !nth_error_map.
      destruct (nth_error rows' n) as [r'|] eqn:Er'; simpl.
      - assert (Hn : (n < length (df_rows df))%nat)
          by (rewrite <- L; apply nth_error_Some; congruence).
        destruct (nth_error (df_rows df) n) as [rn|] eqn:Ern;
          [|apply nth_error_None in Ern; lia].
        destruct (P n rn Ern) as (keysn & Hkn & Hrn).
        assert (r' = (map val_of_key keysn ++ rn)%list) by congruence. subst r'.
        assert (Hvn : exists kn, nth_error values n = Some kn
                                 /\ nth_error keysn j = Some kn).
        { clear -Hkn Hj. revert j Hj.
          induction Hkn as [|lv k l ks Hlk _ IH]; intros [|j] Hj; try discriminate.
          - injection Hj as ->. simpl in *. now exists k.
          - simpl. now apply IH. }
        destruct Hvn as (kn & Hvn & Hkn').
        rewrite Hvn. simpl. f_equal.
        apply nth_error_nth. rewrite nth_error_app1.
        + now rewrite nth_error_map, Hkn'.
        + rewrite length_map. apply nth_error_Some. congruence.
      - apply nth_error_None in Er'.
        assert (Hn : (length values <= n)%nat).
        { rewrite Forall_forall in Hlv. specialize (Hlv _ Hin). simpl in Hlv. lia. }
        apply nth_error_None in Hn. now rewrite Hn. }
    assert (Ht : exists t, nth_error (astype_str (map val_of_key values)) i = Some t).
    { destruct (nth_error (astype_str (map val_of_key values)) i) as [t|] eqn:Et;
        [now exists t|].
      apply nth_error_None in Et. rewrite Hlen, length_map in Et. lia. }
    destruct Ht as [t Ht].
    destruct (history_rows_date astype_str cols' rows' i _ j t Hnd Hcolj Hr')
      as (row'' & Hr'' & Hcell).
    + rewrite length_app, length_map.
      assert (j < length keys)%nat; [|lia].
      rewrite <- (Forall2_length Hk). apply nth_error_Some. congruence.
    + now rewrite Hcolumn.
    + destruct (Hget i row'' j (KStr "date") _ Hr'' Hcolj Hcell) as (r & Hr & Hd).
      now exists r, t.
  - intros label p i row cell Hp Hlabel Hrow Hcell.
    destruct (P i row Hrow) as (keys & Hk & Hr').
    assert (Hlk : length keys = length levels)
      by (symmetry; eapply Forall2_length; eassumption).
    assert (Hcolp : nth_error cols' (length levels + p) = Some label).
    { unfold cols'. rewrite nth_error_app2; rewrite length_map; [|lia].
      now replace (length levels + p - length levels)%nat with p by lia. }
    destruct (history_rows_other astype_str cols' rows' i _ (length levels + p)
                cell Hnd Hr') as (row'' & Hr'' & Hcell'').
    + rewrite nth_error_app2; rewrite length_map; [|lia].
      now replace (length levels + p - length keys)%nat with p by lia.
    + rewrite Hcolp. congruence.
    + eapply Hget; eassumption.
Qed.

(** The rows of a historical response, for a table that is well formed and
    in which the level names and the column labels are pairwise distinct: one
    mapping per row; under the name of an index level other than [date], the
    index value of the row (the text, the integer, the [Timestamp] or [date],
    or the tuple that the index has for that row); under [date], when it is
    an index level, what [astype(str)] gives for the row from the column of
    the dates; under the label of a column other than [date], the cell of the
    row. *)
Theorem history_records_rows (interval : string) (df : DataFrame) :
  frame_empty df = false ->
  wf_frame df ->
  NoDup (map fst (index_levels df) ++ df_columns df)%list ->
  (forall col, length (astype_str col) = length col) ->
  exists records,
    let is_cell (key : pykey) (cell : pyval) :=
      match key with
      | KStr s => cell = PScalar (SStr s)
      | KInt z => cell = PScalar (SInt z)
      | KObj Timestamp t => cell = PScalar (SObj "Timestamp" t)
      | KObj Date t => cell = PScalar (SObj "date" t)
      | KTuple _ items => cell = PTuple (map val_of_key items)
      end in
    history_response astype_str interval (DFrame df)
    = (text <- json_dumps true (PList (map PDict records)) ;;
       Return ("Historical Price Data (" ++ interval ++ "):" ++ nl ++ text))
    /\ length records = length (df_rows df)
    /\ (forall name values i key,
          In (name, values) (index_levels df) ->
          nth_error values i = Some key ->
          name <> KStr "date" ->
          exists r cell,
            nth_error records i = Some r
            /\ dict_get r name = Some cell
            /\ is_cell key cell)
    /\ (forall values i,
          In (KStr "date", values) (index_levels df) ->
          (i < length values)%nat ->
          exists r column t,
            nth_error records i = Some r
            /\ Forall2 is_cell values column
            /\ nth_error (astype_str column) i = Some t
            /\ dict_get r (KStr "date") = Some t)
    /\ (forall label p i row cell,
          nth_error (df_columns df) p = Some label ->
          label <> KStr "date" ->
          nth_error (df_rows df) i = Some row ->
          nth_error row p = Some cell ->
          exists r, nth_error records i = Some r
                    /\ dict_get r label = Some cell).
Proof.
  intros He Hwf Hnd Hlen.
  destruct (history_records_spec interval df He Hwf Hnd Hlen)
    as (records & Hr & Hl & Hlevel & Hdate & Hcol).
  exists records. intros is_cell.
  assert (Hcell : forall key, is_cell key (val_of_key key))
    by (intros [s|z|[|] t|t items]; reflexivity).
  split; [exact Hr|]. split; [exact Hl|]. split; [|split; [|exact Hcol]].
  - intros name values i key Hin Hkey Hname.
    destruct (Hlevel name values i key Hin Hkey Hname) as (r & Hn & Hd).
    exists r, (val_of_key key). auto.
  - intros values i Hin Hi.
    destruct (Hdate values i Hin Hi) as (r & t & Hn & Ht & Hd).
    exists r, (map val_of_key values), t. repeat split; try assumption.
    clear -Hcell. induction values; simpl; constructor; auto.
Qed.

(** Unlike [format_response], [get_historical_prices] resets a default index
    too: a table under an unnamed positional index gets a column [index], and
    the mapping of row [i] holds under [index] the position of the row,
    [start + i * step]. *)
Theorem history_default_index_column (interval : string) (df : DataFrame)
        (start step : Z) :
  frame_empty df = false ->
  df_index df = RangeIndex start step None ->
  NoDup (df_columns df) ->
  ~ In (KStr "index") (df_columns df) ->
  (forall col, length (astype_str col) = length col) ->
  exists records,
    history_response astype_str interval (DFrame df)
    = (text <- json_dumps true (PList (map PDict records)) ;;
       Return ("Historical Price Data (" ++ interval ++ "):" ++ nl ++ text))
    /\ length records = length (df_rows df)
    /\ forall i, (i < length (df_rows df))%nat ->
         exists r,
           nth_error records i = Some r
           /\ dict_get r (KStr "index")
              = Some (PScalar (SInt (start + Z.of_nat i * step))).
Proof.
  intros He Hidx Hnd Hni Hlen.
  assert (Hlv : index_levels df
                = [(KStr "index",
                    range_values start step (length (df_rows df)))]).
  { unfold index_levels. rewrite Hidx.
    apply key_in_false in Hni. now rewrite Hni. }
  destruct (history_records_spec interval df He) as (records & Hr & Hl & Hlevel & _).
  - unfold wf_frame. now rewrite Hidx.
  - rewrite Hlv. simpl. now constructor.
  - exact Hlen.
  - exists records. split; [exact Hr|]. split; [exact Hl|].
    intros i Hi.
    apply (Hlevel (KStr "index") (range_values start step (length (df_rows df)))
                  i (KInt (start + Z.of_nat i * step))).
    + rewrite Hlv. now left.
    + now apply range_values_nth.
    + discriminate.
Qed.

End HistoryResponse.

Lemma history_clash_raises_witness :
  exists e,
    history_response object_astype_str "1d" (DFrame clash_frame) = Raise e.
Proof.
  apply (history_clash_raises object_astype_str "1d" clash_frame (KStr "symbol")).
  - reflexivity.
  - left. reflexivity.
  - left. reflexivity.
Defined.

Lemma object_astype_str_length col :
  length (object_astype_str col) = length col.
Proof. apply length_map. Qed.

Lemma history_records_rows_witness :
  exists records,
    history_response object_astype_str "1d" (DFrame history_frame)
    = (text <- json_dumps true (PList (map PDict records)) ;;
       Return ("Historical Price Data (" ++ "1d" ++ "):" ++ nl ++ text))
    /\ length records = 2%nat
    /\ (exists r, nth_error records 1 = Some r
                  /\ dict_get r (KStr "symbol") = Some (PScalar (SStr "AAPL")))
    /\ (exists r, nth_error records 1 = Some r
                  /\ dict_get r (KStr "date")
                     = Some (PScalar (SStr "2024-01-03")))
    /\ (exists r, nth_error records 1 = Some r
                  /\ dict_get r (KStr "close")
                     = Some (PScalar (SFloat (FFinite "184.25")))).
Proof.
  destruct (history_records_rows object_astype_str "1d" history_frame)
    as (records & Hr & Hl & Hlevel & Hdate & Hcol).
  - reflexivity.
  - repeat constructor.
  - repeat constructor; simpl; intuition discriminate.
  - apply object_astype_str_length.
  - exists records. split; [exact Hr|]. split; [exact Hl|]. split; [|split].
    + destruct (Hlevel (KStr "symbol") [KStr "AAPL"; KStr "AAPL"] 1%nat
                       (KStr "AAPL")) as (r & cell & Hn & Hd & Hc);
        [left; reflexivity|reflexivity|discriminate|].
      exists r. split; [exact Hn|]. now rewrite Hd, Hc.
    + destruct (Hdate [KObj Date "2024-01-02"; KObj Date "2024-01-03"] 1%nat)
        as (r & column & t & Hn & Hcolumn & Ht & Hd);
        [right; left; reflexivity|simpl; lia|].
      exists r. split; [exact Hn|]. rewrite Hd. f_equal.
      repeat match goal with
             | H : Forall2 _ (_ :: _) _ |- _ => inversion H; clear H; subst
             | H : Forall2 _ [] _ |- _ => inversion H; clear H; subst
             end.
      simpl in Ht. congruence.
    + apply (Hcol (KStr "close") 0%nat 1%nat
                  [PScalar (SFloat (FFinite "184.25"))]
                  (PScalar (SFloat (FFinite "184.25"))));
        [reflexivity|discriminate|reflexivity|reflexivity].
Defined.

Lemma history_default_index_column_witness :
  exists records,
    history_response object_astype_str "1wk" (DFrame plain_frame)
    = (text <- json_dumps true (PList (map PDict records)) ;;
       Return ("Historical Price Data (" ++ "1wk" ++ "):" ++ nl ++ text))
    /\ length records = 2%nat
    /\ forall i, (i < 2)%nat ->
         exists r,
           nth_error records i = Some r
           /\ dict_get r (KStr "index")
              = Some (PScalar (SInt (0 + Z.of_nat i * 1))).
Proof.
  apply (history_default_index_column object_astype_str "1wk" plain_frame 0 1).
  - reflexivity.
  - reflexivity.
  - repeat constructor; simpl; intuition discriminate.
  - simpl. intuition discriminate.
  - apply object_astype_str_length.
Defined.

(* ===================================================================== *)
(** ** More on search_symbols *)
(* ===================================================================== *)

Lemma mapM_ext_in {A B : Type} (f g : A -> result B) l :
  (forall x, In x l -> f x = g x) -> mapM f l = mapM g l.
Proof.
  induction l as [|x r IH]; intros H; simpl; [reflexivity|].
  rewrite (H x (or_introl eq_refl)), IH; [reflexivity|].
  intros y Hy. apply H. now right.
Qed.

(** On a JSON-representable value [default=str] is never called. *)
Lemma encode_default_irrelevant v :
  json_representable v = true ->
  forall lvl, encode false lvl v = encode true lvl v.
Proof.
  induction v as [s|l IH|l IH|d IH] using pyval_induction; intros Hv lvl.
  - destruct s as [|b|z|f|t| |c t]; try reflexivity; discriminate Hv.
  - simpl in Hv. rewrite !encode_list.
    rewrite (mapM_ext_in (encode false (S lvl)) (encode true (S lvl)));
      [reflexivity|].
    intros x Hx. rewrite Forall_forall in IH. rewrite forallb_forall in Hv.
    now apply IH; [|apply Hv].
  - discriminate Hv.
  - simpl in Hv. apply andb_true_iff in Hv. destruct Hv as [Hv _].
    rewrite !encode_dict.
    rewrite (mapM_ext_in
               (fun kv => k <- encode_key (fst kv) ;;
                          e <- encode false (S lvl) (snd kv) ;;
                          Return (k ++ ": " ++ e))
               (fun kv => k <- encode_key (fst kv) ;;
                          e <- encode true (S lvl) (snd kv) ;;
                          Return (k ++ ": " ++ e))); [reflexivity|].
    intros kv Hkv. rewrite Forall_forall in IH. rewrite forallb_forall in Hv.
    specialize (Hv kv Hkv). apply andb_true_iff in Hv.
    rewrite (IH kv Hkv); [reflexivity|tauto].
Qed.

Lemma dict_get_default_representable quote k default :
  forallb (fun kv => json_representable (snd kv)) quote = true ->
  json_representable default = true ->
  json_representable (dict_get_default quote k default) = true.
Proof.
  intros Hq Hd. unfold dict_get_default.
  destruct (dict_get quote k) as [v|] eqn:E; [|exact Hd].
  apply dict_get_In in E. rewrite forallb_forall in Hq.
  apply (Hq (k, v) E).
Qed.

Lemma In_firstn {A : Type} (x : A) n : forall l, In x (firstn n l) -> In x l.
Proof.
  induction n as [|n IH]; intros [|y l]; simpl; try tauto.
  intros [H|H]; [now left|right; auto].
Qed.

Lemma formatted_results_representable quotes :
  Forall (fun quote =>
            forallb (fun kv => json_representable (snd kv)) quote = true)
         quotes ->
  json_representable (PList (map PDict (formatted_results quotes))) = true.
Proof.
  intros H. simpl. rewrite forallb_forall. intros v Hv.
  apply in_map_iff in Hv. destruct Hv as (entry & <- & Hin).
  unfold formatted_results in Hin. apply in_map_iff in Hin.
  destruct Hin as (quote & <- & Hq). apply In_firstn in Hq.
  rewrite Forall_forall in H. specialize (H quote Hq).
  simpl. rewrite !dict_get_default_representable; auto.
  apply dict_get_default_representable; auto.
Qed.

(** When the fields of the quotes are JSON values, as in a decoded response,
    [search_symbols] does not fail, and the text after the heading reads back
    as the list of the entries made; with a list of quotes that is empty the
    answer is the heading and an empty JSON list, not that nothing was
    found. *)
Theorem search_symbols_round_trip (query : string)
        (quotes : list (list (pykey * pyval))) :
  Forall (fun quote =>
            forallb (fun kv => json_representable (snd kv)) quote = true)
         quotes ->
  exists text,
    search_symbols query (Return (Some quotes))
    = "Search Results for '" ++ query ++ "':" ++ nl ++ text
    /\ json_loads text = Some (PList (map PDict (formatted_results quotes)))
    /\ search_symbols query (Return (Some quotes))
       <> "No results found for '" ++ query ++ "'".
Proof.
  intros H. pose proof (formatted_results_representable quotes H) as Hv.
  destruct (json_loads_dumps _ Hv) as (text & Hd & Hl).
  assert (Hs : search_symbols query (Return (Some quotes))
               = "Search Results for '" ++ query ++ "':" ++ nl ++ text).
  { unfold search_symbols, search_symbols_try, json_dumps in *.
    cbn [bind].
    rewrite (encode_default_irrelevant _ Hv), Hd. reflexivity. }
  exists text. split; [exact Hs|]. split; [exact Hl|].
  rewrite Hs. discriminate.
Qed.

Lemma search_symbols_round_trip_witness :
  exists text,
    search_symbols "apple"
      (Return (Some [[(KStr "symbol", PScalar (SStr "AAPL"));
                      (KStr "score", PScalar (SFloat (FFinite "31292.0")))]]))
    = "Search Results for '" ++ "apple" ++ "':" ++ nl ++ text
    /\ json_loads text
       = Some (PList (map PDict (formatted_results
                 [[(KStr "symbol", PScalar (SStr "AAPL"));
                   (KStr "score", PScalar (SFloat (FFinite "31292.0")))]])))
    /\ search_symbols "apple"
         (Return (Some [[(KStr "symbol", PScalar (SStr "AAPL"));
                         (KStr "score", PScalar (SFloat (FFinite "31292.0")))]]))
       <> "No results found for '" ++ "apple" ++ "'".
Proof.
  apply (search_symbols_round_trip "apple").
  repeat constructor.
Defined.

(* ===================================================================== *)
(** ** More on the symbols argument *)
(* ===================================================================== *)

Local Open Scope list_scope.

Lemma text_split_app_sep sep x rest :
  ~ In sep x -> text_split sep (x ++ sep :: rest) = x :: text_split sep rest.
Proof.
  induction x as [|c x IH]; simpl.
  - intros _. destruct (char_eqb_spec sep sep); [reflexivity|congruence].
  - intros H. destruct (char_eqb_spec c sep) as [->|Hne]; [tauto|].
    rewrite IH by tauto. reflexivity.
Qed.

Lemma text_split_no_sep_one sep x : ~ In sep x -> text_split sep x = [x].
Proof.
  induction x as [|c x IH]; simpl; [reflexivity|].
  intros H. destruct (char_eqb_spec c sep) as [->|Hne]; [tauto|].
  rewrite IH by tauto. reflexivity.
Qed.

(** Splitting what [join] made of tokens without the separator gives the
    tokens back. *)
Lemma text_split_join_tokens sep toks :
  toks <> [] -> Forall (fun tok => ~ In sep tok) toks ->
  text_split sep (text_join [sep] toks) = toks.
Proof.
  intros Hne H. induction H as [|x r Hx Hr IH]; [congruence|].
  destruct r as [|y r].
  - simpl. now apply text_split_no_sep_one.
  - rewrite text_join_cons_cons. simpl List.app at 2.
    rewrite (text_split_app_sep sep x _ Hx). f_equal.
    apply IH. discriminate.
Qed.

Lemma text_lstrip_incl c s : In c (text_lstrip s) -> In c s.
Proof.
  induction s as [|d s IH]; simpl; [auto|].
  destruct (isspace d); [auto|]. simpl. auto.
Qed.

Lemma text_rstrip_incl c s : In c (text_rstrip s) -> In c s.
Proof.
  destruct (text_rstrip_spec s) as (after & E & _). intros H.
  rewrite E. apply in_or_app. now left.
Qed.

Lemma text_upper_comma s : In (Latin1 ",") (text_upper s) -> In (Latin1 ",") s.
Proof.
  induction s as [|c s IH]; simpl; [auto|]. intros H.
  apply in_app_or in H. destruct H as [H|H].
  - left. now apply upper_char_comma in H.
  - right. auto.
Qed.

Lemma ticker_no_comma symbols :
  Forall (fun t => ~ In (Latin1 ",") t) (ticker_list symbols).
Proof.
  unfold ticker_list. apply Forall_forall. intros t Ht.
  apply in_map_iff in Ht. destruct Ht as (tok & <- & Hin).
  pose proof (text_split_no_sep (Latin1 ",") symbols) as H.
  rewrite Forall_forall in H. intros Hc. apply (H tok Hin).
  apply text_lstrip_incl, text_rstrip_incl, text_upper_comma. exact Hc.
Qed.

(** The symbol list is a fixed point: the symbols sent upstream, joined by
    commas and given back as the argument, give the same list. *)
Theorem ticker_list_join_idempotent (symbols : pytext) :
  ticker_list (text_join [Latin1 ","] (ticker_list symbols))
  = ticker_list symbols.
Proof.
  unfold ticker_list at 1.
  rewrite (text_split_join_tokens (Latin1 ",") (ticker_list symbols)).
  - unfold ticker_list. rewrite map_map. apply map_ext. intros tok.
    now rewrite text_strip_upper, text_strip_idem, text_upper_idem.
  - unfold ticker_list. pose proof (text_split_not_nil (Latin1 ",") symbols) as H.
    destruct (text_split (Latin1 ",") symbols); [congruence|discriminate].
  - apply ticker_no_comma.
Qed.

Lemma text_lstrip_empty_iff s :
  text_lstrip s = [] <-> forallb isspace s = true.
Proof.
  induction s as [|c s IH]; simpl; [tauto|].
  destruct (isspace c); simpl; [exact IH|]. split; discriminate.
Qed.

Lemma text_strip_empty_iff s :
  text_strip s = [] <-> forallb isspace s = true.
Proof.
  rewrite <- text_lstrip_empty_iff. unfold text_strip. split.
  - intros H. destruct (text_lstrip_head s) as [E|(c & r & E & Hc)]; [exact E|].
    rewrite E in H. destruct (text_rstrip_head c r Hc) as [r' Hr]. congruence.
  - intros ->. reflexivity.
Qed.

(** Blank tokens are not dropped: the list sent upstream holds the empty
    symbol exactly when a token between commas is empty or made of blanks
    only, as in ["AAPL,,MSFT"], ["AAPL, "] or the empty argument. *)
Theorem ticker_list_keeps_blank_tokens (symbols : pytext) :
  In [] (ticker_list symbols)
  <-> exists tok, In tok (text_split (Latin1 ",") symbols)
                  /\ forallb isspace tok = true.
Proof.
  unfold ticker_list. rewrite in_map_iff. split.
  - intros (tok & H & Hin). exists tok. split; [exact Hin|].
    apply text_strip_empty_iff. now apply text_upper_empty_iff.
  - intros (tok & Hin & H). exists tok. split; [|exact Hin].
    apply text_upper_empty_iff. now apply text_strip_empty_iff.
Qed.

Local Open Scope string_scope.

(* ===================================================================== *)
(** ** deploy.py *)
(* ===================================================================== *)

Lemma length_substring_0 n : forall s,
  String.length (substring 0 n s) = Nat.min n (String.length s).
Proof.
  induction n as [|n IH]; intros [|c s]; simpl; try reflexivity.
  now rewrite IH.
Qed.

Lemma shorten_short x : (String.length x <= 200)%nat -> shorten x = x.
Proof.
  intros H. unfold shorten.
  destruct (Nat.ltb_spec 200 (String.length x)); [lia|reflexivity].
Qed.

Lemma shorten_long x :
  (200 < String.length x)%nat ->
  shorten x = substring 0 200 x ++ "..." /\ String.length (shorten x) = 203%nat.
Proof.
  intros H. unfold shorten.
  destruct (Nat.ltb_spec 200 (String.length x)); [|lia].
  split; [reflexivity|].
  rewrite length_append, length_substring_0.
  rewrite Nat.min_l by lia. reflexivity.
Qed.

Lemma commands_run_app a b :
  commands_run (a ++ b)%list = (commands_run a ++ commands_run b)%list.
Proof.
  induction a as [|[line|c] a IH]; simpl; [reflexivity|exact IH|now rewrite IH].
Qed.

Lemma run_command_flag m command description critical :
  fst (run_command m command description critical)
  = completed (sh m command) || negb critical.
Proof.
  unfold run_command. destruct (sh m command) as [out|err|msg]; simpl.
  - reflexivity.
  - destruct critical; reflexivity.
  - reflexivity.
Qed.

Lemma run_command_commands m command description critical :
  commands_run (snd (run_command m command description critical)) = [command].
Proof.
  unfold run_command. destruct (sh m command) as [out|err|msg]; simpl.
  - destruct (strip out); reflexivity.
  - destruct critical; reflexivity.
  - reflexivity.
Qed.

(** [run_command] runs its command once, whatever happens, and reports a
    failure exactly when the step is critical and the command did not
    complete: a step that is not critical never fails a deployment. *)
Theorem run_command_fails_iff (m : Machine) (command description : string)
        (critical : bool) :
  commands_run (snd (run_command m command description critical)) = [command]
  /\ (fst (run_command m command description critical) = false
      <-> critical = true /\ completed (sh m command) = false).
Proof.
  split; [apply run_command_commands|].
  rewrite run_command_flag.
  destruct (completed (sh m command)), critical; simpl; intuition congruence.
Qed.

(** Of what a command wrote, [run_command] shows at most 200 characters and
    an ellipsis: the line [Output] of a command that completed, and the line
    [Error] of a critical command that failed, end with the text stripped of
    the blanks around it when it has at most 200 characters, and with its
    first 200 characters and three dots otherwise. *)
Theorem run_command_detail_shortened (m : Machine)
        (command description : string) (critical : bool) :
  (forall stdout,
     sh m command = Completed stdout ->
     strip stdout <> EmptyString ->
     last (snd (run_command m command description critical)) (Run command)
     = Print ("   Output: " ++ shorten (strip stdout)))
  /\ (forall stderr,
        sh m command = CalledProcessError (Some stderr) ->
        stderr <> EmptyString ->
        last (snd (run_command m command description true)) (Run command)
        = Print ("   Error: " ++ shorten (strip stderr)))
  /\ (forall x,
        (String.length (shorten x) <= 203)%nat
        /\ ((String.length x <= 200)%nat -> shorten x = x)
        /\ ((200 < String.length x)%nat ->
            shorten x = substring 0 200 x ++ "...")).
Proof.
  split; [|split].
  - intros stdout Hs Hne. unfold run_command. rewrite Hs.
    destruct (strip stdout); [congruence|reflexivity].
  - intros stderr Hs Hne. unfold run_command. rewrite Hs.
    destruct stderr; [congruence|reflexivity].
  - intros x. split; [|split].
    + destruct (Nat.le_gt_cases (String.length x) 200) as [H|H].
      * rewrite shorten_short by exact H. lia.
      * destruct (shorten_long x H) as [_ ->]. lia.
    + apply shorten_short.
    + intros H. apply (shorten_long x H).
Qed.

Lemma run_command_detail_shortened_witness :
  let m := mkMachine false windows_symbols "python3" true
             (fun _ => Completed "  Successfully installed zentickr-0.1.0  ") in
  last (snd (run_command m "env/bin/pip install -e ." "Installing" false))
       (Run "env/bin/pip install -e .")
  = Print "   Output: Successfully installed zentickr-0.1.0".
Proof.
  apply (proj1 (run_command_detail_shortened
                  (mkMachine false windows_symbols "python3" true
                     (fun _ => Completed "  Successfully installed zentickr-0.1.0  "))
                  "env/bin/pip install -e ." "Installing" false)
               "  Successfully installed zentickr-0.1.0  ").
  - reflexivity.
  - vm_compute. discriminate.
Defined.

(** [setup_environment] succeeds exactly when the virtual environment is
    there or its creation completes, and the installation of the
    requirements completes; how the upgrade of pip and the installation of
    the package end does not matter. *)
Theorem setup_environment_succeeds_iff (m : Machine) :
  fst (setup_environment m) = true
  <-> (venv_exists m = true
       \/ completed (sh m (executable m ++ " -m venv env")) = true)
      /\ completed (sh m (pip_cmd m ++ " install -r requirements.txt")) = true.
Proof.
  unfold setup_environment.
  pose proof (run_command_flag m (executable m ++ " -m venv env")
                "Creating virtual environment" true) as Hv.
  pose proof (run_command_flag m (pip_cmd m ++ " install -r requirements.txt")
                "Installing dependencies" true) as Hd.
  destruct (run_command m (executable m ++ " -m venv env") _ true)
    as [venv_ok venv_events].
  destruct (run_command m (pip_cmd m ++ " install --upgrade pip") _ false)
    as [upgrade_ok upgrade_events].
  destruct (run_command m (pip_cmd m ++ " install -r requirements.txt") _ true)
    as [deps_ok deps_events].
  destruct (run_command m (pip_cmd m ++ " install -e .") _ false)
    as [package_ok package_events].
  simpl in Hv, Hd. rewrite orb_false_r in Hv, Hd. subst venv_ok deps_ok.
  destruct (venv_exists m); simpl;
    destruct (completed (sh m (executable m ++ " -m venv env")));
    destruct (completed (sh m (pip_cmd m ++ " install -r requirements.txt")));
    simpl; intuition congruence.
Qed.

(** The commands that [setup_environment] runs, in order: the creation of the
    virtual environment when it is not there; then, unless that creation
    failed, the upgrade of pip and the installation of the requirements; and
    the installation of the package only when the requirements were
    installed. *)
Theorem setup_environment_commands (m : Machine) :
  let create := executable m ++ " -m venv env" in
  let upgrade := pip_cmd m ++ " install --upgrade pip" in
  let requirements := pip_cmd m ++ " install -r requirements.txt" in
  let package := pip_cmd m ++ " install -e ." in
  commands_run (snd (setup_environment m))
  = ((if venv_exists m then [] else [create])
     ++ (if venv_exists m || completed (sh m create)
         then [upgrade; requirements]
              ++ (if completed (sh m requirements) then [package] else [])
         else []))%list.
Proof.
  cbv zeta. unfold setup_environment.
  pose proof (run_command_flag m (executable m ++ " -m venv env")
                "Creating virtual environment" true) as Hv.
  pose proof (run_command_flag m (pip_cmd m ++ " install -r requirements.txt")
                "Installing dependencies" true) as Hd.
  pose proof (run_command_commands m (executable m ++ " -m venv env")
                "Creating virtual environment" true) as Cv.
  pose proof (run_command_commands m (pip_cmd m ++ " install --upgrade pip")
                "Upgrading pip" false) as Cu.
  pose proof (run_command_commands m (pip_cmd m ++ " install -r requirements.txt")
                "Installing dependencies" true) as Cd.
  pose proof (run_command_commands m (pip_cmd m ++ " install -e .")
                "Installing Zentickr package" false) as Cp.
  destruct (run_command m (executable m ++ " -m venv env") _ true)
    as [venv_ok venv_events].
  destruct (run_command m (pip_cmd m ++ " install --upgrade pip") _ false)
    as [upgrade_ok upgrade_events].
  destruct (run_command m (pip_cmd m ++ " install -r requirements.txt") _ true)
    as [deps_ok deps_events].
  destruct (run_command m (pip_cmd m ++ " install -e .") _ false)
    as [package_ok package_events].
  simpl in Hv, Hd, Cv, Cu, Cd, Cp. rewrite orb_false_r in Hv, Hd.
  subst venv_ok deps_ok.
  destruct (venv_exists m); simpl;
    destruct (completed (sh m (executable m ++ " -m venv env")));
    destruct (completed (sh m (pip_cmd m ++ " install -r requirements.txt")));
    simpl; rewrite ?commands_run_app; simpl;
    rewrite ?commands_run_app, ?Cv, ?Cu, ?Cd, ?Cp; reflexivity.
Qed.

(** [check_python_version] accepts only versions from 3.10 on, but not all of
    them: a version whose minor number is below 10 is refused whatever its
    major number, so 4.0 is refused. *)
Theorem check_python_version_minor (s : Symbols) (major minor micro : Z) :
  (fst (check_python_version s major minor micro) = true ->
   (3 < major \/ (major = 3 /\ 10 <= minor))%Z)
  /\ ((minor < 10)%Z -> fst (check_python_version s major minor micro) = false)
  /\ ((major = 3 /\ 10 <= minor)%Z ->
      fst (check_python_version s major minor micro) = true).
Proof.
  unfold check_python_version.
  destruct (Z.leb_spec 3 major), (Z.leb_spec 10 minor); simpl;
    repeat split; intros; try congruence; lia.
Qed.

Lemma check_python_version_minor_witness :
  fst (check_python_version windows_symbols 4 0 0) = false
  /\ fst (check_python_version windows_symbols 3 12 1) = true.
Proof.
  split.
  - apply (proj1 (proj2 (check_python_version_minor windows_symbols 4 0 0))). lia.
  - apply (proj2 (proj2 (check_python_version_minor windows_symbols 3 12 1))). lia.
Defined.

(* ===================================================================== *)
(** ** When serialization fails *)
(* ===================================================================== *)

Lemma mapM_all_return {A B : Type} (f : A -> result B) l :
  (forall x, In x l -> exists y, f x = Return y) ->
  exists ys, mapM f l = Return ys.
Proof.
  induction l as [|x r IH]; intros H; simpl; [now exists []|].
  destruct (H x (or_introl eq_refl)) as [y ->].
  destruct (IH (fun z Hz => H z (or_intror Hz))) as [ys ->].
  simpl. now eexists.
Qed.

Lemma mapM_some_raise {A B : Type} (f : A -> result B) (P : exn -> Prop) l :
  (forall x, In x l -> (exists y, f x = Return y) \/ (exists e, f x = Raise e /\ P e)) ->
  (exists x e, In x l /\ f x = Raise e) ->
  exists e, mapM f l = Raise e /\ P e.
Proof.
  induction l as [|x r IH]; intros H (x0 & e0 & Hin & Hf); [destruct Hin|].
  simpl. destruct (H x (or_introl eq_refl)) as [[y Hy]|(e & He & HP)].
  - rewrite Hy. simpl.
    destruct Hin as [<-|Hin]; [congruence|].
    destruct (IH (fun z Hz => H z (or_intror Hz))) as (e & He & HP).
    + now exists x0, e0.
    + rewrite He. simpl. now exists e.
  - rewrite He. simpl. now exists e.
Qed.

Lemma forallb_false_exists {A : Type} (f : A -> bool) l :
  forallb f l = false -> exists x, In x l /\ f x = false.
Proof.
  induction l as [|x r IH]; simpl; [discriminate|].
  destruct (f x) eqn:E; simpl.
  - intros H. destruct (IH H) as (y & Hy & Hf). exists y. auto.
  - intros _. exists x. auto.
Qed.

Lemma encode_scalar_default s : exists text, encode_scalar true s = Return text.
Proof.
  destruct s as [|[|]|z|f|t| |c t]; simpl; eexists; reflexivity.
Qed.

(** With [default=str], serialization fails on a key that is neither a text
    nor an integer, and on nothing else. *)
Lemma encode_default_cases v : forall lvl,
  (serializable_keys v = true -> exists text, encode true lvl v = Return text)
  /\ (serializable_keys v = false ->
      exists cls, In cls ["Timestamp"; "date"; "tuple"]
                  /\ encode true lvl v = Raise (key_error cls)).
Proof.
  set (P := fun e => exists cls, In cls ["Timestamp"; "date"; "tuple"]
                                 /\ e = key_error cls).
  assert (Hlist : forall l lvl,
             Forall (fun v => forall lvl,
                       (serializable_keys v = true ->
                        exists text, encode true lvl v = Return text)
                       /\ (serializable_keys v = false ->
                           exists cls, In cls ["Timestamp"; "date"; "tuple"]
                                       /\ encode true lvl v = Raise (key_error cls))) l ->
             (forallb serializable_keys l = true ->
              exists ys, mapM (encode true (S lvl)) l = Return ys)
             /\ (forallb serializable_keys l = false ->
                 exists e, mapM (encode true (S lvl)) l = Raise e /\ P e)).
  { intros l lvl IH. rewrite Forall_forall in IH. split.
    - intros H. rewrite forallb_forall in H. apply mapM_all_return.
      intros x Hx. apply (IH x Hx (S lvl)). auto.
    - intros H. apply mapM_some_raise.
      + intros x Hx. destruct (serializable_keys x) eqn:Ex.
        * left. now apply (IH x Hx (S lvl)).
        * right. destruct (proj2 (IH x Hx (S lvl)) Ex) as (cls & Hcls & Hc).
          exists (key_error cls). split; [exact Hc|now exists cls].
      + destruct (forallb_false_exists _ _ H) as (x & Hx & Ex).
        destruct (proj2 (IH x Hx (S lvl)) Ex) as (cls & Hcls & Hc).
        now exists x, (key_error cls). }
  induction v as [s|l IH|l IH|d IH] using pyval_induction; intros lvl.
  - split; [intros _; apply encode_scalar_default|discriminate].
  - rewrite encode_list. destruct (Hlist l lvl IH) as [Hok Hbad].
    simpl. split; intros H.
    + destruct (Hok H) as [ys ->]. simpl. now eexists.
    + destruct (Hbad H) as (e & -> & cls & Hcls & ->). simpl. now exists cls.
  - change (encode true lvl (PTuple l))
      with (chunks <- mapM (encode true (S lvl)) l ;;
            Return (bracket "[" "]" lvl chunks)).
    destruct (Hlist l lvl IH) as [Hok Hbad].
    simpl. split; intros H.
    + destruct (Hok H) as [ys ->]. simpl. now eexists.
    + destruct (Hbad H) as (e & -> & cls & Hcls & ->). simpl. now exists cls.
  - rewrite encode_dict. rewrite Forall_forall in IH.
    change (serializable_keys (PDict d))
      with (forallb (fun kv => is_json_key (fst kv)
                               && serializable_keys (snd kv)) d).
    set (f := fun kv : pykey * pyval =>
                k <- encode_key (fst kv) ;;
                e <- encode true (S lvl) (snd kv) ;;
                Return (k ++ ": " ++ e)).
    assert (Hf : forall kv, In kv d ->
               (is_json_key (fst kv) && serializable_keys (snd kv) = true ->
                exists y, f kv = Return y)
               /\ (is_json_key (fst kv) && serializable_keys (snd kv) = false ->
                   exists e, f kv = Raise e /\ P e)).
    { intros [k x] Hkv. specialize (IH _ Hkv (S lvl)). simpl in IH.
      unfold f. simpl. destruct k as [t|z|c t|t items]; simpl.
      - split; intros H.
        + destruct (proj1 IH H) as [e ->]. simpl. now eexists.
        + destruct (proj2 IH H) as (cls & Hcls & ->). simpl.
          eexists. split; [reflexivity|now exists cls].
      - split; intros H.
        + destruct (proj1 IH H) as [e ->]. simpl. now eexists.
        + destruct (proj2 IH H) as (cls & Hcls & ->). simpl.
          eexists. split; [reflexivity|now exists cls].
      - split; [discriminate|]. intros _. eexists. split; [reflexivity|].
        exists (label_class_name c). split; [|reflexivity].
        destruct c; simpl; tauto.
      - split; [discriminate|]. intros _. eexists. split; [reflexivity|].
        exists "tuple". split; [simpl; tauto|reflexivity]. }
    split.
    + intros H. rewrite forallb_forall in H.
      destruct (mapM_all_return f d) as [ys ->].
      * intros kv Hkv. apply (Hf kv Hkv). auto.
      * simpl. now eexists.
    + intros H.
      destruct (mapM_some_raise f P d) as (e & He & cls & Hcls & ->).
      * intros kv Hkv.
        destruct (is_json_key (fst kv) && serializable_keys (snd kv)) eqn:Ex.
        -- left. now apply (Hf kv Hkv).
        -- right. now apply (Hf kv Hkv).
      * destruct (forallb_false_exists _ _ H) as (kv & Hkv & Ex).
        destruct (proj2 (Hf kv Hkv) Ex) as (e & He & _).
        now exists kv, e.
      * rewrite He. simpl. now exists cls.
Qed.

(** When the normalizer returns a value that is not empty, [format_response]
    gives the title line and a JSON text if every key of every mapping in
    the value is a text or an integer.  If some key is a label of another
    class (a [Timestamp], a [date] or a tuple), it gives the error text of
    [json] that names that class: with [default=str] nothing else makes the
    serialization fail. *)
Theorem format_response_error_only_on_keys
        (d : data) (title : string) (v : pyval) :
  convert_to_json_serializable d = Return v ->
  no_data v = false ->
  (serializable_keys v = true ->
   exists text, format_response d title = title ++ ":" ++ nl ++ text)
  /\ (serializable_keys v = false ->
      exists cls,
        In cls ["Timestamp"; "date"; "tuple"]
        /\ format_response d title
           = title ++ ": Error formatting data - "
             ++ "keys must be str, int, float, bool or None, not " ++ cls).
Proof.
  intros Hc Hn. unfold format_response, format_response_try, json_dumps.
  rewrite Hc. simpl. rewrite Hn.
  destruct (encode_default_cases v 0) as [Hok Hbad]. split; intros H.
  - destruct (Hok H) as [text ->]. now exists text.
  - destruct (Hbad H) as (cls & Hcls & ->). now exists cls.
Qed.

Lemma format_response_error_only_on_keys_witness :
  (exists text,
      format_response (DFrame symbol_frame) "Price Data"
      = "Price Data" ++ ":" ++ nl ++ text)
  /\ (exists cls,
        In cls ["Timestamp"; "date"; "tuple"]
        /\ format_response tuple_series "Price Data"
           = "Price Data" ++ ": Error formatting data - "
             ++ "keys must be str, int, float, bool or None, not " ++ cls)
  /\ format_response
       (DSeries [(KObj Timestamp "2024-01-02 00:00:00", PScalar (SInt 189))])
       "Price Data"
     = "Price Data: Error formatting data - keys must be str, int, float, bool or None, not Timestamp".
Proof.
  split; [|split].
  - apply (proj1 (format_response_error_only_on_keys (DFrame symbol_frame)
                    "Price Data" _ eq_refl eq_refl)).
    reflexivity.
  - apply (proj2 (format_response_error_only_on_keys tuple_series
                    "Price Data" _ eq_refl eq_refl)).
    reflexivity.
  - reflexivity.
Defined.
